(** * The SSE connection registry / broadcast engine ([EventService])

    A shallow embedding of [src/features/sse/services/event-service.ts]
    (class [EventService]) together with the parts of its environment it
    talks to: the clock ([Date.now()]), the interval timer, and the
    [ReadableStream] controllers that carry each client's outbound frames.

    Conventions of the embedding.
    - The class instance and its environment live in one record, [World].
      Methods are computations in a state-and-exception monad [M]; a JS
      [try { .. } catch { .. }] is [try_catch], which keeps the effects
      performed before the exception was raised, as JS does.
    - [Map<string, SSEClient>] is an insertion-ordered association list
      (module [JsMap]); a [Record<string, string>] is a [gmap string string].
    - Every [Date.now()] of one method call is one clock reading [now],
      passed as an argument; the heartbeat tick takes two readings, the one
      of the ping loop and the one of the sweep.
    - Timestamps and intervals are integers ([Z]), as [Date.now()] gives
      them; counters and the client limit are naturals.  Where the code
      divides, the numbers are the doubles they are in JS ([PrimFloat]).
    - Logging ([logger.info]) has no effect on the engine and is left out. *)

From Stdlib Require Import ZArith String Ascii.
From Stdlib Require Floats.PrimFloat.
From stdpp Require Import base list gmap strings pretty.

Local Open Scope string_scope.
Local Open Scope Z_scope.

(** ** JavaScript values that are used as event payloads *)

Set Warnings "-register-all".

(** What [SSEEvent<T>.data] can hold: [T] is unconstrained, so besides text
    and the values that have a JSON text there are those that have none
    ([undefined], a symbol, a function) and those that [JSON.stringify]
    refuses (a BigInt, an object or array that is reachable from itself).
    Numbers are the integers; object fields are listed in the order in which
    JS enumerates them. *)
Inductive JsValue :=
| JUndefined
| JNull
| JBool (b : bool)
| JNumber (n : Z)
| JBigInt (n : Z)
| JString (s : string)
| JSymbol (description : string)
| JFunction (name : string)
| JArray (xs : list JsValue)
| JObject (fields : list (string * JsValue))
| JCircular.

(** ** Completions: a value, or an exception thrown *)

Inductive Exn :=
| JsError (message : string)
| TypeError (message : string).

Inductive Completion (A : Type) :=
| Normal (a : A)
| Throw (e : Exn).
Arguments Normal {A} a.
Arguments Throw {A} e.

(** The results of a list of evaluations done in order: all the values, or
    the first exception. *)
Fixpoint sequence {A} (rs : list (Completion A)) : Completion (list A) :=
  match rs with
  | [] => Normal []
  | Normal a :: rs' =>
      match sequence rs' with
      | Normal rest => Normal (a :: rest)
      | Throw e => Throw e
      end
  | Throw e :: _ => Throw e
  end.

Definition nl_char : ascii := "010"%char.
Definition dquote_char : ascii := "034"%char.
Definition backslash_char : ascii := "092"%char.
Definition nl : string := String nl_char "".
Definition dquote : string := String dquote_char "".

Definition hex_digit (n : nat) : ascii :=
  match n with
  | 0 => "0" | 1 => "1" | 2 => "2" | 3 => "3" | 4 => "4" | 5 => "5"
  | 6 => "6" | 7 => "7" | 8 => "8" | 9 => "9" | 10 => "a" | 11 => "b"
  | 12 => "c" | 13 => "d" | 14 => "e" | _ => "f"
  end%nat%char.

(** ECMA-262 [QuoteJSONString], one code unit at a time. *)
Definition escape_char (c : ascii) : string :=
  let n := nat_of_ascii c in
  if (n =? 8)%nat then "\b"
  else if (n =? 9)%nat then "\t"
  else if (n =? 10)%nat then "\n"
  else if (n =? 12)%nat then "\f"
  else if (n =? 13)%nat then "\r"
  else if (n <? 32)%nat then
    "\u00" ++ String (hex_digit (n / 16)) (String (hex_digit (n mod 16)) "")
  else if Ascii.eqb c dquote_char then String backslash_char dquote
  else if Ascii.eqb c backslash_char then "\\"
  else String c "".

Fixpoint escape_string (s : string) : string :=
  match s with
  | EmptyString => ""
  | String c r => escape_char c ++ escape_string r
  end.

Definition quoteJSONString (s : string) : string :=
  dquote ++ escape_string s ++ dquote.

(** [Number::toString] on an integer, which is its decimal text for the
    integers a clock reading or a counter can be (below [10^21]). *)
Definition Number_toString (n : Z) : string := pretty n.

(** The members of an object's JSON text: a property whose value has no
    JSON text is left out. *)
Definition members (properties : list (string * option string)) : list string :=
  omap (fun kv => (fun text => quoteJSONString (fst kv) ++ ":" ++ text) <$> snd kv)
       properties.

(** [JSON.stringify(v)] with no replacer and no indentation (ECMA-262
    [SerializeJSONProperty]).  The result is [undefined] ([None]) for
    [undefined], a symbol and a function; inside an array these read
    [null], inside an object their property is left out.  A BigInt and a
    circular structure throw a [TypeError], wherever they occur. *)
Fixpoint JSON_stringify (v : JsValue) : Completion (option string) :=
  match v with
  | JUndefined | JSymbol _ | JFunction _ => Normal None
  | JNull => Normal (Some "null")
  | JBool true => Normal (Some "true")
  | JBool false => Normal (Some "false")
  | JNumber n => Normal (Some (Number_toString n))
  | JBigInt _ => Throw (TypeError "Do not know how to serialize a BigInt")
  | JString s => Normal (Some (quoteJSONString s))
  | JArray xs =>
      match sequence (List.map JSON_stringify xs) with
      | Normal items =>
          Normal (Some ("[" ++ String.concat "," (List.map (default "null") items) ++ "]"))
      | Throw e => Throw e
      end
  | JObject fields =>
      match sequence (List.map (fun kv => JSON_stringify (snd kv)) fields) with
      | Normal items =>
          Normal (Some ("{" ++ String.concat "," (members (zip (List.map fst fields) items))
                            ++ "}"))
      | Throw e => Throw e
      end
  | JCircular => Throw (TypeError "Converting circular structure to JSON")
  end.

(** ** [String.prototype.split("\n")] and [Array.prototype.join] *)

Fixpoint split_nl (s : string) : list string :=
  match s with
  | EmptyString => [""]
  | String c r =>
      if Ascii.eqb c nl_char then "" :: split_nl r
      else match split_nl r with
           | seg :: segs => String c seg :: segs
           | [] => [String c ""]
           end
  end.

Definition join (sep : string) (xs : list string) : string := String.concat sep xs.

(** ** The types of [../types] *)

Record SSEEvent := mkEvent {
  ev_event : string;
  ev_data : JsValue;
  ev_id : option string;
  ev_retry : option Z;
}.

Record SSEClient := mkClient {
  id : string;
  userId : option string;
  sessionId : option string;
  controller : nat;            (* reference to the stream's controller *)
  connectedAt : Z;
  lastPing : Z;
  metadata : option (gmap string string);
}.

Record ClientFilter := mkFilter {
  f_userId : option string;
  f_sessionId : option string;
  f_clientIds : option (list string);
  f_metadata : option (gmap string string);
}.

Record SSEConfig := mkSSEConfig {
  c_pingInterval : option Z;
  c_clientTimeout : option Z;
  c_maxClients : option nat;
  c_enableLogging : option bool;
}.

(** [Required<SSEConfig>] *)
Record Config := mkConfig {
  cfg_pingInterval : Z;
  cfg_clientTimeout : Z;
  maxClients : nat;
  enableLogging : bool;
}.

(** ** JS truthiness of the optional fields the code tests with [if (x)] *)

Definition truthy_string (o : option string) : bool :=
  match o with
  | Some s => negb (String.eqb s "")
  | None => false
  end.

Definition truthy_number (o : option Z) : bool :=
  match o with
  | Some n => negb (n =? 0)
  | None => false
  end.

(** ** [Map<K, V>]: insertion-ordered, one entry per key *)

Module JsMap.
Section JsMap.
Context {V : Type}.
Implicit Types (m : list (string * V)) (k : string).

Fixpoint get k m : option V :=
  match m with
  | [] => None
  | (k', v) :: m' => if String.eqb k k' then Some v else get k m'
  end.

(** [set] overwrites in place when the key exists and appends otherwise. *)
Fixpoint set k (v : V) m : list (string * V) :=
  match m with
  | [] => [(k, v)]
  | (k', v') :: m' =>
      if String.eqb k k' then (k', v) :: m' else (k', v') :: set k v m'
  end.

Fixpoint delete k m : list (string * V) :=
  match m with
  | [] => []
  | (k', v) :: m' =>
      if String.eqb k k' then delete k m' else (k', v) :: delete k m'
  end.

Definition size m : nat := length m.
Definition keys m : list string := List.map fst m.
Definition values m : list V := List.map snd m.
Definition entries m : list (string * V) := m.
Definition clear m : list (string * V) := [].
Definition has k m : bool := match get k m with Some _ => true | None => false end.
End JsMap.
End JsMap.

(** ** Plain objects used as dictionaries

    An object made by [{}] has [Object.prototype] behind it.  Its own
    properties are a [gmap]; a read of a name it does not own finds what
    [Object.prototype] has under that name, and a write to the name
    [__proto__] goes to the accessor of [Object.prototype], which ignores a
    value that is neither an object nor [null]. *)

(** The function-valued properties of [Object.prototype], each with the
    name of its function. *)
Definition Object_prototype_functions : list (string * string) :=
  [("constructor", "Object");
   ("__defineGetter__", "__defineGetter__");
   ("__defineSetter__", "__defineSetter__");
   ("hasOwnProperty", "hasOwnProperty");
   ("__lookupGetter__", "__lookupGetter__");
   ("__lookupSetter__", "__lookupSetter__");
   ("isPrototypeOf", "isPrototypeOf");
   ("propertyIsEnumerable", "propertyIsEnumerable");
   ("toString", "toString");
   ("valueOf", "valueOf");
   ("toLocaleString", "toLocaleString")].

(** The text of a built-in function, as V8 prints it. *)
Definition native_function_text (name : string) : string :=
  "function " ++ name ++ "() { [native code] }".

(** [obj[key] = value] for a primitive [value]. *)
Definition assign {V} (key : string) (value : V) (own : gmap string V) : gmap string V :=
  if String.eqb key "__proto__" then own else <[key := value]> own.

(** A property of [clientsByUser]: a number as declared, or the string that
    [+ 1] makes when what was read is not a number. *)
Inductive Tally :=
| Count (n : nat)
| Text (s : string).

(** [(obj[key] || 0) + 1].  An own number is incremented; an own string has
    ["1"] appended (an empty one is falsy and gives 1); an inherited
    function or [Object.prototype] itself, read under [__proto__], is turned
    into its text first; a name found nowhere gives 1. *)
Definition or_zero_plus_one (own : gmap string Tally) (key : string) : Tally :=
  match own !! key with
  | Some (Count n) => Count (n + 1)
  | Some (Text s) => if String.eqb s "" then Count 1 else Text (s ++ "1")
  | None =>
      match JsMap.get key Object_prototype_functions with
      | Some f => Text (native_function_text f ++ "1")
      | None => if String.eqb key "__proto__" then Text "[object Object]1" else Count 1
      end
  end.

(** ** Numbers that are divided

    The integer [z] as a double; exact below [2^53] in magnitude, which
    every clock reading, age and count is. *)
Fixpoint float_of_positive (p : positive) : PrimFloat.float :=
  match p with
  | xH => PrimFloat.one
  | xO q => PrimFloat.mul PrimFloat.two (float_of_positive q)
  | xI q => PrimFloat.add (PrimFloat.mul PrimFloat.two (float_of_positive q)) PrimFloat.one
  end.

Definition float_of_Z (z : Z) : PrimFloat.float :=
  match z with
  | Z0 => PrimFloat.zero
  | Zpos p => float_of_positive p
  | Zneg p => PrimFloat.opp (float_of_positive p)
  end.

Record SSEStats := mkStats {
  totalClients : nat;
  clientsByUser : gmap string Tally;
  averageConnectionDuration : PrimFloat.float;
  st_totalEventsSent : nat;
  st_lastEventTime : option Z;
}.

(** ** The environment: stream controllers, timers *)

(** One [ReadableStream] created by [createConnection], seen through its
    [ReadableStreamDefaultController].  [canCloseOrEnqueue] is the Streams
    Standard's [ReadableStreamDefaultControllerCanCloseOrEnqueue]: the stream
    is readable and no close was requested.  [chunks] are the chunks enqueued
    so far, oldest first.  [cancelFor] is the [clientId] captured by the
    [cancel] callback of the underlying source. *)
Record Stream := mkStream {
  canCloseOrEnqueue : bool;
  chunks : list string;
  cancelFor : string;
}.

(** The instance fields of [EventService] ([clients] .. [config]) and the
    environment ([streams]: the heap of controllers, indexed by reference;
    [timers]: the handles of the intervals that are still armed).  A client
    record holds a reference into [streams], so the registry and the
    consumer of a response see the same stream. *)
Record World := mkWorld {
  clients : list (string * SSEClient);
  pingInterval : option nat;
  totalEventsSent : nat;
  lastEventTime : option Z;
  config : Config;
  streams : list Stream;
  timers : list nat;
}.

Definition with_clients (f : list (string * SSEClient) -> list (string * SSEClient)) (w : World) : World :=
  mkWorld (f (clients w)) (pingInterval w) (totalEventsSent w) (lastEventTime w)
          (config w) (streams w) (timers w).

Definition with_totalEventsSent (n : nat) (w : World) : World :=
  mkWorld (clients w) (pingInterval w) n (lastEventTime w)
          (config w) (streams w) (timers w).

Definition with_lastEventTime (t : option Z) (w : World) : World :=
  mkWorld (clients w) (pingInterval w) (totalEventsSent w) t
          (config w) (streams w) (timers w).

Definition with_streams (f : list Stream -> list Stream) (w : World) : World :=
  mkWorld (clients w) (pingInterval w) (totalEventsSent w) (lastEventTime w)
          (config w) (f (streams w)) (timers w).

Definition with_timers (f : list nat -> list nat) (w : World) : World :=
  mkWorld (clients w) (pingInterval w) (totalEventsSent w) (lastEventTime w)
          (config w) (streams w) (f (timers w)).

(** ** The state-and-exception monad *)

Definition M (A : Type) : Type := World -> Completion A * World.

Definition ret {A} (a : A) : M A := fun w => (Normal a, w).

Definition bind {A B} (m : M A) (k : A -> M B) : M B :=
  fun w => match m w with
           | (Normal a, w') => k a w'
           | (Throw e, w') => (Throw e, w')
           end.

Definition throw {A} (e : Exn) : M A := fun w => (Throw e, w).

(** [try { body } catch (e) { handler }]: the world the handler starts from
    is the one the body left behind. *)
Definition try_catch {A} (body : M A) (handler : Exn -> M A) : M A :=
  fun w => match body w with
           | (Normal a, w') => (Normal a, w')
           | (Throw e, w') => handler e w'
           end.

Definition gets {A} (f : World -> A) : M A := fun w => (Normal (f w), w).
(** A call of a function that touches no state. *)
Definition lift {A} (c : Completion A) : M A := fun w => (c, w).
Definition modify (f : World -> World) : M unit := fun w => (Normal tt, f w).

Notation "'let*' x ':=' m 'in' k" := (bind m (fun x => k))
  (at level 10, x name, m at level 100, k at level 200).

(** A [for (const x of xs) body] loop. *)
Fixpoint for_each {A} (xs : list A) (body : A -> M unit) : M unit :=
  match xs with
  | [] => ret tt
  | x :: xs' => let* _ := body x in for_each xs' body
  end.

Definition CapacityExceeded : Exn := JsError "Maximum number of clients reached".
Definition InvalidState : Exn := TypeError "Invalid state: Controller is already closed".

(** ** Controller operations

    The operations of [ReadableStreamDefaultController] are those of the
    WHATWG Streams Standard, which Node and the browsers implement.
    [enqueue(chunk)] and [close()] begin with the same step: if
    [ReadableStreamDefaultControllerCanCloseOrEnqueue(this)] is false, throw
    a [TypeError].  The predicate holds while the stream is readable and no
    close was requested.  With the default queuing strategy, the one
    [createConnection] gets, [enqueue] has no other way to fail.  Cancelling
    a readable stream from the consumer's end closes the stream first and
    then runs the [cancel] callback of the underlying source. *)

Definition push_chunk (chunk : string) (st : Stream) : Stream :=
  mkStream (canCloseOrEnqueue st) (chunks st ++ [chunk])%list (cancelFor st).

Definition request_close (st : Stream) : Stream :=
  mkStream false (chunks st) (cancelFor st).

(** Whether the controller behind [ref] accepts [enqueue] and [close]. *)
Definition writable (w : World) (ref : nat) : bool :=
  match streams w !! ref with
  | Some st => canCloseOrEnqueue st
  | None => false
  end.

(** [controller.enqueue(chunk)]: throws a [TypeError] unless the controller
    can close or enqueue; otherwise the chunk is queued. *)
Definition enqueue (ref : nat) (chunk : string) : M unit :=
  fun w => match streams w !! ref with
           | Some st =>
               if canCloseOrEnqueue st
               then (Normal tt,
                     with_streams (fun h => <[ref := push_chunk chunk st]> h) w)
               else (Throw InvalidState, w)
           | None => (Throw InvalidState, w)
           end.

(** [controller.close()]: throws a [TypeError] unless the controller can
    close or enqueue; otherwise the close is requested. *)
Definition close (ref : nat) : M unit :=
  fun w => match streams w !! ref with
           | Some st =>
               if canCloseOrEnqueue st
               then (Normal tt,
                     with_streams (fun h => <[ref := request_close st]> h) w)
               else (Throw InvalidState, w)
           | None => (Throw InvalidState, w)
           end.

(** [new ReadableStream({ start, cancel })]: allocates the controller; the
    reference is its index in the heap. *)
Definition newReadableStream (clientId : string) : M nat :=
  fun w => (Normal (length (streams w)),
            with_streams (fun h => (h ++ [mkStream true [] clientId])%list) w).

Definition clearInterval (h : nat) : M unit :=
  modify (with_timers (List.filter (fun h' => negb (h' =? h)%nat))).

(** ** [EventService] *)

(** The constructor: defaults of the configuration, then
    [startPingInterval], which arms the interval and keeps its handle. *)
Definition EventService_new (c : SSEConfig) : World :=
  {| clients := [];
     pingInterval := Some 0%nat;
     totalEventsSent := 0%nat;
     lastEventTime := None;
     config := {| cfg_pingInterval := default 45000 (c_pingInterval c);
                  cfg_clientTimeout := default 90000 (c_clientTimeout c);
                  maxClients := default 1000%nat (c_maxClients c);
                  enableLogging := default true (c_enableLogging c) |};
     streams := [];
     timers := [0%nat] |}.

Definition NoSplit : Exn :=
  TypeError "Cannot read properties of undefined (reading 'split')".

(** [formatEvent].  [data] is [undefined] when the payload has no JSON
    text, and [data.split] then throws a [TypeError]; an exception of
    [JSON.stringify] goes through. *)
Definition formatEvent (event : SSEEvent) : Completion string :=
  let message := "" in
  let message :=
    if truthy_string (ev_id event)
    then message ++ "id: " ++ default "" (ev_id event) ++ nl else message in
  let message :=
    if truthy_string (Some (ev_event event))
    then message ++ "event: " ++ ev_event event ++ nl else message in
  let message :=
    if truthy_number (ev_retry event)
    then message ++ "retry: " ++ Number_toString (default 0 (ev_retry event)) ++ nl
    else message in
  match match ev_data event with
        | JString s => Normal (Some s)
        | _ => JSON_stringify (ev_data event)
        end with
  | Normal (Some data) =>
      Normal (message
              ++ (join nl (List.map (fun line => "data: " ++ line) (split_nl data)) ++ nl ++ nl))
  | Normal None => Throw NoSplit
  | Throw e => Throw e
  end.

(** [generateClientId]; [rnd] is [Math.random().toString(36).slice(2, 11)]. *)
Definition generateClientId (now : Z) (rnd : string) : string :=
  "rt_" ++ Number_toString now ++ "_" ++ rnd.

(** [a === b] on [string | undefined]. *)
Definition strict_eq (a b : option string) : bool :=
  match a, b with
  | Some x, Some y => String.eqb x y
  | None, None => true
  | _, _ => false
  end.

(** [client.metadata?.[k]] *)
Definition metadata_get (client : SSEClient) (k : string) : option string :=
  match metadata client with
  | Some m => m !! k
  | None => None
  end.

(** The body of the loop of [getClientsByFilter]: [false] on each
    [continue], [true] when the client is pushed. *)
Definition selects (filter : ClientFilter) (client : SSEClient) : bool :=
  if match f_clientIds filter with
     | Some ids => negb (existsb (String.eqb (id client)) ids)
     | None => false
     end then false
  else if truthy_string (f_userId filter)
          && negb (strict_eq (userId client) (f_userId filter)) then false
  else if truthy_string (f_sessionId filter)
          && negb (strict_eq (sessionId client) (f_sessionId filter)) then false
  else if match f_metadata filter with
          | Some fm =>
              negb (forallb (fun kv => strict_eq (metadata_get client (fst kv)) (Some (snd kv)))
                            (map_to_list fm))
          | None => false
          end then false
  else true.

Definition getClientsByFilter (filter : ClientFilter) (w : World) : list SSEClient :=
  List.filter (selects filter) (JsMap.values (clients w)).

(** The body of the loop of [getStats], on [clientsByUser] and
    [totalConnectionDuration]. *)
Definition getStats_step (now : Z) (acc : gmap string Tally * PrimFloat.float)
    (client : SSEClient) : gmap string Tally * PrimFloat.float :=
  let by_user :=
    if truthy_string (userId client)
    then let u := default "" (userId client) in
         assign u (or_zero_plus_one (fst acc) u) (fst acc)
    else fst acc in
  (by_user,
   PrimFloat.add (snd acc)
                 (PrimFloat.sub (float_of_Z now) (float_of_Z (connectedAt client)))).

(** [getStats] *)
Definition getStats (now : Z) (w : World) : SSEStats :=
  let '(by_user, totalConnectionDuration) :=
    fold_left (getStats_step now) (JsMap.values (clients w)) (∅, PrimFloat.zero) in
  {| totalClients := JsMap.size (clients w);
     clientsByUser := by_user;
     averageConnectionDuration :=
       if (0 <? JsMap.size (clients w))%nat
       then PrimFloat.div totalConnectionDuration
                          (float_of_Z (Z.of_nat (JsMap.size (clients w))))
       else PrimFloat.zero;
     st_totalEventsSent := totalEventsSent w;
     st_lastEventTime := lastEventTime w |}.

(** [disconnectClient] *)
Definition disconnectClient (clientId : string) : M bool :=
  let* found := gets (fun w => JsMap.get clientId (clients w)) in
  match found with
  | None => ret false
  | Some client =>
      try_catch
        (let* _ := close (controller client) in
         let* _ := modify (with_clients (JsMap.delete clientId)) in
         ret true)
        (fun _ => ret false)
  end.

(** [sendToClient] *)
Definition sendToClient (clientId : string) (event : SSEEvent) (now : Z) : M bool :=
  let* found := gets (fun w => JsMap.get clientId (clients w)) in
  match found with
  | None => ret false
  | Some client =>
      try_catch
        (let* message := lift (formatEvent event) in
         let* _ := enqueue (controller client) message in
         let* _ := modify (fun w => with_totalEventsSent (S (totalEventsSent w)) w) in
         let* _ := modify (with_lastEventTime (Some now)) in
         ret true)
        (fun _ =>
           let* _ := disconnectClient clientId in
           ret false)
  end.

(** The [reduce] of [sendToClients]. *)
Fixpoint reduce_send (cs : list SSEClient) (event : SSEEvent) (now : Z) (count : nat) : M nat :=
  match cs with
  | [] => ret count
  | client :: cs' =>
      let* ok := sendToClient (id client) event now in
      reduce_send cs' event now (if ok then (count + 1)%nat else count)
  end.

Definition sendToClients (filter : ClientFilter) (event : SSEEvent) (now : Z) : M nat :=
  let* cs := gets (getClientsByFilter filter) in
  reduce_send cs event now 0%nat.

Definition emptyFilter : ClientFilter := mkFilter None None None None.
Definition userFilter (u : string) : ClientFilter := mkFilter (Some u) None None None.

Definition broadcast (event : SSEEvent) (now : Z) : M nat :=
  sendToClients emptyFilter event now.

Definition sendToUser (u : string) (event : SSEEvent) (now : Z) : M nat :=
  sendToClients (userFilter u) event now.

(** The argument of [createConnection] and the [Response] it returns. *)
Record Options := mkOptions {
  o_userId : option string;
  o_sessionId : option string;
  o_metadata : option (gmap string string);
}.

Record Response := mkResponse {
  body : nat;
  headers : list (string * string);
}.

Definition sseHeaders : list (string * string) :=
  [("Content-Type", "text/event-stream"); ("Cache-Control", "no-cache");
   ("Connection", "keep-alive"); ("Access-Control-Allow-Origin", "*")].

Definition connectedEvent (clientId : string) (at_ : Z) : SSEEvent :=
  mkEvent "connected" (JObject [("clientId", JString clientId); ("connectedAt", JNumber at_)])
          None None.

(** [createConnection]; the [start] callback runs inside the
    [ReadableStream] constructor. *)
Definition createConnection (options : Options) (rnd : string) (now : Z) : M Response :=
  let* w := gets (fun w => w) in
  if (maxClients (config w) <=? JsMap.size (clients w))%nat
  then throw CapacityExceeded
  else
    let clientId := generateClientId now rnd in
    let* stream := newReadableStream clientId in
    let client := {| id := clientId;
                     userId := o_userId options;
                     sessionId := o_sessionId options;
                     controller := stream;
                     connectedAt := now;
                     lastPing := now;
                     metadata := o_metadata options |} in
    let* _ := modify (with_clients (JsMap.set clientId client)) in
    let* _ := sendToClient clientId (connectedEvent clientId (connectedAt client)) now in
    ret (mkResponse stream sseHeaders).

(** [for (const [key, value] of map)]: the iterator is live, so an entry
    removed before it is reached is not visited and the value seen is the
    current one.  No loop of the class inserts while it iterates. *)
Definition for_of_map (body : string -> SSEClient -> M unit) : M unit :=
  let* ks := gets (fun w => JsMap.keys (clients w)) in
  for_each ks (fun k =>
    let* cur := gets (fun w => JsMap.get k (clients w)) in
    match cur with
    | Some client => body k client
    | None => ret tt
    end).

Definition set_lastPing (t : Z) (client : SSEClient) : SSEClient :=
  mkClient (id client) (userId client) (sessionId client) (controller client)
           (connectedAt client) t (metadata client).

Definition heartbeat (now : Z) : SSEEvent :=
  mkEvent "ping" (JObject [("timestamp", JNumber now)]) None None.

(** [cleanupStaleClients] *)
Definition cleanupStaleClients (now : Z) : M unit :=
  for_of_map (fun clientId client =>
    let* w := gets (fun w => w) in
    if cfg_clientTimeout (config w) <? now - lastPing client
    then let* _ := disconnectClient clientId in ret tt
    else ret tt).

(** One firing of the callback that [startPingInterval] installs; [now] is
    the reading of the ping loop, [now'] the one of the sweep. *)
Definition pingTick (now now' : Z) : M unit :=
  let* _ :=
    for_of_map (fun key client =>
      let* ok := sendToClient (id client) (heartbeat now) now in
      if ok then modify (with_clients (JsMap.set key (set_lastPing now client)))
      else ret tt) in
  cleanupStaleClients now'.

(** [destroy] *)
Definition destroy : M unit :=
  let* p := gets pingInterval in
  let* _ := match p with
            | Some h => clearInterval h
            | None => ret tt
            end in
  let* _ := for_of_map (fun clientId _ => let* _ := disconnectClient clientId in ret tt) in
  modify (with_clients JsMap.clear).

(** ** What the environment does to the engine *)

(** The consumer cancels the response body.  A stream that is still readable
    becomes closed, then its [cancel] callback runs, which calls
    [disconnectClient] with the id it captured.  Cancelling a stream that is
    closed already does nothing.  (A stream that the engine closed while
    chunks were still queued stays readable until they are read; a cancel
    in between runs the callback alone, which is the action
    [DisconnectClient] below.) *)
Definition cancelStream (ref : nat) : M unit :=
  let* h := gets streams in
  match h !! ref with
  | Some st =>
      if canCloseOrEnqueue st
      then let* _ := modify (with_streams (fun h => <[ref := request_close st]> h)) in
           let* _ := disconnectClient (cancelFor st) in
           ret tt
      else ret tt
  | None => ret tt
  end.

(** The interval callback runs only while its handle is armed. *)
Definition heartbeatArmed (w : World) : bool :=
  match pingInterval w with
  | Some h => existsb (Nat.eqb h) (timers w)
  | None => false
  end.

Definition timerFires (now now' : Z) : M unit :=
  let* armed := gets heartbeatArmed in
  if armed then pingTick now now' else ret tt.

(** Running a computation for its final world, or for its result. *)
Definition exec {A} (m : M A) (w : World) : World := snd (m w).
Definition eval {A} (m : M A) (w : World) : Completion A := fst (m w).

(** ** Worlds and frames used to state the properties *)

(** The world after [controller.close()] succeeded and the entry was deleted. *)
Definition removed (clientId : string) (ref : nat) (w : World) : World :=
  with_clients (JsMap.delete clientId)
    (with_streams (fun h => match h !! ref with
                            | Some st => <[ref := request_close st]> h
                            | None => h
                            end) w).

(** The world after one chunk went out on [ref]. *)
Definition delivered (ref : nat) (chunk : string) (now : Z) (w : World) : World :=
  with_lastEventTime (Some now)
    (with_totalEventsSent (S (totalEventsSent w))
       (with_streams (fun h => match h !! ref with
                               | Some st => <[ref := push_chunk chunk st]> h
                               | None => h
                               end) w)).

(** The text of a payload, if it has one: a string verbatim, anything else
    as JSON. *)
Definition payload_text (v : JsValue) : Completion (option string) :=
  match v with
  | JString s => Normal (Some s)
  | _ => JSON_stringify v
  end.

(** The payload has the text [text]. *)
Definition has_text (v : JsValue) (text : string) : Prop :=
  payload_text v = Normal (Some text).

(** The frame of an event that has one (the empty text where it has none). *)
Definition frameOf (e : SSEEvent) : string :=
  match formatEvent e with
  | Normal frame => frame
  | Throw _ => ""
  end.

(** One [data: <segment>] line per segment. *)
Fixpoint data_lines (segments : list string) : string :=
  match segments with
  | [] => ""
  | seg :: segs => ("data: " ++ seg ++ nl) ++ data_lines segs
  end.

(** The frame in the words of the specification, for a payload whose text
    is [text]: a line for each field the event has (the label of an event is
    always there; an empty label is no label), the data lines, a blank
    line. *)
Definition frame_as_specified (e : SSEEvent) (text : string) : string :=
  (match ev_id e with Some i => "id: " ++ i ++ nl | None => "" end)
  ++ (if String.eqb (ev_event e) "" then "" else "event: " ++ ev_event e ++ nl)
  ++ (match ev_retry e with Some r => "retry: " ++ Number_toString r ++ nl | None => "" end)
  ++ data_lines (split_nl text)
  ++ nl.

(** The frame the code builds: a field gets its line when it is truthy,
    that is, a non-empty string or a non-zero number. *)
Definition frame_truthy (e : SSEEvent) (text : string) : string :=
  (match ev_id e with
   | Some i => if String.eqb i "" then "" else "id: " ++ i ++ nl
   | None => ""
   end)
  ++ (if String.eqb (ev_event e) "" then "" else "event: " ++ ev_event e ++ nl)
  ++ (match ev_retry e with
      | Some r => if r =? 0 then "" else "retry: " ++ Number_toString r ++ nl
      | None => ""
      end)
  ++ data_lines (split_nl text)
  ++ nl.


(** The filter predicate in the words of the specification. *)
Definition matches_as_specified (f : ClientFilter) (c : SSEClient) : Prop :=
  match f_clientIds f with None => True | Some ids => In (id c) ids end
  /\ match f_userId f with None => True | Some u => userId c = Some u end
  /\ match f_sessionId f with None => True | Some s => sessionId c = Some s end
  /\ match f_metadata f with
     | None => True
     | Some fm => forall k v, fm !! k = Some v -> metadata_get c k = Some v
     end.

(** The predicate the code decides: an empty [userId] or [sessionId] in the
    filter counts as absent. *)
Definition matches_truthy (f : ClientFilter) (c : SSEClient) : Prop :=
  match f_clientIds f with None => True | Some ids => In (id c) ids end
  /\ match f_userId f with None => True | Some u => u = "" \/ userId c = Some u end
  /\ match f_sessionId f with None => True | Some s => s = "" \/ sessionId c = Some s end
  /\ match f_metadata f with
     | None => True
     | Some fm => forall k v, fm !! k = Some v -> metadata_get c k = Some v
     end.

(** ** Worlds the engine reaches, used as concrete inputs *)

Definition defaultConfig : SSEConfig := mkSSEConfig None None None None.
Definition alice : Options := mkOptions (Some "alice") None None.
Definition bob : Options := mkOptions (Some "bob") None None.
Definition note (text : string) : SSEEvent := mkEvent "notification" (JString text) None None.

(** A fresh engine. *)
Definition world0 : World := EventService_new defaultConfig.
(** ... after alice connected at time 1000, *)
Definition world_a : World := exec (createConnection alice "a1" 1000) world0.
(** ... and bob at time 2000. *)
Definition world_ab : World := exec (createConnection bob "b1" 2000) world_a.
(** Alice connected, then her browser went away: the transport cancelled
    the response body. *)
Definition world_gone : World := exec (cancelStream 0) world_a.
(** Alice and bob connected, then bob's browser went away. *)
Definition world_bob_gone : World := exec (cancelStream 1) world_ab.

(** ** The loop bodies as world transformers *)

(** One round of the ping loop of [startPingInterval]. *)
Definition ping_step (now : Z) (w : World) (key : string) : World :=
  match JsMap.get key (clients w) with
  | Some client =>
      match sendToClient (id client) (heartbeat now) now w with
      | (Normal true, w') => with_clients (JsMap.set key (set_lastPing now client)) w'
      | (_, w') => w'
      end
  | None => w
  end.

(** One round of the loop of [cleanupStaleClients]. *)
Definition sweep_step (now : Z) (w : World) (key : string) : World :=
  match JsMap.get key (clients w) with
  | Some client =>
      if cfg_clientTimeout (config w) <? now - lastPing client
      then exec (disconnectClient key) w
      else w
  | None => w
  end.

(** One round of the loop of [destroy]. *)
Definition destroy_step (w : World) (key : string) : World :=
  match JsMap.get key (clients w) with
  | Some _ => exec (disconnectClient key) w
  | None => w
  end.

Definition ping_all (now : Z) (w : World) : World :=
  fold_left (ping_step now) (JsMap.keys (clients w)) w.

Definition sweep_all (now : Z) (w : World) : World :=
  fold_left (sweep_step now) (JsMap.keys (clients w)) w.

(** ** Predicates on worlds *)

(** The client registered under [k] is [c], and its stream takes writes. *)
Definition connected (k : string) (w : World) : Prop :=
  exists c, JsMap.get k (clients w) = Some c
            /\ id c = k
            /\ writable w (controller c) = true.

(** The client registered under [k] is [c], but its stream is closed. *)
Definition stranded (k : string) (c : SSEClient) (w : World) : Prop :=
  JsMap.get k (clients w) = Some c
  /\ id c = k
  /\ writable w (controller c) = false.

(** [lastPing] is older than [clientTimeout] at time [now]. *)
Definition stale (w : World) (now : Z) (c : SSEClient) : Prop :=
  cfg_clientTimeout (config w) < now - lastPing c.

(** The registry is a map from each client's id to the client, no two
    clients share a controller, and every controller is on the heap. *)
Definition wf (w : World) : Prop :=
  NoDup (JsMap.keys (clients w))
  /\ Forall (fun kc => id (snd kc) = fst kc) (clients w)
  /\ NoDup (List.map (fun kc => controller (snd kc)) (clients w))
  /\ Forall (fun kc => (controller (snd kc) < length (streams w))%nat) (clients w).

(** Every registered client's stream takes writes ("no write fails"). *)
Definition all_writable (w : World) : Prop :=
  Forall (fun kc => writable w (controller (snd kc)) = true) (clients w).

#[global] Instance all_writable_dec (w : World) : Decision (all_writable w).
Proof. unfold all_writable. apply _. Defined.

(** The clients whose [userId] is [u]. *)
Definition ofUser (u : string) (c : SSEClient) : bool := strict_eq (userId c) (Some u).

(** The client record that [createConnection] builds. *)
Definition newClient (options : Options) (rnd : string) (now : Z) (w : World) : SSEClient :=
  {| id := generateClientId now rnd;
     userId := o_userId options;
     sessionId := o_sessionId options;
     controller := length (streams w);
     connectedAt := now;
     lastPing := now;
     metadata := o_metadata options |}.

(** The world after a successful [createConnection]: a new stream, the
    client in the registry, the [connected] frame on the stream. *)
Definition registered (options : Options) (rnd : string) (now : Z) (w : World) : World :=
  let client := newClient options rnd now w in
  delivered (controller client) (frameOf (connectedEvent (id client) now)) now
    (with_clients (JsMap.set (id client) client)
       (with_streams (fun h => (h ++ [mkStream true [] (id client)])%list) w)).

(** A sequence of registrations; a caller that is refused goes on (the
    route handler answers 500 and the next request comes in). *)
Record Request := mkRequest {
  r_options : Options;
  r_rnd : string;
  r_now : Z;
}.

Definition register (r : Request) : M Response :=
  createConnection (r_options r) (r_rnd r) (r_now r).

Fixpoint registerAll (rs : list Request) (w : World) : World :=
  match rs with
  | [] => w
  | r :: rs' => registerAll rs' (exec (register r) w)
  end.


(** ** Histories *)

(** What can happen to an engine: calls of its public methods, the timer
    callback, and the consumer of a stream cancelling it. *)
Inductive Action :=
| CreateConnection (options : Options) (rnd : string) (now : Z)
| SendToClient (clientId : string) (event : SSEEvent) (now : Z)
| SendToClients (filter : ClientFilter) (event : SSEEvent) (now : Z)
| DisconnectClient (clientId : string)
| TimerFires (now now' : Z)
| CancelStream (ref : nat)
| Destroy.

Definition perform (w : World) (a : Action) : World :=
  match a with
  | CreateConnection options rnd now => exec (createConnection options rnd now) w
  | SendToClient clientId event now => exec (sendToClient clientId event now) w
  | SendToClients filter event now => exec (sendToClients filter event now) w
  | DisconnectClient clientId => exec (disconnectClient clientId) w
  | TimerFires now now' => exec (timerFires now now') w
  | CancelStream ref => exec (cancelStream ref) w
  | Destroy => exec destroy w
  end.

Definition run (history : list Action) (w : World) : World :=
  fold_left perform history w.

(** The worlds an engine can be in. *)
Definition reachable (w : World) : Prop :=
  exists config history, w = run history (EventService_new config).

(** * Further definitions: what is measured on a world *)

(** The number of chunks ever enqueued, over all streams. *)
Definition frames_written (w : World) : nat :=
  sum_list_with (fun st => length (chunks st)) (streams w).

(** The frame that opens a client's stream. *)
Definition connected_frame_of (c : SSEClient) : string :=
  frameOf (connectedEvent (id c) (connectedAt c)).

(** [st'] is [st] some deliveries later: the chunks of [st] are still there,
    in front; the stream belongs to the same client; it has not reopened. *)
Definition extends (st st' : Stream) : Prop :=
  chunks st `prefix_of` chunks st'
  /\ cancelFor st' = cancelFor st
  /\ (canCloseOrEnqueue st' = true -> canCloseOrEnqueue st = true).

(** What the ping loop makes of a client: [lastPing] moves to the time of
    the tick if the ping reached the client. *)
Definition pinged (w : World) (now : Z) (c : SSEClient) : SSEClient :=
  if writable w (controller c) then set_lastPing now c else c.

(** Whether the client registered under [k] has a stream that takes writes. *)
Definition reaches (w : World) (k : string) : bool :=
  match JsMap.get k (clients w) with
  | Some c => writable w (controller c)
  | None => false
  end.

(** The number of registered clients whose [userId] is [u]. *)
Definition clientsOfUser (u : string) (w : World) : nat :=
  length (List.filter (ofUser u) (JsMap.values (clients w))).

(** The sum of the connection ages at time [now], added up in registry
    order from [start]. *)
Definition totalAge (now : Z) (cs : list SSEClient) (start : PrimFloat.float)
  : PrimFloat.float :=
  fold_left (fun acc c =>
               PrimFloat.add acc
                 (PrimFloat.sub (float_of_Z now) (float_of_Z (connectedAt c))))
            cs start.

(** [n] times the character [1]. *)
Fixpoint ones (n : nat) : string :=
  match n with
  | O => ""
  | S n' => ones n' ++ "1"
  end.

(** What [getStats] has under the user id [u] when [n] clients carry it:
    nothing for the empty id, which is falsy, and for [__proto__], which is
    never stored; the count for an ordinary id; for a name that
    [Object.prototype] has, the text of that function followed by one [1]
    per client. *)
Definition tally_of (u : string) (n : nat) : option Tally :=
  if String.eqb u "" || String.eqb u "__proto__" || (n =? 0)%nat then None
  else match JsMap.get u Object_prototype_functions with
       | Some f => Some (Text (native_function_text f ++ ones n))
       | None => Some (Count n)
       end.

(** How often the character [ch] occurs in [s]. *)
Fixpoint occurrences (ch : ascii) (s : string) : nat :=
  match s with
  | EmptyString => 0
  | String c r => ((if Ascii.eqb c ch then 1 else 0) + occurrences ch r)%nat
  end.

(** The field lines that precede the data lines of a frame. *)
Definition header_lines (e : SSEEvent) : string :=
  (if truthy_string (ev_id e) then "id: " ++ default "" (ev_id e) ++ nl else "")
  ++ (if truthy_string (Some (ev_event e)) then "event: " ++ ev_event e ++ nl else "")
  ++ (if truthy_number (ev_retry e)
      then "retry: " ++ Number_toString (default 0 (ev_retry e)) ++ nl else "").

(** The characters of the decimal text of an integer. *)
Definition is_digit_or_minus (ch : ascii) : bool :=
  existsb (Ascii.eqb ch) (list_ascii_of_string "0123456789-").

(** * The module-level engine ([utils/notifications.ts])

    The module keeps one engine in the variable [eventService].  An engine
    is the instance fields of [EventService]; the streams and the timers are
    the program's, and outlive the engine.  [timersCreated] numbers the
    handles [setInterval] gives out, so that no handle is given twice. *)

Record Engine := mkEngine {
  e_clients : list (string * SSEClient);
  e_pingInterval : option nat;
  e_totalEventsSent : nat;
  e_lastEventTime : option Z;
  e_config : Config;
}.

Record Program := mkProgram {
  eventService : option Engine;
  heap : list Stream;
  armed : list nat;
  timersCreated : nat;
}.

(** Nothing has run yet: [let eventService = null]. *)
Definition initialProgram : Program := mkProgram None [] [] 0.

(** The world a method of the engine [e] runs in. *)
Definition attach (e : Engine) (p : Program) : World :=
  mkWorld (e_clients e) (e_pingInterval e) (e_totalEventsSent e) (e_lastEventTime e)
          (e_config e) (heap p) (armed p).

Definition engine_of (w : World) : Engine :=
  mkEngine (clients w) (pingInterval w) (totalEventsSent w) (lastEventTime w) (config w).

(** The program after a method of the current engine left the world [w]. *)
Definition detach (w : World) (p : Program) : Program :=
  mkProgram (Some (engine_of w)) (streams w) (timers w) (timersCreated p).

(** [eventService = new EventService(config)]: the constructor of the
    class, run in a program that already has streams and timers. *)
Definition newEventService (c : SSEConfig) (p : Program) : Engine * Program :=
  let h := timersCreated p in
  let e := mkEngine [] (Some h) 0%nat None (config (EventService_new c)) in
  (e, mkProgram (Some e) (heap p) (armed p ++ [h])%list (S h)).

(** The engine's own [broadcast], under a name that the module's
    [broadcast] does not hide. *)
Definition EventService_broadcast := broadcast.

Module Notifications.

(** [initializeSSE] *)
Definition initializeSSE (c : SSEConfig) (p : Program) : Engine * Program :=
  let p1 := match eventService p with
            | Some e => detach (exec destroy (attach e p)) p
            | None => p
            end in
  newEventService c p1.

(** [getEventService] *)
Definition getEventService (p : Program) : Engine * Program :=
  match eventService p with
  | Some e => (e, p)
  | None => newEventService defaultConfig p
  end.

(** [getEventService().method(..)] *)
Definition call {A} (method : M A) (p : Program) : Completion A * Program :=
  let '(e, p1) := getEventService p in
  let '(r, w') := method (attach e p1) in
  (r, detach w' p1).

(** [notifyUser] *)
Definition notifyUser (u : string) (event : SSEEvent) (now : Z) :=
  call (sendToUser u event now).

(** [broadcast] *)
Definition broadcast (event : SSEEvent) (now : Z) :=
  call (EventService_broadcast event now).

(** [notifyFiltered] *)
Definition notifyFiltered (filter : ClientFilter) (event : SSEEvent) (now : Z) :=
  call (sendToClients filter event now).

(** [getActiveClients]; the filter defaults to the empty one. *)
Definition getActiveClients (filter : option ClientFilter) (p : Program)
  : list SSEClient * Program :=
  let '(e, p1) := getEventService p in
  (getClientsByFilter (default emptyFilter filter) (attach e p1), p1).

(** [notifyWithMetadata] *)
Definition notifyWithMetadata (md : gmap string string) (event : SSEEvent) (now : Z) :=
  call (sendToClients (mkFilter None None None (Some md)) event now).

(** [cleanupSSE] *)
Definition cleanupSSE (p : Program) : Program :=
  match eventService p with
  | Some e =>
      let w := exec destroy (attach e p) in
      mkProgram None (streams w) (timers w) (timersCreated p)
  | None => p
  end.

End Notifications.

(** * The route handlers ([app/api/sse/route.ts], [app/api/sse/clients/route.ts])

    [URLSearchParams] is the list of the name-value pairs of the query
    string, in order; a name may occur more than once. *)

Module Routes.

(** [searchParams.get(name)]: the first value given for [name]. *)
Fixpoint params_get (name : string) (ps : list (string * string)) : option string :=
  match ps with
  | [] => None
  | (k, v) :: ps' => if String.eqb k name then Some v else params_get name ps'
  end.

(** [x || undefined] on [string | null]. *)
Definition or_undefined (o : option string) : option string :=
  if truthy_string o then o else None.

(** [Object.fromEntries(entries)]: every pair becomes an own property; a
    later pair overwrites an earlier one with the same key. *)
Definition fromEntries (entries : list (string * string)) : gmap string string :=
  fold_left (fun m kv => <[fst kv := snd kv]> m) entries ∅.

(** The loop [metadata[key] = value] over the pairs, [metadata] starting
    as [{}]. *)
Definition assignEntries (entries : list (string * string)) : gmap string string :=
  fold_left (fun m kv => assign (fst kv) (snd kv) m) entries ∅.

(** [value.split(",")] *)
Fixpoint split_comma (s : string) : list string :=
  match s with
  | EmptyString => [""]
  | String c r =>
      if Ascii.eqb c ","%char then "" :: split_comma r
      else match split_comma r with
           | seg :: segs => String c seg :: segs
           | [] => [String c ""]
           end
  end.

(** The pairs whose key is none of [reserved]. *)
Definition other_params (reserved : list string) (ps : list (string * string))
  : list (string * string) :=
  List.filter (fun kv => negb (existsb (String.eqb (fst kv)) reserved)) ps.

(** The registration options that [GET /api/sse] reads off the query. *)
Definition connectOptions (ps : list (string * string)) : Options :=
  {| o_userId := or_undefined (params_get "userId" ps);
     o_sessionId := or_undefined (params_get "sessionId" ps);
     o_metadata := Some (assignEntries (other_params ["userId"; "sessionId"] ps)) |}.

(** The filter that [GET /api/sse/clients] reads off the query. *)
Definition clientsFilter (ps : list (string * string)) : ClientFilter :=
  {| f_userId := or_undefined (params_get "userId" ps);
     f_sessionId := or_undefined (params_get "sessionId" ps);
     f_clientIds := split_comma <$> params_get "clientIds" ps;
     f_metadata := Some (fromEntries (other_params ["userId"; "sessionId"; "clientIds"] ps)) |}.

(** One element of the array that [GET /api/sse/clients] answers with. *)
Record ClientSummary := mkSummary {
  s_id : string;
  s_userId : option string;
  s_sessionId : option string;
  s_connectedAt : Z;
  s_lastPing : Z;
  s_metadata : option (gmap string string);
}.

Definition summary (client : SSEClient) : ClientSummary :=
  {| s_id := id client;
     s_userId := userId client;
     s_sessionId := sessionId client;
     s_connectedAt := connectedAt client;
     s_lastPing := lastPing client;
     s_metadata := metadata client |}.

(** What a handler answers: the event stream, the JSON array of client
    summaries, or a plain-text error. *)
Inductive RouteResponse :=
| EventStream (response : Response)
| ClientList (clients : list ClientSummary)
| Failure (status : nat) (text : string).

(** [GET /api/sse] *)
Definition connect (ps : list (string * string)) (rnd : string) (now : Z) (p : Program)
  : RouteResponse * Program :=
  match Notifications.call (createConnection (connectOptions ps) rnd now) p with
  | (Normal response, p') => (EventStream response, p')
  | (Throw _, p') => (Failure 500 "Internal Server Error", p')
  end.

(** [GET /api/sse/clients] *)
Definition listClients (ps : list (string * string)) (p : Program)
  : RouteResponse * Program :=
  let '(cs, p') := Notifications.getActiveClients (Some (clientsFilter ps)) p in
  (ClientList (List.map summary cs), p').

End Routes.

(** The engine of a program has room for one more client. *)
Definition has_room (p : Program) : Prop :=
  match eventService p with
  | Some e => (JsMap.size (e_clients e) < maxClients (e_config e))%nat
  | None => True
  end.

(** The handle of the current engine's interval was given out by this
    program. *)
Definition timer_known (p : Program) : Prop :=
  match eventService p with
  | Some e => match e_pingInterval e with
              | Some h => (h < timersCreated p)%nat
              | None => True
              end
  | None => True
  end.

(** The last value given for [name]. *)
Definition params_last (name : string) (ps : list (string * string)) : option string :=
  Routes.params_get name (rev ps).

(** * The query string of the client hook ([hooks/use-sse.ts]) *)

Module Hook.

Record SSEHookOptions := mkHookOptions {
  h_userId : option string;
  h_sessionId : option string;
  h_metadata : option (gmap string string);
  h_autoReconnect : option bool;
  h_reconnectInterval : option Z;
  h_maxReconnectAttempts : option nat;
}.

(** The [URLSearchParams] that [buildUrl] fills; the URL is ["/api/sse?"]
    followed by their serialisation, which the server parses back into the
    same pairs.  [params.set] on pairs with distinct names, which is all
    [buildUrl] ever has, is the [set] of a map. *)
Definition buildParams (options : SSEHookOptions) : list (string * string) :=
  let metadata := default ∅ (h_metadata options) in
  let params := [] in
  let params :=
    if truthy_string (h_userId options)
    then JsMap.set "userId" (default "" (h_userId options)) params else params in
  let params :=
    if truthy_string (h_sessionId options)
    then JsMap.set "sessionId" (default "" (h_sessionId options)) params else params in
  fold_left (fun ps kv => JsMap.set (fst kv) (snd kv) ps) (map_to_list metadata) params.

End Hook.
(** * Properties *)

(** ** The map *)

Module JsMapFacts.
Section JsMapFacts.
Context {V : Type}.
Implicit Types (m : list (string * V)) (k : string) (v : V).

Lemma eqb_eq_dec k k' : String.eqb k k' = true \/ (String.eqb k k' = false /\ k <> k').
Proof.
  destruct (String.eqb k k') eqn:E; [by left | right].
  split; [done | by apply String.eqb_neq].
Qed.

Lemma get_set_eq k v m : JsMap.get k (JsMap.set k v m) = Some v.
Proof.
  induction m as [|[k' v'] m IH]; simpl.
  - by rewrite String.eqb_refl.
  - destruct (String.eqb k k') eqn:E; simpl; rewrite E; [done | apply IH].
Qed.

Lemma get_set_ne k k' v m : k <> k' -> JsMap.get k (JsMap.set k' v m) = JsMap.get k m.
Proof.
  intros Hne. induction m as [|[k2 v2] m IH]; simpl.
  - by apply String.eqb_neq in Hne as ->.
  - destruct (String.eqb k' k2) eqn:E; simpl.
    + apply String.eqb_eq in E as ->.
      apply String.eqb_neq in Hne. by rewrite Hne.
    + by rewrite IH.
Qed.

Lemma get_delete_eq k m : JsMap.get k (JsMap.delete k m) = None.
Proof.
  induction m as [|[k' v'] m IH]; simpl; [done|].
  destruct (String.eqb k k') eqn:E; simpl; [done | by rewrite E].
Qed.

Lemma get_delete_ne k k' m : k <> k' -> JsMap.get k (JsMap.delete k' m) = JsMap.get k m.
Proof.
  intros Hne. induction m as [|[k2 v2] m IH]; simpl; [done|].
  destruct (String.eqb k' k2) eqn:E; simpl.
  - apply String.eqb_eq in E as <-.
    by apply String.eqb_neq in Hne as ->.
  - by rewrite IH.
Qed.

Lemma size_set_le k v m : (JsMap.size (JsMap.set k v m) <= S (JsMap.size m))%nat.
Proof.
  unfold JsMap.size. induction m as [|[k' v'] m IH]; simpl; [lia|].
  destruct (String.eqb k k'); simpl; lia.
Qed.

Lemma size_set_fresh k v m :
  JsMap.get k m = None -> JsMap.size (JsMap.set k v m) = S (JsMap.size m).
Proof.
  unfold JsMap.size. induction m as [|[k' v'] m IH]; simpl; [done|].
  destruct (String.eqb k k'); simpl; [done | intros H; by rewrite IH].
Qed.

Lemma keys_set_present k v v0 m :
  JsMap.get k m = Some v0 -> JsMap.keys (JsMap.set k v m) = JsMap.keys m.
Proof.
  unfold JsMap.keys. induction m as [|[k' v'] m IH]; simpl; [done|].
  destruct (String.eqb k k'); simpl; [done | intros H; by rewrite IH].
Qed.

Lemma get_Some_key k v m : JsMap.get k m = Some v -> In k (JsMap.keys m).
Proof.
  unfold JsMap.keys. induction m as [|[k' v'] m IH]; simpl; [done|].
  destruct (String.eqb k k') eqn:E.
  - apply String.eqb_eq in E as ->. by left.
  - intros H. right. by apply IH.
Qed.

Lemma get_Some_value k v m : JsMap.get k m = Some v -> In v (JsMap.values m).
Proof.
  unfold JsMap.values. induction m as [|[k' v'] m IH]; simpl; [done|].
  destruct (String.eqb k k').
  - intros [= ->]. by left.
  - intros H. right. by apply IH.
Qed.

Lemma get_None_key k m : JsMap.get k m = None -> ~ In k (JsMap.keys m).
Proof.
  unfold JsMap.keys. induction m as [|[k' v'] m IH]; simpl; [tauto|].
  destruct (String.eqb k k') eqn:E; [done|].
  apply String.eqb_neq in E. intros H [Hk | Hk]; [congruence | by apply IH].
Qed.
End JsMapFacts.
End JsMapFacts.
Import JsMapFacts.

(** ** One call of [disconnectClient] and of [sendToClient] *)

Lemma disconnectClient_absent w clientId :
  JsMap.get clientId (clients w) = None ->
  disconnectClient clientId w = (Normal false, w).
Proof. intros H. unfold disconnectClient, bind, gets. by rewrite H. Qed.

Lemma disconnectClient_writable w clientId client :
  JsMap.get clientId (clients w) = Some client ->
  writable w (controller client) = true ->
  disconnectClient clientId w = (Normal true, removed clientId (controller client) w).
Proof.
  intros Hget Hw. unfold disconnectClient, bind, gets. rewrite Hget.
  unfold try_catch, close, removed, writable in *.
  destruct (streams w !! controller client) as [st|] eqn:Hst; [|done].
  rewrite Hw. simpl. unfold with_streams; simpl. by rewrite Hst.
Qed.

Lemma disconnectClient_unwritable w clientId client :
  JsMap.get clientId (clients w) = Some client ->
  writable w (controller client) = false ->
  disconnectClient clientId w = (Normal false, w).
Proof.
  intros Hget Hw. unfold disconnectClient, bind, gets. rewrite Hget.
  unfold try_catch, close, writable in *.
  destruct (streams w !! controller client) as [st|] eqn:Hst; [|done].
  by rewrite Hw.
Qed.

Lemma sendToClient_absent w clientId event now :
  JsMap.get clientId (clients w) = None ->
  sendToClient clientId event now w = (Normal false, w).
Proof. intros H. unfold sendToClient, bind, gets. by rewrite H. Qed.

Lemma sendToClient_writable w clientId client event frame now :
  JsMap.get clientId (clients w) = Some client ->
  formatEvent event = Normal frame ->
  writable w (controller client) = true ->
  sendToClient clientId event now w
  = (Normal true, delivered (controller client) frame now w).
Proof.
  intros Hget Hframe Hw. unfold sendToClient, bind, gets, lift. rewrite Hget.
  unfold try_catch, enqueue, delivered, writable in *. rewrite Hframe.
  destruct (streams w !! controller client) as [st|] eqn:Hst; [|done].
  rewrite Hw. simpl. unfold with_streams; simpl. by rewrite Hst.
Qed.

(** The event has no frame: [formatEvent] throws inside the [try], and the
    handler disconnects the client, whose stream is in order. *)
Lemma sendToClient_unframed w clientId client event e now :
  JsMap.get clientId (clients w) = Some client ->
  formatEvent event = Throw e ->
  writable w (controller client) = true ->
  sendToClient clientId event now w
  = (Normal false, removed clientId (controller client) w).
Proof.
  intros Hget Hframe Hw. unfold sendToClient, bind, gets, lift. rewrite Hget.
  unfold try_catch. rewrite Hframe.
  by rewrite (disconnectClient_writable w clientId client Hget Hw).
Qed.

Lemma sendToClient_unwritable w clientId client event now :
  JsMap.get clientId (clients w) = Some client ->
  writable w (controller client) = false ->
  sendToClient clientId event now w = (Normal false, w).
Proof.
  intros Hget Hw. unfold sendToClient, bind, gets, lift. rewrite Hget.
  unfold try_catch, enqueue.
  pose proof (disconnectClient_unwritable w clientId client Hget Hw) as Hd.
  destruct (formatEvent event) as [frame|e]; [|by rewrite Hd].
  unfold writable in Hw.
  destruct (streams w !! controller client) as [st|] eqn:Hst.
  - rewrite Hw. simpl. by rewrite Hd.
  - simpl. by rewrite Hd.
Qed.

(** ** The wire format *)

Section Strings.
Implicit Types s t u : string.

Lemma string_app_nil_l s : "" ++ s = s.
Proof. reflexivity. Qed.

Lemma string_app_cons c s t : String c s ++ t = String c (s ++ t).
Proof. reflexivity. Qed.

Lemma string_app_assoc s t u : (s ++ t) ++ u = s ++ (t ++ u).
Proof.
  induction s as [|c s IH]; [done|].
  rewrite !string_app_cons. by f_equal.
Qed.

Lemma string_app_nil_r s : s ++ "" = s.
Proof.
  induction s as [|c s IH]; [done|].
  rewrite string_app_cons. by f_equal.
Qed.
End Strings.

Lemma split_nl_nonempty s : split_nl s <> [].
Proof.
  destruct s as [|c r]; simpl; [done|].
  destruct (Ascii.eqb c nl_char); [done|].
  by destruct (split_nl r).
Qed.

(** Joining the segments with newlines gives the text back. *)
Lemma join_split_nl s : join nl (split_nl s) = s.
Proof.
  unfold join. induction s as [|c r IH]; simpl; [done|].
  destruct (Ascii.eqb c nl_char) eqn:E.
  - apply Ascii.eqb_eq in E as ->.
    pose proof (split_nl_nonempty r) as Hne.
    destruct (split_nl r) as [|seg segs] eqn:Hs; [done|].
    change (String.concat nl ("" :: seg :: segs)) with (nl ++ String.concat nl (seg :: segs)).
    by rewrite IH.
  - pose proof (split_nl_nonempty r) as Hne.
    destruct (split_nl r) as [|seg segs] eqn:Hs; [done|].
    destruct segs as [|seg' segs]; simpl in *; by rewrite <- IH.
Qed.

(** No segment contains a newline. *)
Lemma split_nl_no_newline s :
  Forall (fun seg => ~ In nl_char (list_ascii_of_string seg)) (split_nl s).
Proof.
  induction s as [|c r IH]; simpl.
  - constructor; [simpl; tauto | constructor].
  - destruct (Ascii.eqb c nl_char) eqn:E.
    + constructor; [simpl; tauto | done].
    + apply Ascii.eqb_neq in E.
      destruct (split_nl r) as [|seg segs].
      * constructor; [|constructor]. simpl. intros [H|[]]. by apply E.
      * inversion IH as [|? ? Hseg Hsegs]; subst.
        constructor; [|done]. simpl. intros [H|H]; [by apply E | by apply Hseg].
Qed.

Lemma join_data_lines (segs : list string) :
  segs <> [] ->
  join nl (List.map (fun line => "data: " ++ line) segs) ++ nl ++ nl
  = data_lines segs ++ nl.
Proof.
  unfold join. induction segs as [|seg segs IH]; [done|]. intros _.
  destruct segs as [|seg' segs].
  - simpl. by rewrite ?string_app_assoc, string_app_nil_l.
  - change (String.concat nl (List.map (fun line => "data: " ++ line) (seg :: seg' :: segs)))
      with (("data: " ++ seg) ++ nl
            ++ String.concat nl (List.map (fun line => "data: " ++ line) (seg' :: segs))).
    change (data_lines (seg :: seg' :: segs))
      with (("data: " ++ seg ++ nl) ++ data_lines (seg' :: segs)).
    rewrite !string_app_assoc. by rewrite <- IH.
Qed.

(** [formatEvent] gives the frame of the payload's text, and throws when
    the payload has none. *)
Lemma formatEvent_payload (e : SSEEvent) :
  formatEvent e
  = match payload_text (ev_data e) with
    | Normal (Some text) => Normal (frame_truthy e text)
    | Normal None => Throw NoSplit
    | Throw x => Throw x
    end.
Proof.
  destruct e as [label data i r].
  unfold formatEvent, frame_truthy, truthy_string, truthy_number.
  cbn [ev_id ev_event ev_retry ev_data].
  fold (payload_text data).
  destruct (payload_text data) as [[text|]|x]; [|done..]. f_equal.
  rewrite join_data_lines by apply split_nl_nonempty.
  generalize (data_lines (split_nl text)). intros lines.
  destruct i as [i|], r as [r|]; cbn [from_option negb]; unfold Datatypes.id;
    repeat match goal with
           | |- context [String.eqb ?a ""] => destruct (String.eqb a ""); cbn [negb]
           | |- context [?a =? 0] => destruct (a =? 0); cbn [negb]
           end;
    by rewrite ?string_app_assoc, ?string_app_nil_l.
Qed.

Lemma formatEvent_frame_truthy (e : SSEEvent) (text : string) :
  has_text (ev_data e) text -> formatEvent e = Normal (frame_truthy e text).
Proof. unfold has_text. intros H. by rewrite formatEvent_payload, H. Qed.

Lemma frameOf_Normal (e : SSEEvent) (frame : string) :
  formatEvent e = Normal frame -> frameOf e = frame.
Proof. unfold frameOf. by intros ->. Qed.

(** The two synthetic events always have a frame. *)
Lemma formatEvent_heartbeat (now : Z) :
  formatEvent (heartbeat now) = Normal (frameOf (heartbeat now)).
Proof. reflexivity. Qed.

Lemma formatEvent_connected (clientId : string) (now : Z) :
  formatEvent (connectedEvent clientId now) = Normal (frameOf (connectedEvent clientId now)).
Proof. reflexivity. Qed.

(** ** Filter resolution *)

Lemma strict_eq_true a b : strict_eq a b = true <-> a = b.
Proof.
  destruct a as [x|], b as [y|]; simpl; try (split; congruence).
  rewrite String.eqb_eq. split; congruence.
Qed.

Lemma includes_true (x : string) (xs : list string) :
  existsb (String.eqb x) xs = true <-> In x xs.
Proof.
  rewrite existsb_exists. split.
  - intros (y & Hy & E). apply String.eqb_eq in E. by subst.
  - intros H. exists x. split; [done | apply String.eqb_refl].
Qed.

Lemma every_entry_true (c : SSEClient) (fm : gmap string string) :
  forallb (fun kv => strict_eq (metadata_get c (fst kv)) (Some (snd kv))) (map_to_list fm) = true
  <-> forall k v, fm !! k = Some v -> metadata_get c k = Some v.
Proof.
  rewrite forallb_forall. split.
  - intros H k v Hkv. apply strict_eq_true.
    apply (H (k, v)). apply list_elem_of_In. by apply elem_of_map_to_list.
  - intros H [k v] Hin. apply strict_eq_true. simpl. apply H.
    apply elem_of_map_to_list. by apply list_elem_of_In.
Qed.

Lemma truthy_string_Some u : truthy_string (Some u) = true <-> u <> "".
Proof.
  simpl. destruct (String.eqb u "") eqn:E; simpl.
  - apply String.eqb_eq in E. split; [done | congruence].
  - apply String.eqb_neq in E. done.
Qed.

Lemma selects_matches_truthy (f : ClientFilter) (c : SSEClient) :
  selects f c = true <-> matches_truthy f c.
Proof.
  unfold selects, matches_truthy.
  destruct f as [fu fs fids fm]; cbn [f_userId f_sessionId f_clientIds f_metadata].
  assert (Hstr : forall (o co : option string),
             (truthy_string o && negb (strict_eq co o) = false)
             <-> match o with None => True | Some u => u = "" \/ co = Some u end).
  { intros [u|] co; [|done].
    destruct (String.eqb u "") eqn:E; simpl; rewrite E; simpl.
    - apply String.eqb_eq in E. tauto.
    - apply String.eqb_neq in E.
      rewrite negb_false_iff, strict_eq_true. split; [tauto | intros [?|?]; done]. }
  assert (Hids : (match fids with
                  | Some ids => negb (existsb (String.eqb (id c)) ids)
                  | None => false end = false)
                 <-> match fids with None => True | Some ids => In (id c) ids end).
  { destruct fids as [ids|]; [|done]. by rewrite negb_false_iff, includes_true. }
  assert (Hmeta : (match fm with
                   | Some fm => negb (forallb (fun kv => strict_eq (metadata_get c (fst kv)) (Some (snd kv))) (map_to_list fm))
                   | None => false end = false)
                  <-> match fm with
                      | None => True
                      | Some fm => forall k v, fm !! k = Some v -> metadata_get c k = Some v
                      end).
  { destruct fm as [fm|]; [|done]. by rewrite negb_false_iff, every_entry_true. }
  rewrite <- Hids, <- (Hstr fu), <- (Hstr fs), <- Hmeta.
  repeat match goal with
         | |- context [if ?b then false else _] => destruct b
         end; intuition congruence.
Qed.

(** ** What one delivery and one removal change *)

Lemma writable_delivered w ref chunk now r :
  writable (delivered ref chunk now w) r = writable w r.
Proof.
  unfold writable, delivered. simpl.
  destruct (streams w !! ref) as [st|] eqn:Hst; [|done].
  destruct (decide (r = ref)) as [->|Hne].
  - rewrite list_lookup_insert_eq by (by eapply lookup_lt_Some). by rewrite Hst.
  - by rewrite list_lookup_insert_ne.
Qed.

Lemma writable_removed_same w clientId ref :
  writable (removed clientId ref w) ref = false.
Proof.
  unfold writable, removed. simpl.
  destruct (streams w !! ref) as [st|] eqn:Hst.
  - by rewrite list_lookup_insert_eq by (by eapply lookup_lt_Some).
  - by rewrite Hst.
Qed.

Lemma writable_removed_other w clientId ref r :
  r <> ref -> writable (removed clientId ref w) r = writable w r.
Proof.
  intros Hne. unfold writable, removed. simpl.
  destruct (streams w !! ref) as [st|] eqn:Hst; [|done].
  by rewrite list_lookup_insert_ne.
Qed.

Lemma writable_removed_false w clientId ref r :
  writable w r = false -> writable (removed clientId ref w) r = false.
Proof.
  intros H. destruct (decide (r = ref)) as [->|Hne].
  - apply writable_removed_same.
  - by rewrite writable_removed_other.
Qed.

Lemma clients_with_clients f w : clients (with_clients f w) = f (clients w).
Proof. reflexivity. Qed.

Lemma writable_with_clients f w r : writable (with_clients f w) r = writable w r.
Proof. reflexivity. Qed.

Lemma clients_delivered ref chunk now w : clients (delivered ref chunk now w) = clients w.
Proof. reflexivity. Qed.

Lemma clients_removed clientId ref w :
  clients (removed clientId ref w) = JsMap.delete clientId (clients w).
Proof. reflexivity. Qed.

(** A send of an event that has a frame either delivers or leaves the
    world as it was: when the write fails, the [close] of the same
    controller fails too. *)
Lemma sendToClient_framed_cases w clientId event frame now :
  formatEvent event = Normal frame ->
  (exists client,
      JsMap.get clientId (clients w) = Some client
      /\ writable w (controller client) = true
      /\ sendToClient clientId event now w
         = (Normal true, delivered (controller client) frame now w))
  \/ sendToClient clientId event now w = (Normal false, w).
Proof.
  intros Hframe.
  destruct (JsMap.get clientId (clients w)) as [client|] eqn:Hget.
  - destruct (writable w (controller client)) eqn:Hw.
    + left. exists client. by rewrite (sendToClient_writable w clientId client event frame).
    + right. by apply (sendToClient_unwritable w clientId client).
  - right. by apply sendToClient_absent.
Qed.

(** A send of any event delivers, or removes the client (the event has no
    frame and the stream is in order), or leaves the world as it was. *)
Lemma sendToClient_cases w clientId event now :
  (exists client frame,
      JsMap.get clientId (clients w) = Some client
      /\ writable w (controller client) = true
      /\ sendToClient clientId event now w
         = (Normal true, delivered (controller client) frame now w))
  \/ (exists client,
         JsMap.get clientId (clients w) = Some client
         /\ writable w (controller client) = true
         /\ sendToClient clientId event now w
            = (Normal false, removed clientId (controller client) w))
  \/ sendToClient clientId event now w = (Normal false, w).
Proof.
  destruct (formatEvent event) as [frame|e] eqn:Hframe.
  - destruct (sendToClient_framed_cases w clientId event frame now Hframe)
      as [(client & Hget & Hw & E)|E]; [|by right; right].
    left. by exists client, frame.
  - destruct (JsMap.get clientId (clients w)) as [client|] eqn:Hget.
    + destruct (writable w (controller client)) eqn:Hw.
      * right. left. exists client.
        by rewrite (sendToClient_unframed w clientId client event e).
      * right. right. by apply (sendToClient_unwritable w clientId client).
    + right. right. by apply sendToClient_absent.
Qed.

Lemma disconnectClient_cases w clientId :
  (exists client,
      JsMap.get clientId (clients w) = Some client
      /\ writable w (controller client) = true
      /\ disconnectClient clientId w = (Normal true, removed clientId (controller client) w))
  \/ disconnectClient clientId w = (Normal false, w).
Proof.
  destruct (JsMap.get clientId (clients w)) as [client|] eqn:Hget.
  - destruct (writable w (controller client)) eqn:Hw.
    + left. exists client. by rewrite (disconnectClient_writable w clientId client).
    + right. by apply (disconnectClient_unwritable w clientId client).
  - right. by apply disconnectClient_absent.
Qed.

(** ** Loops *)

Lemma for_each_normal {A} (xs : list A) (body : A -> M unit) :
  (forall x w, eval (body x) w = Normal tt) ->
  forall w, for_each xs body w
            = (Normal tt, fold_left (fun w x => exec (body x) w) xs w).
Proof.
  intros Hbody. induction xs as [|x xs IH]; intros w; [done|].
  simpl. unfold bind. specialize (Hbody x w). unfold eval, exec in *.
  destruct (body x w) as [r w1]. simpl in *. subst r. apply IH.
Qed.

Lemma fold_left_fixed {A B} (f : B -> A -> B) (xs : list A) (b : B) :
  (forall x, f b x = b) -> fold_left f xs b = b.
Proof. intros H. induction xs as [|x xs IH]; simpl; [done|]. by rewrite H. Qed.

Lemma fold_left_invariant {A} (I : World -> Prop) (step : World -> A -> World) (xs : list A) :
  (forall x w, In x xs -> I w -> I (step w x)) ->
  forall w, I w -> I (fold_left step xs w).
Proof.
  induction xs as [|x xs IH]; intros Hstep w Hw; [done|].
  simpl. apply IH.
  - intros y w' Hy. apply Hstep. by right.
  - apply Hstep; [by left | done].
Qed.

Lemma fold_left_ext {A B} (f g : B -> A -> B) (xs : list A) :
  (forall b x, f b x = g b x) -> forall b, fold_left f xs b = fold_left g xs b.
Proof.
  intros Hfg. induction xs as [|x xs IH]; intros b; [done|].
  simpl. by rewrite Hfg, IH.
Qed.

Lemma sendToClient_total w clientId event now :
  exists b w', sendToClient clientId event now w = (Normal b, w').
Proof.
  destruct (sendToClient_cases w clientId event now)
    as [(c & frame & _ & _ & ->)|[(c & _ & _ & ->)| ->]]; eauto.
Qed.

Lemma disconnectClient_total w clientId :
  exists b w', disconnectClient clientId w = (Normal b, w').
Proof. destruct (disconnectClient_cases w clientId) as [(c & _ & _ & ->)| ->]; eauto. Qed.

Lemma for_of_map_normal (body : string -> SSEClient -> M unit) :
  (forall k c w, eval (body k c) w = Normal tt) ->
  forall w, for_of_map body w
            = (Normal tt,
               fold_left (fun w k => match JsMap.get k (clients w) with
                                     | Some client => exec (body k client) w
                                     | None => w
                                     end) (JsMap.keys (clients w)) w).
Proof.
  intros Hbody w. unfold for_of_map, bind, gets.
  rewrite for_each_normal.
  - f_equal. apply fold_left_ext. intros w' k. unfold exec.
    by destruct (JsMap.get k (clients w')).
  - intros k w'. unfold eval. destruct (JsMap.get k (clients w')) as [c|]; [apply Hbody | done].
Qed.

Lemma cleanupStaleClients_sweep now w :
  cleanupStaleClients now w = (Normal tt, sweep_all now w).
Proof.
  unfold cleanupStaleClients. rewrite for_of_map_normal.
  - f_equal. apply fold_left_ext. intros w' k. unfold sweep_step.
    destruct (JsMap.get k (clients w')) as [c|]; [|done].
    unfold exec, bind, gets, ret.
    destruct (cfg_clientTimeout (config w') <? now - lastPing c); [|done].
    by destruct (disconnectClient_total w' k) as (b & w'' & ->).
  - intros k c w'. unfold eval, bind, gets, ret.
    destruct (cfg_clientTimeout (config w') <? now - lastPing c); [|done].
    by destruct (disconnectClient_total w' k) as (b & w'' & ->).
Qed.

Lemma pingTick_steps now now' w :
  pingTick now now' w = (Normal tt, sweep_all now' (ping_all now w)).
Proof.
  unfold pingTick, bind. rewrite for_of_map_normal.
  - rewrite cleanupStaleClients_sweep. f_equal. f_equal.
    apply fold_left_ext. intros w' k. unfold ping_step.
    destruct (JsMap.get k (clients w')) as [c|]; [|done].
    unfold exec, bind, modify, ret.
    destruct (sendToClient_total w' (id c) (heartbeat now) now) as (b & w'' & ->).
    by destruct b.
  - intros k c w'. unfold eval, bind, modify, ret.
    destruct (sendToClient_total w' (id c) (heartbeat now) now) as (b & w'' & ->).
    by destruct b.
Qed.

Lemma destroy_steps w :
  destroy w
  = (Normal tt,
     let w1 := match pingInterval w with
               | Some h => with_timers (List.filter (fun h' => negb (h' =? h)%nat)) w
               | None => w
               end in
     with_clients JsMap.clear (fold_left destroy_step (JsMap.keys (clients w1)) w1)).
Proof.
  unfold destroy, bind, gets.
  assert (Hclear : exists w1,
             w1 = match pingInterval w with
                  | Some h => with_timers (List.filter (fun h' => negb (h' =? h)%nat)) w
                  | None => w end
             /\ match pingInterval w with
                | Some h => clearInterval h
                | None => ret tt
                end w = (Normal tt, w1)).
  { destruct (pingInterval w); eexists; split; reflexivity. }
  destruct Hclear as (w1 & Hw1 & ->). simpl. rewrite <- Hw1.
  rewrite for_of_map_normal.
  - unfold modify. f_equal. f_equal.
    apply fold_left_ext. intros w' k. unfold destroy_step.
    destruct (JsMap.get k (clients w')) as [c|]; [|done].
    unfold exec, bind, ret.
    by destruct (disconnectClient_total w' k) as (b & w'' & ->).
  - intros k c w'. unfold eval, bind, ret.
    by destruct (disconnectClient_total w' k) as (b & w'' & ->).
Qed.

(** ** The ping loop *)

Lemma ping_step_cases now w key :
  (exists c c',
      JsMap.get key (clients w) = Some c
      /\ JsMap.get (id c) (clients w) = Some c'
      /\ writable w (controller c') = true
      /\ ping_step now w key
         = with_clients (JsMap.set key (set_lastPing now c))
             (delivered (controller c') (frameOf (heartbeat now)) now w))
  \/ ping_step now w key = w.
Proof.
  unfold ping_step. destruct (JsMap.get key (clients w)) as [c|] eqn:Hget; [|by right].
  destruct (sendToClient_framed_cases w (id c) (heartbeat now) _ now (formatEvent_heartbeat now))
    as [(c' & Hc' & Hw & ->)| ->].
  - left. by exists c, c'.
  - by right.
Qed.

Lemma ping_step_connected now k0 w key :
  connected k0 w -> connected k0 (ping_step now w key).
Proof.
  intros (c0 & Hget0 & Hid0 & Hw0).
  destruct (ping_step_cases now w key) as [(c & c' & Hget & Hget' & Hw & ->)| ->];
    [|by exists c0].
  unfold connected.
  rewrite clients_with_clients, clients_delivered.
  destruct (decide (k0 = key)) as [->|Hne].
  - exists (set_lastPing now c). rewrite get_set_eq.
    rewrite Hget in Hget0. injection Hget0 as ->.
    by rewrite writable_with_clients, writable_delivered.
  - exists c0. rewrite get_set_ne by done.
    by rewrite writable_with_clients, writable_delivered.
Qed.

Lemma ping_step_counter_mono now w key :
  (totalEventsSent w <= totalEventsSent (ping_step now w key))%nat.
Proof.
  destruct (ping_step_cases now w key) as [(c & c' & _ & _ & _ & ->)| ->]; simpl; lia.
Qed.

Lemma ping_step_last_kept now w key :
  lastEventTime w = Some now -> lastEventTime (ping_step now w key) = Some now.
Proof.
  intros H. by destruct (ping_step_cases now w key) as [(c & c' & _ & _ & _ & ->)| ->].
Qed.

(** The round of a connected client delivers the ping to it. *)
Lemma ping_step_hit now k0 w :
  connected k0 w ->
  totalEventsSent (ping_step now w k0) = S (totalEventsSent w)
  /\ lastEventTime (ping_step now w k0) = Some now
  /\ exists c, JsMap.get k0 (clients (ping_step now w k0)) = Some c /\ lastPing c = now.
Proof.
  intros (c0 & Hget0 & Hid0 & Hw0). unfold ping_step. rewrite Hget0, Hid0.
  rewrite (sendToClient_writable w k0 c0 _ (frameOf (heartbeat now))) by done. simpl.
  repeat split. exists (set_lastPing now c0). by rewrite get_set_eq.
Qed.

Lemma ping_step_refreshed now k0 w key :
  (exists c, JsMap.get k0 (clients w) = Some c /\ lastPing c = now) ->
  exists c, JsMap.get k0 (clients (ping_step now w key)) = Some c /\ lastPing c = now.
Proof.
  intros (c0 & Hget0 & Hping).
  destruct (ping_step_cases now w key) as [(c & c' & Hget & _ & _ & ->)| ->];
    [|by exists c0].
  rewrite clients_with_clients, clients_delivered.
  destruct (decide (k0 = key)) as [->|Hne].
  - rewrite get_set_eq. by eexists.
  - rewrite get_set_ne by done. by exists c0.
Qed.

Lemma ping_fold_progress now k0 (ks : list string) :
  forall w,
    connected k0 w ->
    let w' := fold_left (ping_step now) ks w in
    connected k0 w'
    /\ (totalEventsSent w <= totalEventsSent w')%nat
    /\ (lastEventTime w = Some now -> lastEventTime w' = Some now)
    /\ ((exists c, JsMap.get k0 (clients w) = Some c /\ lastPing c = now) ->
        exists c, JsMap.get k0 (clients w') = Some c /\ lastPing c = now)
    /\ (In k0 ks ->
        (totalEventsSent w < totalEventsSent w')%nat
        /\ lastEventTime w' = Some now
        /\ exists c, JsMap.get k0 (clients w') = Some c /\ lastPing c = now).
Proof.
  induction ks as [|k ks IH]; intros w Hc; simpl.
  - split; [done|]. split; [lia|]. split; [done|]. split; [done|]. intros [].
  - pose proof (ping_step_connected now k0 w k Hc) as Hc1.
    destruct (IH _ Hc1) as (IHc & IHtot & IHlast & IHref & IHhit).
    pose proof (ping_step_counter_mono now w k) as Hmono.
    split; [done|]. split; [lia|].
    split; [intros H; apply IHlast; by apply ping_step_last_kept|].
    split; [intros H; apply IHref; by apply ping_step_refreshed|].
    intros [->|Hin].
    + destruct (ping_step_hit now k0 w Hc) as (Htot & Hlast & Href).
      split; [lia|]. split; [by apply IHlast | by apply IHref].
    + destruct (IHhit Hin) as (Htot & Hlast & Href).
      split; [lia|]. done.
Qed.

Lemma connected_key k w : connected k w -> In k (JsMap.keys (clients w)).
Proof. intros (c & Hget & _). by eapply get_Some_key. Qed.

(** ** The sweep *)

Lemma sweep_step_cases now w key :
  (exists c,
      JsMap.get key (clients w) = Some c
      /\ stale w now c
      /\ writable w (controller c) = true
      /\ sweep_step now w key = removed key (controller c) w)
  \/ sweep_step now w key = w.
Proof.
  unfold sweep_step, stale.
  destruct (JsMap.get key (clients w)) as [c|] eqn:Hget; [|by right].
  destruct (cfg_clientTimeout (config w) <? now - lastPing c) eqn:Hstale; [|by right].
  apply Z.ltb_lt in Hstale. unfold exec.
  destruct (disconnectClient_cases w key) as [(c' & Hget' & Hw & ->)| ->]; [|by right].
  left. exists c. rewrite Hget in Hget'. injection Hget' as <-. done.
Qed.

Lemma sweep_step_counters now w key :
  totalEventsSent (sweep_step now w key) = totalEventsSent w
  /\ lastEventTime (sweep_step now w key) = lastEventTime w
  /\ config (sweep_step now w key) = config w.
Proof. by destruct (sweep_step_cases now w key) as [(c & _ & _ & _ & ->)| ->]. Qed.

Lemma sweep_all_counters now w :
  totalEventsSent (sweep_all now w) = totalEventsSent w
  /\ lastEventTime (sweep_all now w) = lastEventTime w
  /\ config (sweep_all now w) = config w.
Proof.
  unfold sweep_all.
  apply (fold_left_invariant
           (fun w' => totalEventsSent w' = totalEventsSent w
                      /\ lastEventTime w' = lastEventTime w
                      /\ config w' = config w)); [|done].
  intros k w' _ (H1 & H2 & H3).
  destruct (sweep_step_counters now w' k) as (-> & -> & ->). done.
Qed.

(** A client whose stream is closed already is beyond the reach of both
    loops of the tick. *)
Lemma ping_step_stranded now k0 c0 w key :
  stranded k0 c0 w -> stranded k0 c0 (ping_step now w key).
Proof.
  intros (Hget0 & Hid0 & Hw0).
  destruct (ping_step_cases now w key) as [(c & c' & Hget & Hget' & Hw & ->)| ->]; [|done].
  unfold stranded.
  rewrite clients_with_clients, clients_delivered, writable_with_clients, writable_delivered.
  destruct (decide (k0 = key)) as [->|Hne].
  - rewrite Hget in Hget0. injection Hget0 as ->.
    rewrite Hid0, Hget in Hget'. injection Hget' as <-. congruence.
  - by rewrite get_set_ne.
Qed.

Lemma sweep_step_stranded now k0 c0 w key :
  stranded k0 c0 w -> stranded k0 c0 (sweep_step now w key).
Proof.
  intros (Hget0 & Hid0 & Hw0).
  destruct (sweep_step_cases now w key) as [(c & Hget & _ & Hw & ->)| ->]; [|done].
  unfold stranded.
  destruct (decide (k0 = key)) as [->|Hne].
  - rewrite Hget in Hget0. injection Hget0 as ->. congruence.
  - split; [|split; [done|by apply writable_removed_false]].
    rewrite clients_removed. by rewrite get_delete_ne.
Qed.

Lemma pingTick_stranded now now' k0 c0 w :
  stranded k0 c0 w -> stranded k0 c0 (exec (pingTick now now') w).
Proof.
  intros H. unfold exec. rewrite pingTick_steps. simpl.
  unfold sweep_all, ping_all.
  apply fold_left_invariant; [intros; by apply sweep_step_stranded|].
  apply fold_left_invariant; [intros; by apply ping_step_stranded|done].
Qed.

(** A client that is not stale is passed over by the sweep. *)
Lemma sweep_step_fresh now k0 c0 w key :
  JsMap.get k0 (clients w) = Some c0 /\ ~ stale w now c0 ->
  JsMap.get k0 (clients (sweep_step now w key)) = Some c0
  /\ ~ stale (sweep_step now w key) now c0.
Proof.
  intros (Hget0 & Hfresh).
  destruct (sweep_step_cases now w key) as [(c & Hget & Hstale & _ & ->)| ->]; [|done].
  destruct (decide (k0 = key)) as [->|Hne].
  - rewrite Hget in Hget0. injection Hget0 as ->. done.
  - split; [|done]. rewrite clients_removed. by rewrite get_delete_ne.
Qed.

Lemma cleanupStaleClients_keeps_fresh now k0 c0 w :
  JsMap.get k0 (clients w) = Some c0 ->
  ~ stale w now c0 ->
  JsMap.get k0 (clients (exec (cleanupStaleClients now) w)) = Some c0.
Proof.
  intros Hget Hfresh. unfold exec. rewrite cleanupStaleClients_sweep. simpl.
  unfold sweep_all.
  apply (fold_left_invariant
           (fun w' => JsMap.get k0 (clients w') = Some c0 /\ ~ stale w' now c0)); [|done].
  intros k w' _ H. by apply sweep_step_fresh.
Qed.

(** ** Registration *)

Lemma createConnection_full options rnd now w :
  (maxClients (config w) <= JsMap.size (clients w))%nat ->
  createConnection options rnd now w = (Throw CapacityExceeded, w).
Proof.
  intros H. unfold createConnection, bind, gets.
  apply Nat.leb_le in H. by rewrite H.
Qed.

Lemma createConnection_ok options rnd now w :
  (JsMap.size (clients w) < maxClients (config w))%nat ->
  createConnection options rnd now w
  = (Normal (mkResponse (length (streams w)) sseHeaders), registered options rnd now w).
Proof.
  intros H. unfold createConnection, bind, gets.
  apply Nat.leb_gt in H. rewrite H.
  unfold newReadableStream, modify.
  set (client := newClient options rnd now w).
  set (w2 := with_clients (JsMap.set (id client) client)
               (with_streams (fun h => (h ++ [mkStream true [] (id client)])%list) w)).
  change (match sendToClient (id client) (connectedEvent (id client) (connectedAt client)) now w2 with
          | (Normal _, w') => ret (mkResponse (length (streams w)) sseHeaders) w'
          | (Throw e, w') => (Throw e, w')
          end
          = (Normal (mkResponse (length (streams w)) sseHeaders), registered options rnd now w)).
  rewrite (sendToClient_writable w2 (id client) client _
             (frameOf (connectedEvent (id client) (connectedAt client)))).
  - done.
  - unfold w2. rewrite clients_with_clients. apply get_set_eq.
  - apply formatEvent_connected.
  - unfold w2, writable. simpl. by rewrite list_lookup_middle.
Qed.

Lemma registered_size options rnd now w :
  (JsMap.size (clients (registered options rnd now w)) <= S (JsMap.size (clients w)))%nat.
Proof. unfold registered. rewrite clients_delivered, clients_with_clients. apply size_set_le. Qed.

Lemma registered_config options rnd now w :
  config (registered options rnd now w) = config w.
Proof. reflexivity. Qed.

Lemma register_bound r w :
  (JsMap.size (clients w) <= maxClients (config w))%nat ->
  config (exec (register r) w) = config w
  /\ (JsMap.size (clients (exec (register r) w)) <= maxClients (config w))%nat.
Proof.
  intros Hle. unfold register, exec.
  destruct (Nat.lt_ge_cases (JsMap.size (clients w)) (maxClients (config w))) as [Hlt|Hge].
  - rewrite createConnection_ok by done. cbn [snd]. split; [done|].
    pose proof (registered_size (r_options r) (r_rnd r) (r_now r) w). lia.
  - by rewrite createConnection_full.
Qed.

Lemma registerAll_bound rs :
  forall w,
    (JsMap.size (clients w) <= maxClients (config w))%nat ->
    config (registerAll rs w) = config w
    /\ (JsMap.size (clients (registerAll rs w)) <= maxClients (config w))%nat.
Proof.
  induction rs as [|r rs IH]; intros w Hle; [done|].
  simpl. destruct (register_bound r w Hle) as (Hcfg & Hsize).
  rewrite <- Hcfg in Hsize. destruct (IH _ Hsize) as (Hcfg' & Hsize').
  rewrite Hcfg' , Hcfg in *. done.
Qed.

(** ** Teardown *)

Lemma destroy_step_cases w key :
  (exists c,
      JsMap.get key (clients w) = Some c
      /\ writable w (controller c) = true
      /\ destroy_step w key = removed key (controller c) w)
  \/ destroy_step w key = w.
Proof.
  unfold destroy_step.
  destruct (JsMap.get key (clients w)) as [c|] eqn:Hget; [|by right].
  unfold exec.
  destruct (disconnectClient_cases w key) as [(c' & Hget' & Hw & ->)| ->]; [|by right].
  left. exists c'. by rewrite Hget in Hget'.
Qed.

Lemma destroy_step_frame w key :
  pingInterval (destroy_step w key) = pingInterval w
  /\ timers (destroy_step w key) = timers w
  /\ totalEventsSent (destroy_step w key) = totalEventsSent w
  /\ lastEventTime (destroy_step w key) = lastEventTime w
  /\ config (destroy_step w key) = config w.
Proof. by destruct (destroy_step_cases w key) as [(c & _ & _ & ->)| ->]. Qed.

Lemma destroy_step_closed w key r :
  writable w r = false -> writable (destroy_step w key) r = false.
Proof.
  intros H. destruct (destroy_step_cases w key) as [(c & _ & _ & ->)| ->]; [|done].
  by apply writable_removed_false.
Qed.

(** Until its round comes a client stays in the registry, unless its
    stream is closed already; after its round its stream is closed. *)
Lemma destroy_step_pending k0 c0 w key :
  JsMap.get k0 (clients w) = Some c0 \/ writable w (controller c0) = false ->
  (JsMap.get k0 (clients (destroy_step w key)) = Some c0
   \/ writable (destroy_step w key) (controller c0) = false)
  /\ (key = k0 -> writable (destroy_step w key) (controller c0) = false).
Proof.
  intros [Hget0|Hclosed].
  - destruct (decide (key = k0)) as [->|Hne].
    + assert (writable (destroy_step w k0) (controller c0) = false) as Hc; [|by split; [right|]].
      unfold destroy_step. rewrite Hget0. unfold exec.
      destruct (writable w (controller c0)) eqn:Hw.
      * rewrite (disconnectClient_writable w k0 c0) by done.
        apply writable_removed_same.
      * by rewrite (disconnectClient_unwritable w k0 c0).
    + split; [|done]. left.
      destruct (destroy_step_cases w key) as [(c & _ & _ & ->)| ->]; [|done].
      rewrite clients_removed. by rewrite get_delete_ne.
  - pose proof (destroy_step_closed w key _ Hclosed). by split; [right|].
Qed.

Lemma destroy_fold_releases k0 c0 (ks : list string) :
  forall w,
    JsMap.get k0 (clients w) = Some c0 \/ writable w (controller c0) = false ->
    let w' := fold_left destroy_step ks w in
    (JsMap.get k0 (clients w') = Some c0 \/ writable w' (controller c0) = false)
    /\ (In k0 ks -> writable w' (controller c0) = false).
Proof.
  induction ks as [|k ks IH]; intros w H; simpl; [by split|].
  destruct (destroy_step_pending k0 c0 w k H) as (H1 & Hhit).
  destruct (IH _ H1) as (IH1 & IH2). split; [done|].
  intros [->|Hin]; [|by apply IH2].
  apply (fold_left_invariant (fun w' => writable w' (controller c0) = false)).
  - intros x w' _. apply destroy_step_closed.
  - by apply Hhit.
Qed.

Lemma destroy_fold_frame (ks : list string) w :
  pingInterval (fold_left destroy_step ks w) = pingInterval w
  /\ timers (fold_left destroy_step ks w) = timers w
  /\ totalEventsSent (fold_left destroy_step ks w) = totalEventsSent w
  /\ lastEventTime (fold_left destroy_step ks w) = lastEventTime w
  /\ config (fold_left destroy_step ks w) = config w.
Proof.
  apply (fold_left_invariant
           (fun w' => pingInterval w' = pingInterval w
                      /\ timers w' = timers w
                      /\ totalEventsSent w' = totalEventsSent w
                      /\ lastEventTime w' = lastEventTime w
                      /\ config w' = config w)); [|done].
  intros k w' _ (H1 & H2 & H3 & H4 & H5).
  destruct (destroy_step_frame w' k) as (-> & -> & -> & -> & ->). done.
Qed.

Lemma cleared_not_armed (h : nat) (ts : list nat) :
  existsb (Nat.eqb h) (List.filter (fun h' => negb (h' =? h)%nat) ts) = false.
Proof.
  induction ts as [|t ts IH]; [done|]. simpl.
  destruct (t =? h)%nat eqn:E; simpl; [done|].
  rewrite Nat.eqb_sym, E. done.
Qed.



Lemma destroy_releases w k c :
  JsMap.get k (clients w) = Some c ->
  writable (exec destroy w) (controller c) = false.
Proof.
  intros Hget. unfold exec. rewrite destroy_steps. cbn [snd].
  rewrite writable_with_clients.
  set (w1 := match pingInterval w with
             | Some h => with_timers (List.filter (fun h' => negb (h' =? h)%nat)) w
             | None => w
             end).
  assert (Hc : clients w1 = clients w) by (unfold w1; by destruct (pingInterval w)).
  apply (destroy_fold_releases k c).
  - left. by rewrite Hc.
  - rewrite Hc. by eapply get_Some_key.
Qed.








(** ** Delivery to many clients *)

Lemma streams_delivered_same ref chunk now w :
  streams (delivered ref chunk now w) !! ref = push_chunk chunk <$> streams w !! ref.
Proof.
  unfold delivered. simpl.
  destruct (streams w !! ref) as [st|] eqn:Hst.
  - by rewrite list_lookup_insert_eq by (by eapply lookup_lt_Some).
  - by rewrite Hst.
Qed.

Lemma streams_delivered_other ref chunk now w r :
  r <> ref -> streams (delivered ref chunk now w) !! r = streams w !! r.
Proof.
  intros Hne. unfold delivered. simpl.
  destruct (streams w !! ref) as [st|] eqn:Hst; [|done].
  by rewrite list_lookup_insert_ne.
Qed.

Lemma get_Some_In {V} (k : string) (v : V) (m : list (string * V)) :
  JsMap.get k m = Some v -> In (k, v) m.
Proof.
  induction m as [|[k' v'] m IH]; simpl; [done|].
  destruct (String.eqb k k') eqn:E.
  - apply String.eqb_eq in E as ->. intros [= ->]. by left.
  - intros H. right. by apply IH.
Qed.

Lemma In_get_Some {V} (k : string) (v : V) (m : list (string * V)) :
  NoDup (JsMap.keys m) -> In (k, v) m -> JsMap.get k m = Some v.
Proof.
  unfold JsMap.keys. induction m as [|[k' v'] m IH]; simpl; [done|].
  intros Hnd [Heq|Hin].
  - injection Heq as -> ->. by rewrite String.eqb_refl.
  - apply NoDup_cons in Hnd as (Hnotin & Hnd). rewrite list_elem_of_In in Hnotin.
    destruct (String.eqb k k') eqn:E.
    + apply String.eqb_eq in E as ->. exfalso. apply Hnotin.
      apply in_map_iff. by exists (k', v).
    + by apply IH.
Qed.

Lemma NoDup_map_filter {A B} (f : A -> B) (p : A -> bool) (l : list A) :
  NoDup (List.map f l) -> NoDup (List.map f (List.filter p l)).
Proof.
  induction l as [|x l IH]; simpl; [done|].
  intros Hnd. apply NoDup_cons in Hnd as (Hnotin & Hnd). rewrite list_elem_of_In in Hnotin.
  destruct (p x); simpl; [|by apply IH].
  apply NoDup_cons. split; [|by apply IH].
  rewrite list_elem_of_In. intros Hin. apply Hnotin. apply in_map_iff in Hin as (y & Hy & Hin).
  apply filter_In in Hin as (Hin & _). apply in_map_iff. by exists y.
Qed.

Lemma NoDup_map_inj {A B} (f : A -> B) (l : list A) (x y : A) :
  NoDup (List.map f l) -> In x l -> In y l -> f x = f y -> x = y.
Proof.
  induction l as [|z l IH]; simpl; [done|].
  intros Hnd Hx Hy Hf. apply NoDup_cons in Hnd as (Hnotin & Hnd). rewrite list_elem_of_In in Hnotin.
  destruct Hx as [->|Hx], Hy as [->|Hy]; [done| | |by apply IH].
  - exfalso. apply Hnotin. rewrite Hf. by apply in_map.
  - exfalso. apply Hnotin. rewrite <- Hf. by apply in_map.
Qed.

Lemma wf_value_get w c :
  wf w -> In c (JsMap.values (clients w)) -> JsMap.get (id c) (clients w) = Some c.
Proof.
  intros (Hkeys & Hids & _) Hin. unfold JsMap.values in Hin.
  apply in_map_iff in Hin as ([k c'] & Heq & Hin). simpl in Heq. subst c'.
  rewrite List.Forall_forall in Hids. specialize (Hids _ Hin). simpl in Hids.
  rewrite Hids. by apply In_get_Some.
Qed.

Lemma wf_controllers w :
  wf w -> NoDup (List.map controller (JsMap.values (clients w))).
Proof. intros (_ & _ & H & _). unfold JsMap.values. by rewrite List.map_map. Qed.

Lemma all_writable_get w k c :
  all_writable w -> JsMap.get k (clients w) = Some c -> writable w (controller c) = true.
Proof.
  intros Hall Hget. unfold all_writable in Hall. rewrite List.Forall_forall in Hall.
  by apply (Hall (k, c)), get_Some_In.
Qed.

(** The [reduce] over clients that are registered under their ids, with
    distinct controllers that all take writes: every send succeeds, and
    each of these controllers, and no other, receives the frame once. *)
Lemma reduce_send_all event frame now (cs : list SSEClient) :
  formatEvent event = Normal frame ->
  forall w n,
    (forall c, In c cs ->
               JsMap.get (id c) (clients w) = Some c /\ writable w (controller c) = true) ->
    NoDup (List.map controller cs) ->
    exists w',
      reduce_send cs event now n w = (Normal (n + length cs)%nat, w')
      /\ clients w' = clients w
      /\ (forall c, In c cs ->
                    streams w' !! controller c
                    = push_chunk frame <$> streams w !! controller c)
      /\ (forall r, ~ In r (List.map controller cs) -> streams w' !! r = streams w !! r)
      /\ totalEventsSent w' = (totalEventsSent w + length cs)%nat.
Proof.
  intros Hframe. induction cs as [|c cs IH]; intros w n Hcs Hnd.
  - exists w. simpl. unfold ret. rewrite !Nat.add_0_r. done.
  - simpl in Hnd. apply NoDup_cons in Hnd as (Hnotin & Hnd). rewrite list_elem_of_In in Hnotin.
    destruct (Hcs c (or_introl eq_refl)) as (Hget & Hw).
    set (w1 := delivered (controller c) frame now w).
    destruct (IH w1 (n + 1)%nat) as (w' & Hrun & Hcl & Hin & Hout & Htot); [|done|].
    { intros c' Hc'. destruct (Hcs c' (or_intror Hc')) as (Hget' & Hw').
      unfold w1. by rewrite clients_delivered, writable_delivered. }
    exists w'. simpl. unfold bind.
    rewrite (sendToClient_writable w (id c) c event frame) by done. fold w1.
    rewrite Hrun. split; [f_equal; f_equal; lia|].
    split; [done|]. split; [|split].
    + intros c' [<-|Hc'].
      * rewrite Hout by done. apply streams_delivered_same.
      * rewrite Hin by done. unfold w1. rewrite streams_delivered_other; [done|].
        intros Heq. apply Hnotin. rewrite <- Heq. by apply in_map.
    + intros r Hr. simpl in Hr.
      rewrite Hout by tauto. unfold w1. rewrite streams_delivered_other; [done|].
      intros ->. tauto.
    + rewrite Htot. unfold w1. simpl. lia.
Qed.

Lemma sendToClients_all filter event frame now w :
  formatEvent event = Normal frame ->
  wf w -> all_writable w ->
  exists w',
    sendToClients filter event now w
    = (Normal (length (getClientsByFilter filter w)), w')
    /\ clients w' = clients w
    /\ forall k c,
        JsMap.get k (clients w) = Some c ->
        streams w' !! controller c
        = if selects filter c
          then push_chunk frame <$> streams w !! controller c
          else streams w !! controller c.
Proof.
  intros Hframe Hwf Hall. unfold sendToClients, bind, gets.
  set (cs := getClientsByFilter filter w).
  destruct (reduce_send_all event frame now cs Hframe w 0%nat)
    as (w' & Hrun & Hcl & Hin & Hout & _).
  - intros c Hc. apply filter_In in Hc as (Hc & _).
    pose proof (wf_value_get w c Hwf Hc) as Hget.
    split; [done | by eapply all_writable_get].
  - apply NoDup_map_filter. by apply wf_controllers.
  - exists w'. rewrite Hrun. split; [done|]. split; [done|].
    intros k c Hget. pose proof (get_Some_value _ _ _ Hget) as Hval.
    destruct (selects filter c) eqn:Hsel.
    + apply Hin. apply filter_In. done.
    + apply Hout. intros Hr. apply in_map_iff in Hr as (c' & Heq & Hc').
      apply filter_In in Hc' as (Hc' & Hsel').
      assert (c' = c) as ->; [|congruence].
      eapply NoDup_map_inj; [by apply wf_controllers|done..].
Qed.

Lemma filter_all {A} (p : A -> bool) (l : list A) :
  (forall x, p x = true) -> List.filter p l = l.
Proof.
  intros Hp. induction l as [|x l IH]; simpl; [done|]. by rewrite Hp, IH.
Qed.

Lemma getClientsByFilter_empty w :
  getClientsByFilter emptyFilter w = JsMap.values (clients w).
Proof. unfold getClientsByFilter. by apply filter_all. Qed.

Lemma selects_userFilter u c :
  u <> "" -> selects (userFilter u) c = ofUser u c.
Proof.
  intros Hu. unfold selects, ofUser, userFilter; cbn [f_clientIds f_userId f_sessionId f_metadata].
  apply truthy_string_Some in Hu. rewrite Hu. simpl.
  by destruct (strict_eq (userId c) (Some u)).
Qed.

Lemma getClientsByFilter_user u w :
  u <> "" ->
  getClientsByFilter (userFilter u) w = List.filter (ofUser u) (JsMap.values (clients w)).
Proof.
  intros Hu. unfold getClientsByFilter.
  induction (JsMap.values (clients w)) as [|c cs IH]; simpl; [done|].
  by rewrite selects_userFilter, IH.
Qed.

Lemma ping_all_config now w : config (ping_all now w) = config w.
Proof.
  unfold ping_all.
  apply (fold_left_invariant (fun w' => config w' = config w)); [|done].
  intros k w' _ H.
  by destruct (ping_step_cases now w' k) as [(c & c' & _ & _ & _ & ->)| ->].
Qed.

Lemma getStats_counters t w :
  st_totalEventsSent (getStats t w) = totalEventsSent w
  /\ st_lastEventTime (getStats t w) = lastEventTime w
  /\ totalClients (getStats t w) = JsMap.size (clients w).
Proof. unfold getStats. by destruct (fold_left _ _ _). Qed.

(** A connected client is still there after the tick, pinged and with
    [lastPing] at the time of the ping loop, unless the sweep's clock is
    more than [clientTimeout] ahead of it. *)
Lemma pingTick_connected now now' k w :
  connected k w ->
  let w' := exec (pingTick now now') w in
  (totalEventsSent w < totalEventsSent w')%nat
  /\ lastEventTime w' = Some now
  /\ (now' - now <= cfg_clientTimeout (config w) ->
      exists c, JsMap.get k (clients w') = Some c /\ lastPing c = now).
Proof.
  intros Hc. unfold exec. rewrite pingTick_steps. cbn [snd].
  destruct (ping_fold_progress now k (JsMap.keys (clients w)) w Hc)
    as (_ & _ & _ & _ & Hhit).
  destruct (Hhit (connected_key k w Hc)) as (Htot & Hlast & c & Hget & Hping).
  fold (ping_all now w) in *.
  destruct (sweep_all_counters now' (ping_all now w)) as (-> & -> & _).
  split; [done|]. split; [done|]. intros Hle. exists c. split; [|done].
  pose proof (cleanupStaleClients_keeps_fresh now' k c (ping_all now w) Hget) as Hkeep.
  unfold exec in Hkeep. rewrite cleanupStaleClients_sweep in Hkeep. apply Hkeep.
  unfold stale. rewrite ping_all_config, Hping. lia.
Qed.

(** ** Every world an engine reaches is well-formed *)

Section Registry.
Context {V : Type}.
Implicit Types (m : list (string * V)) (k : string) (v : V).

Lemma In_map_delete {B} (f : string * V -> B) k m y :
  In y (List.map f (JsMap.delete k m)) -> In y (List.map f m).
Proof.
  induction m as [|[k' v'] m IH]; simpl; [done|].
  destruct (String.eqb k k'); simpl; intuition.
Qed.

Lemma NoDup_map_delete {B} (f : string * V -> B) k m :
  NoDup (List.map f m) -> NoDup (List.map f (JsMap.delete k m)).
Proof.
  induction m as [|[k' v'] m IH]; simpl; [done|].
  intros Hnd. apply NoDup_cons in Hnd as (Hnotin & Hnd). rewrite list_elem_of_In in Hnotin.
  destruct (String.eqb k k'); simpl; [by apply IH|].
  apply NoDup_cons. split; [|by apply IH].
  rewrite list_elem_of_In. intros Hin. by apply Hnotin, (In_map_delete f k).
Qed.

Lemma Forall_delete (P : string * V -> Prop) k m :
  Forall P m -> Forall P (JsMap.delete k m).
Proof.
  induction m as [|[k' v'] m IH]; simpl; [done|].
  intros H. apply Forall_cons in H as (Hx & H).
  destruct (String.eqb k k'); [by apply IH|].
  apply Forall_cons. split; [done | by apply IH].
Qed.

Lemma Forall_set (P : string * V -> Prop) k v m :
  Forall P m -> P (k, v) -> Forall P (JsMap.set k v m).
Proof.
  intros H Hkv. induction m as [|[k' v'] m IH]; simpl.
  - by apply Forall_cons.
  - apply Forall_cons in H as (Hx & H).
    destruct (String.eqb k k') eqn:E.
    + apply String.eqb_eq in E as <-. by apply Forall_cons.
    + apply Forall_cons. split; [done | by apply IH].
Qed.

(** Overwriting a present key by a value with the same image keeps the
    list of images. *)
Lemma map_set_same {B} (f : string * V -> B) k v v0 m :
  JsMap.get k m = Some v0 -> f (k, v) = f (k, v0) ->
  List.map f (JsMap.set k v m) = List.map f m.
Proof.
  intros Hget Hf. induction m as [|[k' v'] m IH]; simpl in *; [done|].
  destruct (String.eqb k k') eqn:E; simpl.
  - apply String.eqb_eq in E as <-. injection Hget as ->. by rewrite Hf.
  - by rewrite IH.
Qed.

Lemma In_map_set {B} (f : string * V -> B) k v m y :
  In y (List.map f (JsMap.set k v m)) -> y = f (k, v) \/ In y (List.map f m).
Proof.
  induction m as [|[k' v'] m IH]; simpl.
  - intros [<-|[]]. by left.
  - destruct (String.eqb k k') eqn:E; simpl.
    + apply String.eqb_eq in E as <-. intros [<-|H]; [by left | by right; right].
    + intros [<-|H]; [by right; left|]. destruct (IH H); [by left | by right; right].
Qed.

Lemma NoDup_map_set {B} (f : string * V -> B) k v m :
  (forall k', f (k', v) = f (k, v)) ->
  ~ In (f (k, v)) (List.map f m) ->
  NoDup (List.map f m) -> NoDup (List.map f (JsMap.set k v m)).
Proof.
  intros Hkey. induction m as [|[k' v'] m IH]; simpl; intros Hfresh Hnd.
  - apply NoDup_cons. split; [|done]. rewrite list_elem_of_In. simpl. tauto.
  - apply NoDup_cons in Hnd as (Hnotin & Hnd). rewrite list_elem_of_In in Hnotin.
    destruct (String.eqb k k') eqn:E; simpl.
    + apply NoDup_cons. split; [|done]. rewrite list_elem_of_In.
      rewrite Hkey. tauto.
    + apply NoDup_cons. split; [|apply IH; tauto].
      rewrite list_elem_of_In. intros Hin.
      apply In_map_set in Hin as [Heq|Hin]; [|done].
      apply Hfresh. by left.
Qed.

Lemma NoDup_keys_set k v m :
  NoDup (JsMap.keys m) -> NoDup (JsMap.keys (JsMap.set k v m)).
Proof.
  unfold JsMap.keys. induction m as [|[k' v'] m IH]; simpl; intros Hnd.
  - apply NoDup_cons. split; [|done]. rewrite list_elem_of_In. simpl. tauto.
  - apply NoDup_cons in Hnd as (Hnotin & Hnd). rewrite list_elem_of_In in Hnotin.
    destruct (String.eqb k k') eqn:E; simpl.
    + apply NoDup_cons. by rewrite list_elem_of_In.
    + apply NoDup_cons. split; [|by apply IH].
      rewrite list_elem_of_In. intros Hin.
      apply (In_map_set fst) in Hin as [Heq|Hin]; [|done].
      simpl in Heq. subst k'. by rewrite String.eqb_refl in E.
Qed.
End Registry.

Lemma length_streams_delivered ref chunk now w :
  length (streams (delivered ref chunk now w)) = length (streams w).
Proof.
  unfold delivered. simpl. destruct (streams w !! ref); [apply length_insert | done].
Qed.

Lemma length_streams_removed k ref w :
  length (streams (removed k ref w)) = length (streams w).
Proof.
  unfold removed. simpl. destruct (streams w !! ref); [apply length_insert | done].
Qed.

Lemma wf_delivered ref chunk now w : wf w -> wf (delivered ref chunk now w).
Proof.
  unfold wf. by rewrite clients_delivered, length_streams_delivered.
Qed.

Lemma wf_removed k ref w : wf w -> wf (removed k ref w).
Proof.
  unfold wf. rewrite clients_removed, length_streams_removed.
  intros (H1 & H2 & H3 & H4).
  split; [by apply NoDup_map_delete|]. split; [by apply Forall_delete|].
  split; [by apply NoDup_map_delete | by apply Forall_delete].
Qed.

Lemma wf_set_lastPing k c t w :
  JsMap.get k (clients w) = Some c ->
  wf w -> wf (with_clients (JsMap.set k (set_lastPing t c)) w).
Proof.
  intros Hget (H1 & H2 & H3 & H4). unfold wf.
  rewrite clients_with_clients.
  change (streams (with_clients ?f ?x)) with (streams x).
  pose proof (get_Some_In _ _ _ Hget) as Hin.
  rewrite List.Forall_forall in H2, H4.
  pose proof (H2 _ Hin) as Hid. pose proof (H4 _ Hin) as Hvalid. simpl in Hid, Hvalid.
  split; [by apply NoDup_keys_set|].
  split; [apply Forall_set; [by apply List.Forall_forall | done]|].
  split; [by rewrite (map_set_same _ k _ c)|].
  apply Forall_set; [by apply List.Forall_forall | done].
Qed.

Lemma wf_registered options rnd now w : wf w -> wf (registered options rnd now w).
Proof.
  intros (H1 & H2 & H3 & H4). unfold registered. apply wf_delivered.
  unfold wf. rewrite clients_with_clients.
  change (clients (with_streams ?f ?x)) with (clients x).
  change (streams (with_clients ?f ?x)) with (streams x).
  change (streams (with_streams ?f ?x)) with (f (streams x)). cbv beta.
  rewrite length_app. simpl.
  assert (Hfresh : ~ In (length (streams w))
                     (List.map (fun kc => controller (snd kc)) (clients w))).
  { intros Hin. apply in_map_iff in Hin as (kc & Heq & Hin).
    rewrite List.Forall_forall in H4. specialize (H4 _ Hin). simpl in H4. lia. }
  split; [by apply NoDup_keys_set|].
  split; [by apply Forall_set|].
  split; [by apply NoDup_map_set|].
  apply Forall_set; [|simpl; lia].
  eapply List.Forall_impl; [|exact H4]. simpl. intros. lia.
Qed.

Lemma wf_sendToClient k event now w : wf w -> wf (exec (sendToClient k event now) w).
Proof.
  intros H. unfold exec.
  destruct (sendToClient_cases w k event now)
    as [(c & frame & _ & _ & ->)|[(c & _ & _ & ->)| ->]]; [| |done].
  - by apply wf_delivered.
  - by apply wf_removed.
Qed.

Lemma wf_disconnectClient k w : wf w -> wf (exec (disconnectClient k) w).
Proof.
  intros H. unfold exec.
  destruct (disconnectClient_cases w k) as [(c & _ & _ & ->)| ->]; [|done].
  by apply wf_removed.
Qed.

Lemma wf_reduce_send event now (cs : list SSEClient) :
  forall n w, wf w -> wf (exec (reduce_send cs event now n) w).
Proof.
  induction cs as [|c cs IH]; intros n w H; [done|].
  unfold exec. simpl. unfold bind.
  pose proof (wf_sendToClient (id c) event now w H) as H1. unfold exec in H1.
  destruct (sendToClient_total w (id c) event now) as (b & w1 & E).
  rewrite E in *. by apply IH.
Qed.

Lemma wf_ping_step now w key : wf w -> wf (ping_step now w key).
Proof.
  intros H.
  destruct (ping_step_cases now w key) as [(c & c' & Hget & _ & _ & ->)| ->]; [|done].
  apply wf_set_lastPing; [by rewrite clients_delivered | by apply wf_delivered].
Qed.

Lemma wf_sweep_step now w key : wf w -> wf (sweep_step now w key).
Proof.
  intros H.
  destruct (sweep_step_cases now w key) as [(c & _ & _ & _ & ->)| ->]; [|done].
  by apply wf_removed.
Qed.

Lemma wf_perform w a : wf w -> wf (perform w a).
Proof.
  intros H. destruct a as [options rnd now|k event now|filter event now|k|now now'|ref|]; simpl.
  - unfold exec.
    destruct (Nat.lt_ge_cases (JsMap.size (clients w)) (maxClients (config w))) as [Hlt|Hge].
    + rewrite createConnection_ok by done. by apply wf_registered.
    + by rewrite createConnection_full.
  - by apply wf_sendToClient.
  - unfold sendToClients, exec, bind, gets. by apply wf_reduce_send.
  - by apply wf_disconnectClient.
  - unfold exec, timerFires, bind, gets.
    destruct (heartbeatArmed w); [|done].
    rewrite pingTick_steps. cbn [snd]. unfold sweep_all, ping_all.
    apply fold_left_invariant; [intros; by apply wf_sweep_step|].
    apply fold_left_invariant; [intros; by apply wf_ping_step|done].
  - unfold exec, cancelStream, bind, gets.
    destruct (streams w !! ref) as [st|] eqn:Hst; [|done].
    destruct (canCloseOrEnqueue st); [|done].
    unfold modify.
    set (w1 := with_streams (fun h => <[ref := request_close st]> h) w).
    assert (wf w1) as H1.
    { unfold wf, w1. change (clients (with_streams ?f ?x)) with (clients x).
      change (streams (with_streams ?f ?x)) with (f (streams x)).
      by rewrite length_insert. }
    pose proof (wf_disconnectClient (cancelFor st) w1 H1) as H2. unfold exec in H2.
    by destruct (disconnectClient (cancelFor st) w1) as [[b|e] w2].
  - unfold exec. rewrite destroy_steps. cbn [snd]. unfold wf.
    rewrite clients_with_clients. unfold JsMap.clear, JsMap.keys. simpl.
    split; [apply NoDup_nil_2|]. split; [done|]. split; [apply NoDup_nil_2 | done].
Qed.

Lemma wf_new config : wf (EventService_new config).
Proof.
  unfold wf. simpl.
  split; [apply NoDup_nil_2|]. split; [done|]. split; [apply NoDup_nil_2 | done].
Qed.

Lemma reachable_wf w : reachable w -> wf w.
Proof.
  intros (config & history & ->). unfold run.
  apply fold_left_invariant; [intros a w' _; apply wf_perform | apply wf_new].
Qed.

(** In a reachable world a client is registered under its own id. *)
Lemma reachable_get_id w k c :
  reachable w -> JsMap.get k (clients w) = Some c -> id c = k.
Proof.
  intros Hr Hget. destruct (reachable_wf w Hr) as (_ & Hids & _).
  rewrite List.Forall_forall in Hids. by apply (Hids (k, c)), get_Some_In.
Qed.

Lemma reachable_connected w k c :
  reachable w -> JsMap.get k (clients w) = Some c -> writable w (controller c) = true ->
  connected k w.
Proof. intros Hr Hget Hw. exists c. split; [done|]. split; [by eapply reachable_get_id | done]. Qed.

Lemma reachable_stranded w k c :
  reachable w -> JsMap.get k (clients w) = Some c -> writable w (controller c) = false ->
  stranded k c w.
Proof. intros Hr Hget Hw. split; [done|]. split; [by eapply reachable_get_id | done]. Qed.

Lemma world_a_reachable : reachable world_a.
Proof. by exists defaultConfig, [CreateConnection alice "a1" 1000]. Qed.

Lemma world_ab_reachable : reachable world_ab.
Proof.
  by exists defaultConfig, [CreateConnection alice "a1" 1000; CreateConnection bob "b1" 2000].
Qed.

Lemma world_gone_reachable : reachable world_gone.
Proof. by exists defaultConfig, [CreateConnection alice "a1" 1000; CancelStream 0%nat]. Qed.

(** * The engine's contract *)

(** ** Delivery to one client *)

(** C1, as stated, fails: a notification delivered to alice at time 5000
    returns true but her [lastPing] is still the 1000 of her registration. *)
Lemma sendToClient_leaves_lastPing :
  eval (sendToClient "rt_1000_a1" (note "hi") 5000) world_a = Normal true
  /\ lastPing <$> JsMap.get "rt_1000_a1"
                    (clients (exec (sendToClient "rt_1000_a1" (note "hi") 5000) world_a))
     = Some 1000
  /\ 1000 <> 5000.
Proof. split; [|split]; [vm_compute; reflexivity..|discriminate]. Qed.

(** C1 (amended).  A successful delivery through [sendToClient] (the event
    has a frame and the client's stream takes it) returns true, increments
    the delivered-event counter, sets the engine's [lastEventTime] to the
    current time and appends the frame to the client's stream; it leaves the
    registry, and so the client's [lastPing], untouched.  [lastPing] is
    refreshed by the heartbeat tick alone: after a tick whose ping reached
    the client, it is the time of the ping loop. *)
Theorem sendToClient_delivery w k c event frame now :
  JsMap.get k (clients w) = Some c ->
  formatEvent event = Normal frame ->
  writable w (controller c) = true ->
  let w' := exec (sendToClient k event now) w in
  eval (sendToClient k event now) w = Normal true
  /\ totalEventsSent w' = S (totalEventsSent w)
  /\ lastEventTime w' = Some now
  /\ clients w' = clients w
  /\ streams w' !! controller c = push_chunk frame <$> streams w !! controller c
  /\ (reachable w ->
      forall t t', t' - t <= cfg_clientTimeout (config w) ->
                   exists c', JsMap.get k (clients (exec (pingTick t t') w)) = Some c'
                              /\ lastPing c' = t).
Proof.
  intros Hget Hframe Hw. unfold exec, eval.
  rewrite (sendToClient_writable w k c event frame) by done. cbn [fst snd].
  split; [done|]. split; [done|]. split; [done|]. split; [done|].
  split; [apply streams_delivered_same|].
  intros Hr t t' Hle.
  pose proof (reachable_connected w k c Hr Hget Hw) as Hc.
  by destruct (pingTick_connected t t' k w Hc) as (_ & _ & H); apply H.
Qed.

Lemma sendToClient_delivery_witness :
  JsMap.get "rt_1000_a1" (clients world_a) = Some (newClient alice "a1" 1000 world0)
  /\ formatEvent (note "hi") = Normal ("event: notification" ++ nl ++ "data: hi" ++ nl ++ nl)
  /\ writable world_a 0 = true
  /\ eval (sendToClient "rt_1000_a1" (note "hi") 5000) world_a = Normal true
  /\ totalEventsSent (exec (sendToClient "rt_1000_a1" (note "hi") 5000) world_a) = 2%nat
  /\ clients (exec (sendToClient "rt_1000_a1" (note "hi") 5000) world_a) = clients world_a.
Proof.
  assert (H1 : JsMap.get "rt_1000_a1" (clients world_a)
               = Some (newClient alice "a1" 1000 world0)) by (vm_compute; reflexivity).
  assert (Hf : formatEvent (note "hi")
               = Normal ("event: notification" ++ nl ++ "data: hi" ++ nl ++ nl))
    by (vm_compute; reflexivity).
  assert (H2 : writable world_a (controller (newClient alice "a1" 1000 world0)) = true)
    by (vm_compute; reflexivity).
  destruct (sendToClient_delivery world_a "rt_1000_a1" _ (note "hi") _ 5000 H1 Hf H2)
    as (R1 & R2 & _ & R4 & _).
  split; [exact H1|]. split; [exact Hf|]. split; [exact H2|]. split; [exact R1|].
  split; [exact R2| exact R4].
Defined.

(** C4, evaluated on the code: when the write fails the stream is closed,
    so the [close] inside [disconnectClient] fails as well and the entry is
    never deleted.  [sendToClient] returns false and the world is what it
    was: the client is still registered and still answers the empty filter. *)
Theorem sendToClient_failed_write_keeps_client w k c event now :
  JsMap.get k (clients w) = Some c ->
  writable w (controller c) = false ->
  sendToClient k event now w = (Normal false, w)
  /\ JsMap.get k (clients (exec (sendToClient k event now) w)) = Some c
  /\ In c (getClientsByFilter emptyFilter (exec (sendToClient k event now) w)).
Proof.
  intros Hget Hw. unfold exec.
  rewrite (sendToClient_unwritable w k c) by done. cbn [snd].
  split; [done|]. split; [done|].
  rewrite getClientsByFilter_empty. by eapply get_Some_value.
Qed.

Lemma sendToClient_failed_write_witness :
  JsMap.get "rt_1000_a1" (clients world_gone) = Some (newClient alice "a1" 1000 world0)
  /\ writable world_gone 0 = false
  /\ sendToClient "rt_1000_a1" (note "hi") 5000 world_gone = (Normal false, world_gone)
  /\ In (newClient alice "a1" 1000 world0)
        (getClientsByFilter emptyFilter
           (exec (sendToClient "rt_1000_a1" (note "hi") 5000) world_gone)).
Proof.
  assert (H1 : JsMap.get "rt_1000_a1" (clients world_gone)
               = Some (newClient alice "a1" 1000 world0)) by (vm_compute; reflexivity).
  assert (H2 : writable world_gone (controller (newClient alice "a1" 1000 world0)) = false)
    by (vm_compute; reflexivity).
  destruct (sendToClient_failed_write_keeps_client world_gone "rt_1000_a1" _ (note "hi") 5000 H1 H2)
    as (R1 & _ & R3).
  split; [exact H1|]. split; [exact H2|]. split; [exact R1 | exact R3].
Defined.

(** ** Disconnecting *)

(** C5, evaluated on the code: [disconnectClient] on a registered client
    whose stream is closed already (the stream was cancelled from the other
    end) returns false and removes nothing; the [cancel] callback itself
    runs into this, so a cancelled client stays registered. *)
Theorem disconnectClient_closed_stream_keeps_client w k c :
  JsMap.get k (clients w) = Some c ->
  writable w (controller c) = false ->
  disconnectClient k w = (Normal false, w)
  /\ JsMap.get k (clients (exec (disconnectClient k) w)) = Some c.
Proof.
  intros Hget Hw. unfold exec.
  by rewrite (disconnectClient_unwritable w k c).
Qed.

Lemma disconnectClient_closed_stream_witness :
  JsMap.get "rt_1000_a1" (clients world_gone) = Some (newClient alice "a1" 1000 world0)
  /\ writable world_gone 0 = false
  /\ disconnectClient "rt_1000_a1" world_gone = (Normal false, world_gone)
  /\ JsMap.get "rt_1000_a1" (clients (exec (disconnectClient "rt_1000_a1") world_gone))
     = Some (newClient alice "a1" 1000 world0).
Proof.
  assert (H1 : JsMap.get "rt_1000_a1" (clients world_gone)
               = Some (newClient alice "a1" 1000 world0)) by (vm_compute; reflexivity).
  assert (H2 : writable world_gone (controller (newClient alice "a1" 1000 world0)) = false)
    by (vm_compute; reflexivity).
  destruct (disconnectClient_closed_stream_keeps_client world_gone "rt_1000_a1" _ H1 H2)
    as (R1 & R2).
  split; [exact H1|]. split; [exact H2|]. split; [exact R1 | exact R2].
Defined.

(** The cancel path itself: when the consumer cancels the stream of a
    registered client, the stream is closed by the time the callback runs,
    so the callback's [disconnectClient] removes nothing. *)
Lemma cancelStream_keeps_client w k c st :
  JsMap.get k (clients w) = Some c ->
  streams w !! controller c = Some st ->
  canCloseOrEnqueue st = true ->
  cancelFor st = k ->
  let w' := exec (cancelStream (controller c)) w in
  JsMap.get k (clients w') = Some c /\ writable w' (controller c) = false.
Proof.
  intros Hget Hst Hopen Hfor. unfold exec, cancelStream, bind, gets, modify.
  rewrite Hst, Hopen, Hfor.
  set (w1 := with_streams (fun h => <[controller c := request_close st]> h) w).
  assert (Hget1 : JsMap.get k (clients w1) = Some c) by done.
  assert (Hw1 : writable w1 (controller c) = false).
  { unfold writable, w1. simpl.
    by rewrite list_lookup_insert_eq by (by eapply lookup_lt_Some). }
  by rewrite (disconnectClient_unwritable w1 k c).
Qed.

Example cancel_leaves_client_registered :
  writable world_a 0 = true
  /\ JsMap.keys (clients (exec (cancelStream 0) world_a)) = ["rt_1000_a1"]
  /\ writable (exec (cancelStream 0) world_a) 0 = false.
Proof. split; [|split]; vm_compute; reflexivity. Qed.

(** What [disconnectClient] does when the stream is still open: the entry
    is removed, the stream is closed, the result is true, and a second call
    finds nothing and changes nothing. *)
Lemma disconnectClient_twice w k c :
  JsMap.get k (clients w) = Some c ->
  writable w (controller c) = true ->
  let w' := exec (disconnectClient k) w in
  eval (disconnectClient k) w = Normal true
  /\ JsMap.get k (clients w') = None
  /\ writable w' (controller c) = false
  /\ disconnectClient k w' = (Normal false, w').
Proof.
  intros Hget Hw. unfold exec, eval.
  rewrite (disconnectClient_writable w k c) by done. cbn [fst snd].
  split; [done|].
  assert (Hnone : JsMap.get k (clients (removed k (controller c) w)) = None)
    by (rewrite clients_removed; apply get_delete_eq).
  split; [done|]. split; [apply writable_removed_same|].
  by apply disconnectClient_absent.
Qed.

(** ** Teardown *)



(** ** Capacity *)

(** C3.  In a run of registrations from a registry within its limit, the
    count stays within [maxClients]; a registration attempted below the
    limit succeeds: it opens one stream and puts the client in the registry;
    a registration attempted at the limit throws the capacity error and
    leaves the world, the streams included, as it was. *)
Theorem registration_capacity w (before : list Request) (r : Request) :
  (JsMap.size (clients w) <= maxClients (config w))%nat ->
  let w1 := registerAll before w in
  let w2 := exec (register r) w1 in
  (JsMap.size (clients w1) <= maxClients (config w))%nat
  /\ (JsMap.size (clients w2) <= maxClients (config w))%nat
  /\ ((JsMap.size (clients w1) < maxClients (config w))%nat ->
      eval (register r) w1 = Normal (mkResponse (length (streams w1)) sseHeaders)
      /\ length (streams w2) = S (length (streams w1))
      /\ JsMap.get (generateClientId (r_now r) (r_rnd r)) (clients w2)
         = Some (newClient (r_options r) (r_rnd r) (r_now r) w1)
      /\ (JsMap.get (generateClientId (r_now r) (r_rnd r)) (clients w1) = None ->
          JsMap.size (clients w2) = S (JsMap.size (clients w1))))
  /\ (JsMap.size (clients w1) = maxClients (config w) ->
      register r w1 = (Throw CapacityExceeded, w1)).
Proof.
  intros Hle w1 w2.
  destruct (registerAll_bound before w Hle) as (Hcfg & Hsize). fold w1 in Hcfg, Hsize.
  split; [done|].
  split.
  { assert (Hle1 : (JsMap.size (clients w1) <= maxClients (config w1))%nat)
      by (by rewrite Hcfg).
    destruct (register_bound r w1 Hle1) as (_ & H). by rewrite Hcfg in H. }
  split.
  - intros Hlt. rewrite <- Hcfg in Hlt.
    unfold w2, exec, eval, register.
    rewrite createConnection_ok by done. cbn [fst snd].
    split; [done|]. unfold registered.
    split.
    { unfold delivered. simpl.
      destruct (_ !! _); rewrite ?length_insert, length_app; simpl; lia. }
    rewrite clients_delivered, clients_with_clients.
    split; [apply get_set_eq | apply size_set_fresh].
  - intros Heq. unfold register. apply createConnection_full.
    rewrite Hcfg. lia.
Qed.

Lemma registration_capacity_witness :
  (JsMap.size (clients world0) <= maxClients (config world0))%nat
  /\ (JsMap.size (clients world_ab) <= 1000)%nat
  /\ eval (register (mkRequest bob "b1" 2000)) world_a = Normal (mkResponse 1 sseHeaders).
Proof.
  assert (H : (JsMap.size (clients world0) <= maxClients (config world0))%nat)
    by (vm_compute; lia).
  destruct (registration_capacity world0 [mkRequest alice "a1" 1000] (mkRequest bob "b1" 2000) H)
    as (_ & R2 & R3 & _).
  split; [exact H|]. split; [exact R2|].
  apply R3. vm_compute. lia.
Defined.

(** The limit is reached and enforced: with [maxClients = 2] the third
    registration is refused and no third stream exists. *)
Example third_registration_refused :
  let w := EventService_new (mkSSEConfig None None (Some 2%nat) None) in
  let w2 := registerAll [mkRequest alice "a1" 1000; mkRequest bob "b1" 2000] w in
  JsMap.size (clients w2) = 2%nat
  /\ register (mkRequest alice "a2" 3000) w2 = (Throw CapacityExceeded, w2)
  /\ length (streams w2) = 2%nat.
Proof. split; [|split]; vm_compute; reflexivity. Qed.

(** ** Filters *)

(** C6, as stated, fails: a filter whose [userId] is the empty string
    selects alice, whose [userId] is not the empty string. *)
Lemma empty_userId_filter_selects_everyone :
  getClientsByFilter (userFilter "") world_a = [newClient alice "a1" 1000 world0]
  /\ ~ matches_as_specified (userFilter "") (newClient alice "a1" 1000 world0).
Proof.
  split; [vm_compute; reflexivity|].
  intros (_ & H & _). simpl in H. discriminate.
Qed.

(** C6 (amended).  A client matches a filter iff (the allow-list is absent
    or holds the client's id) and (the filter's [userId] is absent or empty,
    or equal to the client's) and (the filter's [sessionId] is absent or
    empty, or equal to the client's) and (the filter's metadata is absent or
    each of its keys is in the client's metadata with an equal value).
    [getClientsByFilter] returns the registered clients that match, in
    registry order; the empty filter selects every client; a metadata-only
    filter looks at the keys it names and at nothing else. *)
Theorem getClientsByFilter_matches (f : ClientFilter) (w : World) (c : SSEClient) :
  (selects f c = true <-> matches_truthy f c)
  /\ getClientsByFilter f w = List.filter (selects f) (JsMap.values (clients w))
  /\ (In c (getClientsByFilter f w)
      <-> In c (JsMap.values (clients w)) /\ matches_truthy f c)
  /\ selects emptyFilter c = true
  /\ (forall fm : gmap string string,
         selects (mkFilter None None None (Some fm)) c = true
         <-> forall k v, fm !! k = Some v -> metadata_get c k = Some v).
Proof.
  split; [apply selects_matches_truthy|]. split; [done|].
  split; [unfold getClientsByFilter; by rewrite filter_In, selects_matches_truthy|].
  split; [done|].
  intros fm. rewrite selects_matches_truthy. unfold matches_truthy. simpl. tauto.
Qed.

(** ** Broadcast and per-user delivery *)

(** C7, as stated, fails: [sendToUser] with the empty string reaches both
    alice and bob; the frame is on alice's stream. *)
Lemma sendToUser_empty_reaches_everyone :
  eval (sendToUser "" (note "hi") 3000) world_ab = Normal 2%nat
  /\ userId <$> JsMap.get "rt_1000_a1" (clients world_ab) = Some (Some "alice")
  /\ streams (exec (sendToUser "" (note "hi") 3000) world_ab) !! 0%nat
     = push_chunk ("event: notification" ++ nl ++ "data: hi" ++ nl ++ nl)
         <$> streams world_ab !! 0%nat.
Proof. split; [|split]; vm_compute; reflexivity. Qed.

(** C7 (amended).  [broadcast] is [sendToClients] with the empty filter and
    [sendToUser] is [sendToClients] with the [userId]-only filter.  When no
    write fails and the event has a frame, [broadcast] returns the number
    of registered clients and puts one frame on the stream of each; for a
    non-empty [u], [sendToUser u] returns the number of registered clients
    whose [userId] is [u], puts one frame on the stream of each of them and
    leaves the streams of the others as they were; and [sendToUser] with the
    empty string is [broadcast]. *)
Theorem broadcast_and_sendToUser w event frame now u :
  reachable w ->
  all_writable w ->
  formatEvent event = Normal frame ->
  broadcast event now = sendToClients emptyFilter event now
  /\ sendToUser u event now = sendToClients (userFilter u) event now
  /\ eval (broadcast event now) w = Normal (JsMap.size (clients w))
  /\ (forall k c,
         JsMap.get k (clients w) = Some c ->
         streams (exec (broadcast event now) w) !! controller c
         = push_chunk frame <$> streams w !! controller c)
  /\ (u <> "" ->
      eval (sendToUser u event now) w
      = Normal (length (List.filter (ofUser u) (JsMap.values (clients w))))
      /\ (forall k c,
             JsMap.get k (clients w) = Some c ->
             streams (exec (sendToUser u event now) w) !! controller c
             = if ofUser u c
               then push_chunk frame <$> streams w !! controller c
               else streams w !! controller c))
  /\ (u = "" -> sendToUser u event now w = broadcast event now w).
Proof.
  intros Hr Hall Hframe. pose proof (reachable_wf w Hr) as Hwf.
  split; [done|]. split; [done|].
  unfold broadcast, sendToUser, eval, exec.
  destruct (sendToClients_all emptyFilter event frame now w Hframe Hwf Hall)
    as (wb & Eb & _ & Hb).
  split; [rewrite Eb; cbn [fst]; rewrite getClientsByFilter_empty;
          unfold JsMap.values, JsMap.size; by rewrite List.length_map|].
  split; [intros k c Hget; rewrite Eb; cbn [snd]; by rewrite (Hb k c Hget)|].
  split.
  - intros Hu.
    destruct (sendToClients_all (userFilter u) event frame now w Hframe Hwf Hall)
      as (wu & -> & _ & Hus).
    cbn [fst snd]. split; [by rewrite getClientsByFilter_user|].
    intros k c Hget. rewrite (Hus k c Hget). by rewrite selects_userFilter.
  - by intros ->.
Qed.

Lemma broadcast_and_sendToUser_witness :
  reachable world_ab /\ all_writable world_ab
  /\ formatEvent (note "hi") = Normal ("event: notification" ++ nl ++ "data: hi" ++ nl ++ nl)
  /\ eval (broadcast (note "hi") 3000) world_ab = Normal 2%nat
  /\ eval (sendToUser "alice" (note "hi") 3000) world_ab = Normal 1%nat.
Proof.
  assert (H1 : reachable world_ab)
    by (by exists defaultConfig,
                  [CreateConnection alice "a1" 1000; CreateConnection bob "b1" 2000]).
  assert (H2 : all_writable world_ab) by (apply (bool_decide_unpack _); vm_compute; reflexivity).
  assert (H3 : formatEvent (note "hi")
               = Normal ("event: notification" ++ nl ++ "data: hi" ++ nl ++ nl))
    by (vm_compute; reflexivity).
  destruct (broadcast_and_sendToUser world_ab (note "hi") _ 3000 "alice" H1 H2 H3)
    as (_ & _ & R3 & _ & R5 & _).
  split; [exact H1|]. split; [exact H2|]. split; [exact H3|].
  split; [exact R3 | apply R5; discriminate].
Defined.

(** ** The frame *)

(** C8, as stated, fails: an event with the retry interval 0 has a retry
    interval, but its frame has no [retry:] line. *)
Lemma formatEvent_drops_retry_zero :
  formatEvent (mkEvent "update" (JString "x") None (Some 0))
  = Normal ("event: update" ++ nl ++ "data: x" ++ nl ++ nl)
  /\ frame_as_specified (mkEvent "update" (JString "x") None (Some 0)) "x"
     = "event: update" ++ nl ++ "retry: 0" ++ nl ++ "data: x" ++ nl ++ nl
  /\ formatEvent (mkEvent "update" (JString "x") None (Some 0))
     <> Normal (frame_as_specified (mkEvent "update" (JString "x") None (Some 0)) "x").
Proof. split; [|split]; [vm_compute; reflexivity..|vm_compute; discriminate]. Qed.

(** C8 (amended).  For an event whose payload has a text (a string
    verbatim, anything else its JSON text), [formatEvent] produces exactly:
    an [id:] line if the event has a non-empty id, then an [event:] line if
    its label is non-empty, then a [retry:] line if it has a non-zero retry
    interval, then one [data:] line per newline-delimited segment of the
    payload text, then a blank line.  The segments are those pieces without
    a newline that, joined by newlines, give the payload text back.  Being a
    function of the event, the encoding is deterministic. *)
Theorem formatEvent_frame (e : SSEEvent) (text : string) :
  has_text (ev_data e) text ->
  formatEvent e = Normal (frame_truthy e text)
  /\ join nl (split_nl text) = text
  /\ Forall (fun seg => ~ In nl_char (list_ascii_of_string seg)) (split_nl text)
  /\ (ev_id e <> Some "" -> ev_retry e <> Some 0 ->
      formatEvent e = Normal (frame_as_specified e text)).
Proof.
  intros Htext.
  split; [by apply formatEvent_frame_truthy|].
  split; [apply join_split_nl|].
  split; [apply split_nl_no_newline|].
  intros Hid Hretry. rewrite (formatEvent_frame_truthy e text Htext). f_equal.
  unfold frame_truthy, frame_as_specified.
  destruct (ev_id e) as [i|], (ev_retry e) as [r|]; try done.
  - destruct (String.eqb i "") eqn:Ei; [apply String.eqb_eq in Ei; congruence|].
    destruct (r =? 0) eqn:Er; [apply Z.eqb_eq in Er; congruence|]. done.
  - destruct (String.eqb i "") eqn:Ei; [apply String.eqb_eq in Ei; congruence|]. done.
  - destruct (r =? 0) eqn:Er; [apply Z.eqb_eq in Er; congruence|]. done.
Qed.

Lemma formatEvent_frame_witness :
  has_text (ev_data (heartbeat 46000)) ("{" ++ dquote ++ "timestamp" ++ dquote ++ ":46000}")
  /\ formatEvent (heartbeat 46000)
     = Normal ("event: ping" ++ nl
               ++ "data: {" ++ dquote ++ "timestamp" ++ dquote ++ ":46000}" ++ nl ++ nl).
Proof.
  assert (H : has_text (ev_data (heartbeat 46000))
                       ("{" ++ dquote ++ "timestamp" ++ dquote ++ ":46000}"))
    by (vm_compute; reflexivity).
  split; [exact H|].
  exact (proj1 (formatEvent_frame (heartbeat 46000) _ H)).
Defined.

(** The two synthetic events as they go out on the wire. *)
Example connected_frame :
  formatEvent (connectedEvent "rt_1000_a1" 1000)
  = Normal ("event: connected" ++ nl
            ++ "data: {" ++ dquote ++ "clientId" ++ dquote ++ ":" ++ dquote ++ "rt_1000_a1"
            ++ dquote ++ "," ++ dquote ++ "connectedAt" ++ dquote ++ ":1000}" ++ nl ++ nl).
Proof. vm_compute. reflexivity. Qed.

Example ping_frame :
  formatEvent (heartbeat 46000)
  = Normal ("event: ping" ++ nl
            ++ "data: {" ++ dquote ++ "timestamp" ++ dquote ++ ":46000}" ++ nl ++ nl).
Proof. vm_compute. reflexivity. Qed.

(** ** The heartbeat tick *)

(** C9, evaluated on the code: a client whose stream was cancelled is not
    unregistered by the sweep however old its [lastPing] is, since the
    [close] in [disconnectClient] fails and the entry is never deleted. *)
Theorem sweep_never_evicts_cancelled_client w k c now now' :
  reachable w ->
  JsMap.get k (clients w) = Some c ->
  writable w (controller c) = false ->
  stale w now' c ->
  let w' := exec (pingTick now now') w in
  JsMap.get k (clients w') = Some c /\ stale w' now' c.
Proof.
  intros Hr Hget Hw Hstale w'. subst w'.
  pose proof (reachable_stranded w k c Hr Hget Hw) as Hs.
  destruct (pingTick_stranded now now' k c w Hs) as (Hget' & _).
  split; [done|].
  unfold stale, exec in *. rewrite pingTick_steps. cbn [snd].
  destruct (sweep_all_counters now' (ping_all now w)) as (_ & _ & ->).
  by rewrite ping_all_config.
Qed.

Lemma sweep_never_evicts_cancelled_client_witness :
  reachable world_gone
  /\ JsMap.get "rt_1000_a1" (clients world_gone) = Some (newClient alice "a1" 1000 world0)
  /\ writable world_gone 0 = false
  /\ stale world_gone 200000 (newClient alice "a1" 1000 world0)
  /\ JsMap.get "rt_1000_a1" (clients (exec (pingTick 200000 200000) world_gone))
     = Some (newClient alice "a1" 1000 world0).
Proof.
  assert (H0 : reachable world_gone)
    by (by exists defaultConfig, [CreateConnection alice "a1" 1000; CancelStream 0%nat]).
  assert (H1 : JsMap.get "rt_1000_a1" (clients world_gone)
               = Some (newClient alice "a1" 1000 world0)) by (vm_compute; reflexivity).
  assert (H2 : writable world_gone (controller (newClient alice "a1" 1000 world0)) = false)
    by (vm_compute; reflexivity).
  assert (H3 : stale world_gone 200000 (newClient alice "a1" 1000 world0))
    by (vm_compute; reflexivity).
  split; [exact H0|]. split; [exact H1|]. split; [exact H2|]. split; [exact H3|].
  exact (proj1 (sweep_never_evicts_cancelled_client
                  world_gone "rt_1000_a1" _ 200000 200000 H0 H1 H2 H3)).
Defined.

(** The sweep does pass over every client that is not stale. *)
Lemma sweep_keeps_fresh_client w k c now :
  JsMap.get k (clients w) = Some c ->
  now - lastPing c <= cfg_clientTimeout (config w) ->
  JsMap.get k (clients (exec (cleanupStaleClients now) w)) = Some c.
Proof.
  intros Hget Hle. apply cleanupStaleClients_keeps_fresh; [done|].
  unfold stale. lia.
Qed.

(** The sweep does evict a stale client whose stream is still open. *)
Lemma sweep_step_pending now k0 c0 w key :
  wf w ->
  stale w now c0 ->
  (JsMap.get k0 (clients w) = Some c0 /\ writable w (controller c0) = true)
  \/ JsMap.get k0 (clients w) = None ->
  wf (sweep_step now w key)
  /\ stale (sweep_step now w key) now c0
  /\ ((JsMap.get k0 (clients (sweep_step now w key)) = Some c0
       /\ writable (sweep_step now w key) (controller c0) = true)
      \/ JsMap.get k0 (clients (sweep_step now w key)) = None)
  /\ (key = k0 -> JsMap.get k0 (clients (sweep_step now w key)) = None).
Proof.
  intros Hwf Hstale H.
  split; [by apply wf_sweep_step|].
  split; [unfold stale; by destruct (sweep_step_counters now w key) as (_ & _ & ->)|].
  destruct H as [(Hget0 & Hw0)|Hnone].
  - destruct (decide (key = k0)) as [->|Hne].
    + assert (sweep_step now w k0 = removed k0 (controller c0) w) as ->.
      { unfold sweep_step. rewrite Hget0.
        unfold stale in Hstale. apply Z.ltb_lt in Hstale. rewrite Hstale.
        unfold exec. by rewrite (disconnectClient_writable w k0 c0). }
      rewrite clients_removed, get_delete_eq. by split; [right|].
    + split; [|done]. left.
      destruct (sweep_step_cases now w key) as [(c & Hget & _ & Hw & ->)| ->]; [|done].
      rewrite clients_removed, get_delete_ne by done. split; [done|].
      rewrite writable_removed_other; [done|].
      intros Heq. apply Hne.
      destruct Hwf as (_ & _ & Hctl & _).
      assert ((k0, c0) = (key, c)) as [= -> ->]; [|done].
      eapply (NoDup_map_inj (fun kc => controller (snd kc))); [done| | |done];
        by apply get_Some_In.
  - assert (JsMap.get k0 (clients (sweep_step now w key)) = None) as Hn; [|by split; [right|]].
    destruct (sweep_step_cases now w key) as [(c & _ & _ & _ & ->)| ->]; [|done].
    rewrite clients_removed. destruct (decide (k0 = key)) as [->|Hne].
    + apply get_delete_eq.
    + by rewrite get_delete_ne.
Qed.

Lemma sweep_fold_evicts now k0 c0 (ks : list string) :
  forall w,
    wf w ->
    stale w now c0 ->
    (JsMap.get k0 (clients w) = Some c0 /\ writable w (controller c0) = true)
    \/ JsMap.get k0 (clients w) = None ->
    In k0 ks \/ JsMap.get k0 (clients w) = None ->
    JsMap.get k0 (clients (fold_left (sweep_step now) ks w)) = None.
Proof.
  induction ks as [|k ks IH]; intros w Hwf Hstale H Hin; simpl.
  - by destruct Hin.
  - destruct (sweep_step_pending now k0 c0 w k Hwf Hstale H) as (Hwf' & Hstale' & H' & Hhit).
    apply IH; [done..|].
    destruct Hin as [[->|Hin]|Hnone]; [right; by apply Hhit | by left |].
    right. destruct H' as [(Hget & _)|Hn]; [|done].
    destruct (sweep_step_cases now w k) as [(c & _ & _ & _ & E)| E]; rewrite E in Hget.
    + rewrite clients_removed in Hget. destruct (decide (k0 = k)) as [->|Hne].
      * by rewrite get_delete_eq in Hget.
      * rewrite get_delete_ne in Hget by done. congruence.
    + congruence.
Qed.

Lemma sweep_evicts_stale_open_client w k c now :
  reachable w ->
  JsMap.get k (clients w) = Some c ->
  writable w (controller c) = true ->
  stale w now c ->
  JsMap.get k (clients (exec (cleanupStaleClients now) w)) = None.
Proof.
  intros Hr Hget Hw Hstale. unfold exec. rewrite cleanupStaleClients_sweep. cbn [snd].
  apply (sweep_fold_evicts now k c); [by apply reachable_wf | done | by left |].
  left. by eapply get_Some_key.
Qed.

(** ** Statistics *)

(** What holds of the counters when a registered client's stream takes
    writes.  The counter and the timestamp that [getStats] reports are those
    that every successful delivery advances, the synthetic events included:
    a registration adds the [connected] event, and a heartbeat tick on an
    engine with such a client makes [totalEventsSent] strictly larger and
    moves [lastEventTime] to the time of the tick. *)
Theorem heartbeat_counts_as_delivery w k c now now' t :
  reachable w ->
  heartbeatArmed w = true ->
  JsMap.get k (clients w) = Some c ->
  writable w (controller c) = true ->
  let w' := exec (timerFires now now') w in
  (st_totalEventsSent (getStats t w) < st_totalEventsSent (getStats t w'))%nat
  /\ st_lastEventTime (getStats t w') = Some now
  /\ (forall options rnd,
         (JsMap.size (clients w) < maxClients (config w))%nat ->
         let w'' := exec (createConnection options rnd now) w in
         st_totalEventsSent (getStats t w'') = S (st_totalEventsSent (getStats t w))
         /\ st_lastEventTime (getStats t w'') = Some now).
Proof.
  intros Hr Harmed Hget Hw w'. subst w'.
  pose proof (reachable_connected w k c Hr Hget Hw) as Hc.
  assert (Htick : exec (timerFires now now') w = exec (pingTick now now') w).
  { unfold exec, timerFires, bind, gets. by rewrite Harmed. }
  rewrite Htick.
  destruct (pingTick_connected now now' k w Hc) as (Htot & Hlast & _).
  destruct (getStats_counters t w) as (-> & _ & _).
  destruct (getStats_counters t (exec (pingTick now now') w)) as (-> & -> & _).
  split; [done|]. split; [done|].
  intros options rnd Hlt w''. subst w''. unfold exec.
  rewrite createConnection_ok by done. cbn [snd].
  by destruct (getStats_counters t (registered options rnd now w)) as (-> & -> & _).
Qed.

Lemma heartbeat_counts_as_delivery_witness :
  reachable world_a
  /\ heartbeatArmed world_a = true
  /\ JsMap.get "rt_1000_a1" (clients world_a) = Some (newClient alice "a1" 1000 world0)
  /\ writable world_a 0 = true
  /\ st_totalEventsSent (getStats 50000 world_a) = 1%nat
  /\ (1 < st_totalEventsSent (getStats 50000 (exec (timerFires 46000 46000) world_a)))%nat
  /\ st_lastEventTime (getStats 50000 (exec (timerFires 46000 46000) world_a)) = Some 46000.
Proof.
  assert (H0 : reachable world_a)
    by (by exists defaultConfig, [CreateConnection alice "a1" 1000]).
  assert (H1 : heartbeatArmed world_a = true) by (vm_compute; reflexivity).
  assert (H2 : JsMap.get "rt_1000_a1" (clients world_a)
               = Some (newClient alice "a1" 1000 world0)) by (vm_compute; reflexivity).
  assert (H3 : writable world_a (controller (newClient alice "a1" 1000 world0)) = true)
    by (vm_compute; reflexivity).
  assert (H4 : st_totalEventsSent (getStats 50000 world_a) = 1%nat) by (vm_compute; reflexivity).
  destruct (heartbeat_counts_as_delivery world_a "rt_1000_a1" _ 46000 46000 50000 H0 H1 H2 H3)
    as (R1 & R2 & _).
  split; [exact H0|]. split; [exact H1|]. split; [exact H2|]. split; [exact H3|].
  split; [exact H4|]. split; [by rewrite H4 in R1 | exact R2].
Defined.

(** C10, evaluated on the code: when the streams of the registered
    clients were all cancelled, the clients are still registered and
    [getStats] counts them, but a heartbeat tick delivers nothing and drops
    nobody: it leaves [totalClients], [totalEventsSent] and [lastEventTime]
    as they were. *)
Theorem heartbeat_tick_delivers_nothing w now now' t :
  (forall k c, JsMap.get k (clients w) = Some c -> writable w (controller c) = false) ->
  let w' := exec (timerFires now now') w in
  totalClients (getStats t w') = totalClients (getStats t w)
  /\ st_totalEventsSent (getStats t w') = st_totalEventsSent (getStats t w)
  /\ st_lastEventTime (getStats t w') = st_lastEventTime (getStats t w).
Proof.
  intros Hall w'. subst w'.
  assert (exec (timerFires now now') w = w) as ->; [|done].
  unfold exec, timerFires, bind, gets.
  destruct (heartbeatArmed w); [|done].
  rewrite pingTick_steps. cbn [snd].
  assert (ping_all now w = w) as ->.
  { unfold ping_all. apply fold_left_fixed. intros key.
    destruct (ping_step_cases now w key) as [(c & c' & _ & Hget' & Hw & _)|E]; [|done].
    rewrite (Hall _ _ Hget') in Hw. discriminate. }
  unfold sweep_all. apply fold_left_fixed. intros key.
  destruct (sweep_step_cases now' w key) as [(c & Hget & _ & Hw & _)|E]; [|done].
  rewrite (Hall _ _ Hget) in Hw. discriminate.
Qed.

Lemma heartbeat_tick_delivers_nothing_witness :
  reachable world_gone
  /\ heartbeatArmed world_gone = true
  /\ (forall k c, JsMap.get k (clients world_gone) = Some c ->
                  writable world_gone (controller c) = false)
  /\ totalClients (getStats 50000 world_gone) = 1%nat
  /\ st_totalEventsSent (getStats 50000 (exec (timerFires 46000 46000) world_gone)) = 1%nat
  /\ st_lastEventTime (getStats 50000 (exec (timerFires 46000 46000) world_gone))
     = Some 1000.
Proof.
  assert (H0 : reachable world_gone)
    by (by exists defaultConfig, [CreateConnection alice "a1" 1000; CancelStream 0%nat]).
  assert (H1 : heartbeatArmed world_gone = true) by (vm_compute; reflexivity).
  assert (H2 : forall k c, JsMap.get k (clients world_gone) = Some c ->
                           writable world_gone (controller c) = false).
  { intros k c Hget. apply get_Some_value in Hget.
    change (JsMap.values (clients world_gone))
      with [newClient alice "a1" 1000 world0] in Hget.
    destruct Hget as [<-|[]]. vm_compute. reflexivity. }
  destruct (heartbeat_tick_delivers_nothing world_gone 46000 46000 50000 H2)
    as (_ & R2 & R3).
  split; [exact H0|]. split; [exact H1|]. split; [exact H2|].
  split; [vm_compute; reflexivity|].
  split; [etrans; [exact R2 | vm_compute; reflexivity]
         |etrans; [exact R3 | vm_compute; reflexivity]].
Defined.

(** [getStats] after three registrations, two of them by alice. *)
Example getStats_by_user :
  let w := run [CreateConnection alice "a1" 1000; CreateConnection alice "a2" 1500;
                CreateConnection bob "b1" 2000] world0 in
  totalClients (getStats 3000 w) = 3%nat
  /\ clientsByUser (getStats 3000 w) !! "alice" = Some (Count 2)
  /\ clientsByUser (getStats 3000 w) !! "bob" = Some (Count 1)
  /\ st_totalEventsSent (getStats 3000 w) = 3%nat
  /\ averageConnectionDuration (getStats 3000 w) = float_of_Z 1500.
Proof. repeat split; vm_compute; reflexivity. Qed.

(** * Beyond the contract: what every history preserves *)

(** ** A proof rule for histories

    Every action is made of a few elementary changes of the world; a
    property kept by each of them is kept by every action. *)
Section Preservation.
Variable I : World -> Prop.
Hypothesis I_delivered :
  forall w ref chunk now, I w -> writable w ref = true -> I (delivered ref chunk now w).
Hypothesis I_removed :
  forall w k c,
    I w -> JsMap.get k (clients w) = Some c -> writable w (controller c) = true ->
    I (removed k (controller c) w).
Hypothesis I_pinged :
  forall w k c t,
    I w -> JsMap.get k (clients w) = Some c ->
    I (with_clients (JsMap.set k (set_lastPing t c)) w).
Hypothesis I_registered :
  forall w options rnd now,
    I w -> (JsMap.size (clients w) < maxClients (config w))%nat ->
    I (registered options rnd now w).
Hypothesis I_cancelled :
  forall w ref st,
    I w -> streams w !! ref = Some st -> canCloseOrEnqueue st = true ->
    I (with_streams (fun h => <[ref := request_close st]> h) w).
Hypothesis I_timers : forall w f, I w -> I (with_timers f w).
Hypothesis I_cleared : forall w, I w -> I (with_clients JsMap.clear w).

Lemma sendToClient_preserves k event now w : I w -> I (exec (sendToClient k event now) w).
Proof.
  intros H. unfold exec.
  destruct (sendToClient_cases w k event now)
    as [(c & frame & _ & Hw & ->)|[(c & Hget & Hw & ->)| ->]]; [| |done].
  - by apply I_delivered.
  - by apply I_removed.
Qed.

Lemma disconnectClient_preserves k w : I w -> I (exec (disconnectClient k) w).
Proof.
  intros H. unfold exec.
  destruct (disconnectClient_cases w k) as [(c & Hget & Hw & ->)| ->]; [|done].
  by apply I_removed.
Qed.

Lemma reduce_send_preserves event now (cs : list SSEClient) :
  forall n w, I w -> I (exec (reduce_send cs event now n) w).
Proof.
  induction cs as [|c cs IH]; intros n w H; [done|].
  unfold exec. simpl. unfold bind.
  pose proof (sendToClient_preserves (id c) event now w H) as H1. unfold exec in H1.
  destruct (sendToClient_total w (id c) event now) as (b & w1 & E).
  rewrite E in *. by apply IH.
Qed.

Lemma ping_step_preserves now w key : I w -> I (ping_step now w key).
Proof.
  intros H.
  destruct (ping_step_cases now w key) as [(c & c' & Hget & _ & Hw & ->)| ->]; [|done].
  apply I_pinged; [by apply I_delivered | by rewrite clients_delivered].
Qed.

Lemma sweep_step_preserves now w key : I w -> I (sweep_step now w key).
Proof.
  intros H.
  destruct (sweep_step_cases now w key) as [(c & Hget & _ & Hw & ->)| ->]; [|done].
  by apply I_removed.
Qed.

Lemma destroy_step_preserves w key : I w -> I (destroy_step w key).
Proof.
  intros H.
  destruct (destroy_step_cases w key) as [(c & Hget & Hw & ->)| ->]; [|done].
  by apply I_removed.
Qed.

Lemma pingTick_preserves now now' w : I w -> I (exec (pingTick now now') w).
Proof.
  intros H. unfold exec. rewrite pingTick_steps. cbn [snd]. unfold sweep_all, ping_all.
  apply fold_left_invariant; [intros; by apply sweep_step_preserves|].
  apply fold_left_invariant; [intros; by apply ping_step_preserves|done].
Qed.

Lemma destroy_preserves w : I w -> I (exec destroy w).
Proof.
  intros H. unfold exec. rewrite destroy_steps. cbn [snd].
  apply I_cleared.
  apply fold_left_invariant; [intros; by apply destroy_step_preserves|].
  destruct (pingInterval w); [by apply I_timers | done].
Qed.

Lemma createConnection_preserves options rnd now w :
  I w -> I (exec (createConnection options rnd now) w).
Proof.
  intros H. unfold exec.
  destruct (Nat.lt_ge_cases (JsMap.size (clients w)) (maxClients (config w))) as [Hlt|Hge].
  - rewrite createConnection_ok by done. by apply I_registered.
  - by rewrite createConnection_full.
Qed.

Lemma cancelStream_preserves ref w : I w -> I (exec (cancelStream ref) w).
Proof.
  intros H. unfold exec, cancelStream, bind, gets.
  destruct (streams w !! ref) as [st|] eqn:Hst; [|done].
  destruct (canCloseOrEnqueue st) eqn:Hopen; [|done].
  unfold modify.
  set (w1 := with_streams (fun h => <[ref := request_close st]> h) w).
  assert (I w1) as H1 by (by apply I_cancelled).
  pose proof (disconnectClient_preserves (cancelFor st) w1 H1) as H2. unfold exec in H2.
  by destruct (disconnectClient (cancelFor st) w1) as [[b|e] w2].
Qed.

Lemma perform_preserves w a : I w -> I (perform w a).
Proof.
  intros H. destruct a as [options rnd now|k event now|filter event now|k|now now'|ref|]; simpl.
  - by apply createConnection_preserves.
  - by apply sendToClient_preserves.
  - unfold sendToClients, exec, bind, gets. by apply reduce_send_preserves.
  - by apply disconnectClient_preserves.
  - unfold exec, timerFires, bind, gets.
    destruct (heartbeatArmed w); [|done]. by apply pingTick_preserves.
  - by apply cancelStream_preserves.
  - by apply destroy_preserves.
Qed.

Lemma run_preserves history w : I w -> I (run history w).
Proof.
  intros H. unfold run.
  apply fold_left_invariant; [intros a w' _; apply perform_preserves | done].
Qed.
End Preservation.

(** ** The registry stays within its limit *)

Lemma size_set_present {V} (k : string) (v v0 : V) (m : list (string * V)) :
  JsMap.get k m = Some v0 -> JsMap.size (JsMap.set k v m) = JsMap.size m.
Proof.
  unfold JsMap.size. induction m as [|[k' v'] m IH]; simpl; [done|].
  destruct (String.eqb k k'); simpl; [done | intros H; by rewrite IH].
Qed.

Lemma size_delete_le {V} (k : string) (m : list (string * V)) :
  (JsMap.size (JsMap.delete k m) <= JsMap.size m)%nat.
Proof.
  unfold JsMap.size. induction m as [|[k' v'] m IH]; simpl; [done|].
  destruct (String.eqb k k'); simpl; lia.
Qed.

Lemma run_within_capacity history w :
  (JsMap.size (clients w) <= maxClients (config w))%nat ->
  config (run history w) = config w
  /\ (JsMap.size (clients (run history w)) <= maxClients (config w))%nat.
Proof.
  intros Hle.
  apply (run_preserves
           (fun w' => config w' = config w
                      /\ (JsMap.size (clients w') <= maxClients (config w))%nat));
    try done.
  - intros w' k c (Hc & Hs) _ _. split; [done|].
    rewrite clients_removed. pose proof (size_delete_le k (clients w')). lia.
  - intros w' k c t (Hc & Hs) Hget. split; [done|].
    rewrite clients_with_clients. by rewrite (size_set_present k _ c).
  - intros w' options rnd now (Hc & Hs) Hlt. split; [done|].
    pose proof (registered_size options rnd now w'). rewrite Hc in Hlt. lia.
  - intros w' (Hc & Hs). split; [done|]. simpl. lia.
Qed.

(** Whatever happens to an engine, its configuration stays what the
    constructor made of it and the number of registered clients never
    exceeds [maxClients]. *)
Theorem registry_never_exceeds_maxClients (c : SSEConfig) (history : list Action) :
  let w := run history (EventService_new c) in
  config w = config (EventService_new c)
  /\ (JsMap.size (clients w) <= maxClients (config w))%nat.
Proof.
  intros w. subst w.
  destruct (run_within_capacity history (EventService_new c)) as (Hc & Hs);
    [simpl; lia|].
  split; [done|]. by rewrite Hc.
Qed.

(** ** Streams *)

Lemma streams_removed_same k ref w :
  streams (removed k ref w) !! ref = request_close <$> streams w !! ref.
Proof.
  unfold removed. simpl. destruct (streams w !! ref) as [st|] eqn:Hst.
  - by rewrite list_lookup_insert_eq by (by eapply lookup_lt_Some).
  - by rewrite Hst.
Qed.

Lemma streams_removed_other k ref w r :
  r <> ref -> streams (removed k ref w) !! r = streams w !! r.
Proof.
  intros Hne. unfold removed. simpl.
  destruct (streams w !! ref) as [st|] eqn:Hst; [|done].
  by rewrite list_lookup_insert_ne.
Qed.

Lemma streams_registered_old options rnd now w r :
  (r < length (streams w))%nat ->
  streams (registered options rnd now w) !! r = streams w !! r.
Proof.
  intros Hlt. unfold registered.
  rewrite streams_delivered_other by (simpl; lia).
  change (streams (with_clients ?f ?x)) with (streams x).
  change (streams (with_streams ?f ?x)) with (f (streams x)). cbv beta.
  by rewrite lookup_app_l.
Qed.

Lemma streams_registered_new options rnd now w :
  streams (registered options rnd now w) !! length (streams w)
  = Some (mkStream true [connected_frame_of (newClient options rnd now w)]
                   (generateClientId now rnd)).
Proof.
  unfold registered. rewrite streams_delivered_same.
  change (streams (with_clients ?f ?x)) with (streams x).
  change (streams (with_streams ?f ?x)) with (f (streams x)). cbv beta.
  by rewrite list_lookup_middle.
Qed.

Lemma writable_Some w ref st :
  streams w !! ref = Some st -> writable w ref = canCloseOrEnqueue st.
Proof. intros H. unfold writable. by rewrite H. Qed.

Lemma extends_refl st : extends st st.
Proof. by split. Qed.

Lemma extends_push st st' chunk : extends st st' -> extends st (push_chunk chunk st').
Proof.
  intros (Hp & Hc & Hf). split; [|by split].
  simpl. by apply prefix_app_r.
Qed.

Lemma extends_close st st' : extends st st' -> extends st (request_close st').
Proof. intros (Hp & Hc & Hf). by split. Qed.

Lemma run_streams_grow history w ref st :
  streams w !! ref = Some st ->
  exists st', streams (run history w) !! ref = Some st' /\ extends st st'.
Proof.
  intros Hst.
  apply (run_preserves (fun w' => exists st', streams w' !! ref = Some st' /\ extends st st')).
  - intros w' ref' chunk now (st' & Hst' & Hext) _.
    destruct (decide (ref = ref')) as [<-|Hne].
    + rewrite streams_delivered_same, Hst'. eexists. split; [done|]. by apply extends_push.
    + rewrite streams_delivered_other by done. by exists st'.
  - intros w' k c (st' & Hst' & Hext) _ _.
    destruct (decide (ref = controller c)) as [<-|Hne].
    + rewrite streams_removed_same, Hst'. eexists. split; [done|]. by apply extends_close.
    + rewrite streams_removed_other by done. by exists st'.
  - intros w' k c t H _. done.
  - intros w' options rnd now (st' & Hst' & Hext) _.
    rewrite streams_registered_old by (by eapply lookup_lt_Some). by exists st'.
  - intros w' ref' st2 (st' & Hst' & Hext) Hst2 Hopen. simpl.
    destruct (decide (ref = ref')) as [<-|Hne].
    + rewrite list_lookup_insert_eq by (by eapply lookup_lt_Some).
      eexists. split; [done|]. rewrite Hst' in Hst2. injection Hst2 as <-.
      by apply extends_close.
    + rewrite list_lookup_insert_ne by done. by exists st'.
  - intros w' f H. done.
  - intros w' H. done.
  - exists st. split; [done | apply extends_refl].
Qed.

(** No operation rewrites what went out: along any history a stream keeps
    every chunk it already holds, in order, ahead of what is added; it stays
    bound to the same client id; and it never reopens. *)
Theorem streams_only_grow (w : World) (ref : nat) (st : Stream) (history : list Action) :
  streams w !! ref = Some st ->
  exists st',
    streams (run history w) !! ref = Some st'
    /\ chunks st `prefix_of` chunks st'
    /\ cancelFor st' = cancelFor st
    /\ (canCloseOrEnqueue st' = true -> canCloseOrEnqueue st = true).
Proof. intros Hst. by apply run_streams_grow. Qed.

(** Once a stream is closed, nothing is ever written to it again: along
    any history it stays exactly as it is. *)
Theorem closed_stream_is_final (w : World) (ref : nat) (st : Stream) (history : list Action) :
  streams w !! ref = Some st ->
  canCloseOrEnqueue st = false ->
  streams (run history w) !! ref = Some st.
Proof.
  intros Hst Hclosed.
  apply (run_preserves (fun w' => streams w' !! ref = Some st)); try done.
  - intros w' ref' chunk now H Hw.
    rewrite streams_delivered_other; [done|].
    intros ->. rewrite (writable_Some w' ref' st) in Hw by done. congruence.
  - intros w' k c H _ Hw.
    rewrite streams_removed_other; [done|].
    intros ->. rewrite (writable_Some w' _ st) in Hw by done. congruence.
  - intros w' options rnd now H _.
    rewrite streams_registered_old by (by eapply lookup_lt_Some). done.
  - intros w' ref' st2 H Hst2 Hopen. simpl.
    rewrite list_lookup_insert_ne; [done|].
    intros ->. congruence.
Qed.

(** ** The counter counts the frames *)

Lemma sum_list_with_insert {A} (f : A -> nat) (l : list A) (i : nat) (x y : A) :
  l !! i = Some x ->
  (sum_list_with f (<[i := y]> l) + f x = sum_list_with f l + f y)%nat.
Proof.
  revert i. induction l as [|z l IH]; intros [|i] H; simpl in *; try done.
  - injection H as ->. lia.
  - specialize (IH i H). lia.
Qed.

Lemma frames_written_delivered ref chunk now w :
  writable w ref = true ->
  frames_written (delivered ref chunk now w) = S (frames_written w).
Proof.
  intros Hw. unfold frames_written, delivered, writable in *. simpl.
  destruct (streams w !! ref) as [st|] eqn:Hst; [|done].
  pose proof (sum_list_with_insert (fun st => length (chunks st)) _ _ _
                (push_chunk chunk st) Hst) as H.
  simpl in H. rewrite length_app in H. simpl in H. lia.
Qed.

Lemma frames_written_removed k ref w :
  frames_written (removed k ref w) = frames_written w.
Proof.
  unfold frames_written, removed. simpl.
  destruct (streams w !! ref) as [st|] eqn:Hst; [|done].
  pose proof (sum_list_with_insert (fun st => length (chunks st)) _ _ _
                (request_close st) Hst) as H.
  simpl in H. lia.
Qed.

Lemma frames_written_registered options rnd now w :
  frames_written (registered options rnd now w) = S (frames_written w).
Proof.
  unfold registered. rewrite frames_written_delivered.
  - unfold frames_written. simpl. rewrite sum_list_with_app. simpl. lia.
  - unfold writable. simpl. by rewrite list_lookup_middle.
Qed.

(** From the constructor on, whatever happens, [totalEventsSent] is the
    number of frames that were enqueued on the streams of the engine, all
    streams and all kinds of events taken together; and [lastEventTime] is
    undefined exactly as long as that number is zero. *)
Theorem totalEventsSent_counts_frames (c : SSEConfig) (history : list Action) :
  let w := run history (EventService_new c) in
  totalEventsSent w = frames_written w
  /\ (lastEventTime w = None <-> totalEventsSent w = 0%nat).
Proof.
  intros w. subst w.
  apply (run_preserves
           (fun w' => totalEventsSent w' = frames_written w'
                      /\ (lastEventTime w' = None <-> totalEventsSent w' = 0%nat)));
    try done.
  - intros w' ref chunk now (Ht & Hl) Hw.
    rewrite frames_written_delivered by done. simpl. split; [by rewrite Ht|]. done.
  - intros w' k cl (Ht & Hl) _ _. by rewrite frames_written_removed.
  - intros w' options rnd now (Ht & Hl) _.
    rewrite frames_written_registered. simpl. split; [by rewrite Ht|]. done.
  - intros w' ref st (Ht & Hl) Hst _. split; [|done].
    unfold frames_written. simpl.
    pose proof (sum_list_with_insert (fun st => length (chunks st)) _ _ _
                  (request_close st) Hst) as H.
    simpl in H. unfold frames_written in Ht. lia.
Qed.

(** ** The first frame of a client *)

Lemma get_delete_Some {V} (k k0 : string) (v : V) (m : list (string * V)) :
  JsMap.get k (JsMap.delete k0 m) = Some v -> JsMap.get k m = Some v.
Proof.
  intros H. destruct (decide (k = k0)) as [->|Hne].
  - by rewrite get_delete_eq in H.
  - by rewrite get_delete_ne in H.
Qed.

Lemma head_push (chunk x : string) (st : Stream) :
  head (chunks st) = Some x -> head (chunks (push_chunk chunk st)) = Some x.
Proof. simpl. by destruct (chunks st). Qed.

(** In every world an engine reaches, the stream of a registered client
    begins with the client's own [connected] frame: the one that carries
    its id and its [connectedAt]. *)
Theorem stream_begins_with_connected_frame (w : World) (k : string) (c : SSEClient) :
  reachable w ->
  JsMap.get k (clients w) = Some c ->
  formatEvent (connectedEvent (id c) (connectedAt c)) = Normal (connected_frame_of c)
  /\ exists st,
      streams w !! controller c = Some st
      /\ head (chunks st) = Some (connected_frame_of c).
Proof.
  intros Hr Hget. split; [apply formatEvent_connected|]. revert Hr Hget.
  intros (cfg & history & ->). revert k c.
  apply (run_preserves
           (fun w' => forall k c,
                JsMap.get k (clients w') = Some c ->
                exists st, streams w' !! controller c = Some st
                           /\ head (chunks st) = Some (connected_frame_of c))).
  - intros w' ref chunk now H _ k c Hget.
    rewrite clients_delivered in Hget. destruct (H k c Hget) as (st & Hst & Hhead).
    destruct (decide (controller c = ref)) as [<-|Hne].
    + rewrite streams_delivered_same, Hst. eexists. split; [done|]. by apply head_push.
    + rewrite streams_delivered_other by done. by exists st.
  - intros w' k0 c0 H _ _ k c Hget.
    rewrite clients_removed in Hget. apply get_delete_Some in Hget.
    destruct (H k c Hget) as (st & Hst & Hhead).
    destruct (decide (controller c = controller c0)) as [E|Hne].
    + rewrite E, streams_removed_same. rewrite <- E, Hst. by eexists.
    + rewrite streams_removed_other by done. by exists st.
  - intros w' k0 c0 t H Hget0 k c Hget.
    rewrite clients_with_clients in Hget.
    change (streams (with_clients ?f ?x)) with (streams x).
    destruct (decide (k = k0)) as [->|Hne].
    + rewrite get_set_eq in Hget. injection Hget as <-. by apply (H k0 c0).
    + rewrite get_set_ne in Hget by done. by apply (H k c).
  - intros w' options rnd now H _ k c Hget.
    unfold registered in Hget. rewrite clients_delivered, clients_with_clients in Hget.
    change (clients (with_streams ?f ?x)) with (clients x) in Hget.
    destruct (decide (k = id (newClient options rnd now w'))) as [->|Hne].
    + rewrite get_set_eq in Hget. injection Hget as <-.
      change (controller (newClient options rnd now w')) with (length (streams w')).
      rewrite streams_registered_new. by eexists.
    + rewrite get_set_ne in Hget by done.
      destruct (H k c Hget) as (st & Hst & Hhead).
      rewrite streams_registered_old by (by eapply lookup_lt_Some). by exists st.
  - intros w' ref st0 H Hst0 _ k c Hget.
    change (clients (with_streams ?f ?x)) with (clients x) in Hget.
    destruct (H k c Hget) as (st & Hst & Hhead). simpl.
    destruct (decide (controller c = ref)) as [<-|Hne].
    + rewrite list_lookup_insert_eq by (by eapply lookup_lt_Some).
      eexists. split; [done|]. rewrite Hst in Hst0. by injection Hst0 as <-.
    + rewrite list_lookup_insert_ne by done. by exists st.
  - intros w' f H k c Hget. by apply (H k c).
  - intros w' H k c Hget. done.
  - intros k c Hget. done.
Qed.

(** ** Delivery to many clients, some of them gone *)

Lemma reduce_send_some event frame now (cs : list SSEClient) :
  formatEvent event = Normal frame ->
  forall w n,
    (forall c, In c cs -> JsMap.get (id c) (clients w) = Some c) ->
    NoDup (List.map controller cs) ->
    exists w',
      reduce_send cs event now n w
      = (Normal (n + length (List.filter (fun c => writable w (controller c)) cs))%nat, w')
      /\ clients w' = clients w
      /\ (forall r, writable w' r = writable w r)
      /\ (forall c, In c cs ->
                    streams w' !! controller c
                    = if writable w (controller c)
                      then push_chunk frame <$> streams w !! controller c
                      else streams w !! controller c)
      /\ (forall r, ~ In r (List.map controller cs) -> streams w' !! r = streams w !! r).
Proof.
  intros Hframe. induction cs as [|c cs IH]; intros w n Hcs Hnd.
  - exists w. simpl. unfold ret. by rewrite Nat.add_0_r.
  - simpl in Hnd. apply NoDup_cons in Hnd as (Hnotin & Hnd). rewrite list_elem_of_In in Hnotin.
    pose proof (Hcs c (or_introl eq_refl)) as Hget.
    assert (Hstep : exists w1,
               sendToClient (id c) event now w = (Normal (writable w (controller c)), w1)
               /\ clients w1 = clients w
               /\ (forall r, writable w1 r = writable w r)
               /\ streams w1 !! controller c
                  = (if writable w (controller c)
                     then push_chunk frame <$> streams w !! controller c
                     else streams w !! controller c)
               /\ (forall r, r <> controller c -> streams w1 !! r = streams w !! r)).
    { destruct (writable w (controller c)) eqn:Hw.
      - exists (delivered (controller c) frame now w).
        rewrite (sendToClient_writable w (id c) c event frame) by done.
        split; [done|]. split; [done|]. split; [intros r; apply writable_delivered|].
        split; [apply streams_delivered_same|]. intros r Hr. by apply streams_delivered_other.
      - exists w. by rewrite (sendToClient_unwritable w (id c) c). }
    destruct Hstep as (w1 & Hsend & Hcl1 & Hwr1 & Hsame1 & Hother1).
    destruct (IH w1 (if writable w (controller c) then (n + 1)%nat else n))
      as (w' & Hrun & Hcl & Hwr & Hin & Hout); [|done|].
    { intros c' Hc'. rewrite Hcl1. apply Hcs. by right. }
    exists w'. simpl. unfold bind. rewrite Hsend, Hrun.
    split.
    { f_equal. f_equal.
      rewrite (List.filter_ext (fun c0 => writable w1 (controller c0))
                               (fun c0 => writable w (controller c0))) by (intros; apply Hwr1).
      destruct (writable w (controller c)); simpl; lia. }
    split; [by rewrite Hcl|]. split; [intros r; by rewrite Hwr|]. split.
    + intros c' [<-|Hc'].
      * rewrite Hout by done. done.
      * rewrite Hin by done. rewrite Hwr1.
        rewrite Hother1; [done|].
        intros Heq. apply Hnotin. rewrite <- Heq. by apply in_map.
    + intros r Hr. simpl in Hr.
      rewrite Hout by tauto. apply Hother1. intros ->. tauto.
Qed.

(** In a reachable world [sendToClients], given an event that has a frame,
    returns the number of selected clients whose stream takes writes.  Each
    of them gets the frame once; a selected client whose write fails gets
    nothing and costs the others nothing; no other stream is touched and the
    registry is as it was. *)
Theorem sendToClients_counts_deliveries (w : World) (filter : ClientFilter)
    (event : SSEEvent) (frame : string) (now : Z) :
  reachable w ->
  formatEvent event = Normal frame ->
  let w' := exec (sendToClients filter event now) w in
  eval (sendToClients filter event now) w
  = Normal (length (List.filter (fun c => writable w (controller c))
                                (getClientsByFilter filter w)))
  /\ clients w' = clients w
  /\ (forall k c,
         JsMap.get k (clients w) = Some c ->
         streams w' !! controller c
         = if selects filter c && writable w (controller c)
           then push_chunk frame <$> streams w !! controller c
           else streams w !! controller c).
Proof.
  intros Hr Hframe w'. subst w'. pose proof (reachable_wf w Hr) as Hwf.
  unfold sendToClients, eval, exec, bind, gets.
  set (cs := getClientsByFilter filter w).
  destruct (reduce_send_some event frame now cs Hframe w 0%nat)
    as (w' & Hrun & Hcl & _ & Hin & Hout).
  - intros c Hc. apply filter_In in Hc as (Hc & _). by apply wf_value_get.
  - apply NoDup_map_filter. by apply wf_controllers.
  - rewrite Hrun. cbn [fst snd]. split; [done|]. split; [done|].
    intros k c Hget. pose proof (get_Some_value _ _ _ Hget) as Hval.
    destruct (selects filter c) eqn:Hsel; simpl.
    + apply Hin. by apply filter_In.
    + apply Hout. intros Hr'. apply in_map_iff in Hr' as (c' & Heq & Hc').
      apply filter_In in Hc' as (Hc' & Hsel').
      assert (c' = c) as ->; [|congruence].
      eapply NoDup_map_inj; [by apply wf_controllers|done..].
Qed.

(** ** One heartbeat tick in full *)

Lemma wf_distinct_controllers w k c k0 c0 :
  wf w -> JsMap.get k (clients w) = Some c -> JsMap.get k0 (clients w) = Some c0 ->
  k <> k0 -> controller c <> controller c0.
Proof.
  intros (_ & _ & Hctl & _) Hget Hget0 Hne Heq. apply Hne.
  assert ((k, c) = (k0, c0)) as [= -> ->]; [|done].
  eapply (NoDup_map_inj (fun kc => controller (snd kc))); [done| | |done];
    by apply get_Some_In.
Qed.

Lemma wf_get_id w k c : wf w -> JsMap.get k (clients w) = Some c -> id c = k.
Proof.
  intros (_ & Hids & _) Hget.
  rewrite List.Forall_forall in Hids. by apply (Hids (k, c)), get_Some_In.
Qed.

(** One round of the ping loop in a well-formed world. *)
Lemma ping_step_detail now w k :
  wf w ->
  let w1 := ping_step now w k in
  (forall r, writable w1 r = writable w r)
  /\ JsMap.keys (clients w1) = JsMap.keys (clients w)
  /\ totalEventsSent w1 = (totalEventsSent w + if reaches w k then 1 else 0)%nat
  /\ (forall c, JsMap.get k (clients w) = Some c ->
                JsMap.get k (clients w1) = Some (pinged w now c)
                /\ streams w1 !! controller c
                   = if writable w (controller c)
                     then push_chunk (frameOf (heartbeat now)) <$> streams w !! controller c
                     else streams w !! controller c)
  /\ (forall k0 c0, k0 <> k -> JsMap.get k0 (clients w) = Some c0 ->
                    JsMap.get k0 (clients w1) = Some c0
                    /\ streams w1 !! controller c0 = streams w !! controller c0).
Proof.
  intros Hwf w1. subst w1. unfold ping_step, reaches, pinged.
  destruct (JsMap.get k (clients w)) as [c|] eqn:Hget.
  2:{ split; [done|]. split; [done|]. split; [lia|]. split; [done|]. by intros. }
  rewrite (wf_get_id w k c Hwf Hget).
  destruct (writable w (controller c)) eqn:Hw.
  - rewrite (sendToClient_writable w k c _ (frameOf (heartbeat now))) by done.
    split; [intros r; by rewrite writable_with_clients, writable_delivered|].
    split; [rewrite clients_with_clients, clients_delivered; by eapply keys_set_present|].
    split; [simpl; lia|].
    split.
    + intros c' [= <-]. rewrite clients_with_clients, get_set_eq, Hw.
      split; [done|]. apply streams_delivered_same.
    + intros k0 c0 Hne Hget0. rewrite clients_with_clients, clients_delivered.
      rewrite get_set_ne by done. split; [done|].
      change (streams (with_clients ?f ?x)) with (streams x).
      apply streams_delivered_other. by eapply wf_distinct_controllers.
  - rewrite (sendToClient_unwritable w k c) by done.
    split; [done|]. split; [done|]. split; [lia|]. split; [|by intros].
    intros c' [= <-]. by rewrite Hw.
Qed.

Lemma ping_fold_detail now (ks : list string) :
  forall w,
    wf w -> NoDup ks ->
    let w' := fold_left (ping_step now) ks w in
    (forall r, writable w' r = writable w r)
    /\ JsMap.keys (clients w') = JsMap.keys (clients w)
    /\ totalEventsSent w' = (totalEventsSent w + length (List.filter (reaches w) ks))%nat
    /\ (forall k c, In k ks -> JsMap.get k (clients w) = Some c ->
                    JsMap.get k (clients w') = Some (pinged w now c)
                    /\ streams w' !! controller c
                       = if writable w (controller c)
                         then push_chunk (frameOf (heartbeat now)) <$> streams w !! controller c
                         else streams w !! controller c)
    /\ (forall k c, ~ In k ks -> JsMap.get k (clients w) = Some c ->
                    JsMap.get k (clients w') = Some c
                    /\ streams w' !! controller c = streams w !! controller c).
Proof.
  induction ks as [|k ks IH]; intros w Hwf Hnd; simpl.
  - split; [done|]. split; [done|]. split; [lia|]. split; [by intros|]. by intros.
  - apply NoDup_cons in Hnd as (Hnotin & Hnd). rewrite list_elem_of_In in Hnotin.
    destruct (ping_step_detail now w k Hwf) as (Hwr1 & Hk1 & Ht1 & Hself1 & Hother1).
    set (w1 := ping_step now w k) in *.
    destruct (IH w1 (wf_ping_step now w k Hwf) Hnd) as (Hwr & Hk & Ht & Hin & Hout).
    assert (Hreach : forall k0, k0 <> k -> reaches w1 k0 = reaches w k0).
    { intros k0 Hne. unfold reaches.
      destruct (JsMap.get k0 (clients w)) as [c0|] eqn:Hget0.
      - destruct (Hother1 k0 c0 Hne Hget0) as (-> & _). apply Hwr1.
      - destruct (JsMap.get k0 (clients w1)) as [c1|] eqn:Hget1; [|done].
        exfalso. apply get_Some_key in Hget1. rewrite Hk1 in Hget1.
        by apply get_None_key in Hget0. }
    split; [intros r; by rewrite Hwr, Hwr1|].
    split; [by rewrite Hk, Hk1|].
    split.
    { rewrite Ht, Ht1.
      rewrite (List.filter_ext_in (reaches w1) (reaches w)).
      - destruct (reaches w k); simpl; lia.
      - intros k0 Hk0. apply Hreach. intros ->. done. }
    split.
    + intros k0 c0 [<-|Hk0] Hget0.
      * destruct (Hself1 c0 Hget0) as (Hget1 & Hst1).
        destruct (Hout k (pinged w now c0) Hnotin Hget1) as (Hget' & Hst').
        split; [done|].
        assert (controller (pinged w now c0) = controller c0) as Hc
          by (unfold pinged; by destruct (writable w (controller c0))).
        rewrite Hc in Hst'. by rewrite Hst'.
      * assert (k0 <> k) as Hne by (intros ->; done).
        destruct (Hother1 k0 c0 Hne Hget0) as (Hget1 & Hst1).
        destruct (Hin k0 c0 Hk0 Hget1) as (Hget' & Hst').
        split; [rewrite Hget'; unfold pinged; by rewrite Hwr1|].
        by rewrite Hst', Hwr1, Hst1.
    + intros k0 c0 Hk0 Hget0.
      assert (k0 <> k) as Hne by (intros ->; apply Hk0; by left).
      destruct (Hother1 k0 c0 Hne Hget0) as (Hget1 & Hst1).
      destruct (Hout k0 c0 (fun H => Hk0 (or_intror H)) Hget1) as (Hget' & Hst').
      split; [done|]. by rewrite Hst', Hst1.
Qed.

(** The sweep finds nothing to do when every client it could remove is
    fresh. *)
Lemma sweep_all_nothing now w :
  (forall k c, JsMap.get k (clients w) = Some c -> writable w (controller c) = true ->
               ~ stale w now c) ->
  sweep_all now w = w.
Proof.
  intros H. unfold sweep_all. apply fold_left_fixed. intros k.
  destruct (sweep_step_cases now w k) as [(c & Hget & Hstale & Hw & _)|E]; [|done].
  by destruct (H k c Hget Hw).
Qed.

Lemma In_keys_get {V} (k : string) (m : list (string * V)) :
  In k (JsMap.keys m) -> exists v, JsMap.get k m = Some v.
Proof.
  intros Hin. destruct (JsMap.get k m) as [v|] eqn:E; [by exists v|].
  by apply get_None_key in E.
Qed.

(** The heartbeat tick in a reachable world, the sweep reading its clock
    no more than [clientTimeout] after the ping loop.  Nobody is removed:
    a client that takes the ping is fresh when the sweep comes, and one that
    does not cannot be closed.  Each client whose stream takes writes gets
    one [ping] frame and has [lastPing] moved to the time of the tick; the
    others are left as they were; the counter grows by the number of pings
    that went out. *)
Theorem heartbeat_tick (w : World) (now now' : Z) :
  reachable w ->
  now' - now <= cfg_clientTimeout (config w) ->
  let w' := exec (pingTick now now') w in
  JsMap.keys (clients w') = JsMap.keys (clients w)
  /\ totalEventsSent w'
     = (totalEventsSent w + length (List.filter (reaches w) (JsMap.keys (clients w))))%nat
  /\ (forall k c,
         JsMap.get k (clients w) = Some c ->
         JsMap.get k (clients w') = Some (pinged w now c)
         /\ streams w' !! controller c
            = if writable w (controller c)
              then push_chunk (frameOf (heartbeat now)) <$> streams w !! controller c
              else streams w !! controller c)
  /\ formatEvent (heartbeat now) = Normal (frameOf (heartbeat now)).
Proof.
  intros Hr Hle w'. subst w'. pose proof (reachable_wf w Hr) as Hwf.
  unfold exec. rewrite pingTick_steps. cbn [snd].
  destruct (ping_fold_detail now (JsMap.keys (clients w)) w Hwf (proj1 Hwf))
    as (Hwr & Hk & Ht & Hin & _).
  fold (ping_all now w) in *.
  rewrite sweep_all_nothing.
  - split; [done|]. split; [done|]. split; [|apply formatEvent_heartbeat].
    intros k c Hget. apply Hin; [by eapply get_Some_key | done].
  - intros k c1 Hget1 Hw1 Hstale.
    pose proof (get_Some_key _ _ _ Hget1) as Hkey. rewrite Hk in Hkey.
    destruct (In_keys_get _ _ Hkey) as (c & Hget).
    destruct (Hin k c Hkey Hget) as (Hget' & _).
    rewrite Hget1 in Hget'. injection Hget' as ->.
    unfold stale in Hstale. rewrite ping_all_config in Hstale.
    unfold pinged in *. destruct (writable w (controller c)) eqn:Hw.
    + simpl in Hstale. lia.
    + rewrite Hwr in Hw1. congruence.
Qed.

(** ** Statistics *)

Lemma getStats_fold_total now (cs : list SSEClient) :
  forall (m : gmap string Tally) (t : PrimFloat.float),
    snd (fold_left (getStats_step now) cs (m, t)) = totalAge now cs t.
Proof.
  unfold totalAge. induction cs as [|c cs IH]; intros m t; [done|].
  cbn [fold_left]. unfold getStats_step at 2. cbn [fst snd]. apply IH.
Qed.

Lemma native_function_text_nonempty (f rest : string) :
  String.eqb (native_function_text f ++ rest) "" = false.
Proof. reflexivity. Qed.

Lemma getStats_fold_tally now (u : string) (cs : list SSEClient) (t : PrimFloat.float) :
  fst (fold_left (getStats_step now) cs (∅, t)) !! u
  = tally_of u (length (List.filter (ofUser u) cs)).
Proof.
  revert u. induction cs as [|c cs IH] using rev_ind; intros u.
  - cbn [fold_left List.filter length fst]. rewrite lookup_empty. unfold tally_of.
    by rewrite Nat.eqb_refl, orb_true_r.
  - rewrite fold_left_app, List.filter_app, length_app. cbn [fold_left List.filter].
    destruct (fold_left (getStats_step now) cs (∅, t)) as [by_user total].
    cbn [fst] in IH. unfold getStats_step. cbn [fst snd].
    unfold ofUser at 2, truthy_string.
    destruct (userId c) as [uc|]; cbn [strict_eq from_option]; unfold Datatypes.id;
      [|cbn [length]; rewrite Nat.add_0_r; apply IH].
    destruct (String.eqb_spec uc "") as [->|Hne]; cbn [negb].
    { rewrite IH. unfold tally_of.
      destruct (String.eqb_spec "" u) as [<-|?]; [done|].
      cbn [length]. by rewrite Nat.add_0_r. }
    unfold assign.
    destruct (String.eqb_spec uc "__proto__") as [->|Hproto].
    { rewrite IH. unfold tally_of.
      destruct (String.eqb_spec "__proto__" u) as [<-|?]; [done|].
      cbn [length]. by rewrite Nat.add_0_r. }
    destruct (String.eqb_spec uc u) as [->|Hu].
    + rewrite lookup_insert_eq. cbn [length].
      unfold or_zero_plus_one. rewrite IH. unfold tally_of.
      destruct (String.eqb_spec u "") as [?|_]; [done|].
      destruct (String.eqb_spec u "__proto__") as [?|_]; [done|]. cbn [orb].
      set (n := length (List.filter (ofUser u) cs)).
      replace (n + 1 =? 0)%nat with false by (symmetry; apply Nat.eqb_neq; lia).
      destruct (n =? 0)%nat eqn:En.
      * apply Nat.eqb_eq in En. rewrite En.
        by destruct (JsMap.get u Object_prototype_functions).
      * destruct (JsMap.get u Object_prototype_functions) as [f|].
        -- rewrite native_function_text_nonempty.
           rewrite string_app_assoc. by rewrite Nat.add_1_r.
        -- done.
    + rewrite lookup_insert_ne by done. cbn [length]. rewrite Nat.add_0_r. apply IH.
Qed.

(** [getStats] reports the registry: [totalClients] is its size.  Under a
    user id [clientsByUser] has what [tally_of] says: for an ordinary id
    that some client carries, the number of clients carrying it; nothing
    for the empty id and for [__proto__]; for a name of [Object.prototype]
    a text, not a number.  [averageConnectionDuration] is 0 when nobody is
    registered and otherwise the ages [now - connectedAt], added up in
    registry order and divided by the number of clients, in doubles. *)
Theorem getStats_counts_registry (now : Z) (w : World) (u : string) :
  totalClients (getStats now w) = JsMap.size (clients w)
  /\ clientsByUser (getStats now w) !! u = tally_of u (clientsOfUser u w)
  /\ (u <> "" -> u <> "__proto__" -> JsMap.get u Object_prototype_functions = None ->
      clientsByUser (getStats now w) !! u
      = if (clientsOfUser u w =? 0)%nat then None else Some (Count (clientsOfUser u w)))
  /\ averageConnectionDuration (getStats now w)
     = (if (0 <? JsMap.size (clients w))%nat
        then PrimFloat.div (totalAge now (JsMap.values (clients w)) PrimFloat.zero)
                           (float_of_Z (Z.of_nat (JsMap.size (clients w))))
        else PrimFloat.zero).
Proof.
  unfold getStats, clientsOfUser.
  pose proof (getStats_fold_total now (JsMap.values (clients w)) ∅ PrimFloat.zero) as Ht.
  pose proof (getStats_fold_tally now u (JsMap.values (clients w)) PrimFloat.zero) as Hm.
  destruct (fold_left _ (JsMap.values (clients w)) (∅, PrimFloat.zero)) as [by_user total].
  cbn [fst snd] in Ht, Hm.
  cbn [totalClients clientsByUser averageConnectionDuration].
  split; [done|]. split; [done|]. split.
  - intros H1 H2 H3. rewrite Hm. unfold tally_of. rewrite H3.
    destruct (String.eqb_spec u "") as [?|_]; [done|].
    destruct (String.eqb_spec u "__proto__") as [?|_]; [done|]. done.
  - by rewrite Ht.
Qed.

(** [clientsByUser] is a plain object: a user called [constructor] finds
    the function [Object] there and gets a text, not a count, and a user
    called [__proto__] is not counted at all. *)
Example getStats_names_of_Object_prototype :
  let w := run [CreateConnection (mkOptions (Some "constructor") None None) "a1" 1000;
                CreateConnection (mkOptions (Some "__proto__") None None) "b1" 2000] world0 in
  totalClients (getStats 3000 w) = 2%nat
  /\ clientsByUser (getStats 3000 w) !! "constructor"
     = Some (Text "function Object() { [native code] }1")
  /\ clientsByUser (getStats 3000 w) !! "__proto__" = None.
Proof. repeat split; vm_compute; reflexivity. Qed.

(** ** Characters of the texts the engine builds *)

Lemma occurrences_cons ch c (s : string) :
  occurrences ch (String c s)
  = ((if Ascii.eqb c ch then 1 else 0) + occurrences ch s)%nat.
Proof. reflexivity. Qed.

Lemma occurrences_app ch (s t : string) :
  occurrences ch (s ++ t) = (occurrences ch s + occurrences ch t)%nat.
Proof.
  induction s as [|c s IH]; [done|].
  rewrite string_app_cons. simpl. rewrite IH. lia.
Qed.

Lemma occurrences_concat ch (sep : string) (xs : list string) :
  occurrences ch sep = 0%nat ->
  Forall (fun s => occurrences ch s = 0%nat) xs ->
  occurrences ch (String.concat sep xs) = 0%nat.
Proof.
  intros Hsep H. induction H as [|x xs Hx Hxs IH]; [done|].
  destruct xs as [|y xs]; [done|].
  change (String.concat sep (x :: y :: xs)) with (x ++ sep ++ String.concat sep (y :: xs)).
  rewrite !occurrences_app, Hx, Hsep, IH. done.
Qed.

(** A text without newline is its own single segment. *)
Lemma split_nl_single (s : string) : occurrences nl_char s = 0%nat -> split_nl s = [s].
Proof.
  induction s as [|c s IH]; simpl; [done|].
  destruct (Ascii.eqb c nl_char); simpl; [done|].
  intros H. by rewrite IH.
Qed.

Lemma digit_eqb_other (a ch : ascii) :
  is_digit_or_minus a = true -> is_digit_or_minus ch = false -> Ascii.eqb a ch = false.
Proof.
  intros Ha Hch. destruct (Ascii.eqb a ch) eqn:E; [|done].
  apply Ascii.eqb_eq in E. congruence.
Qed.

Lemma pretty_N_char_digit (d : N) : is_digit_or_minus (pretty_N_char d) = true.
Proof. unfold pretty_N_char. by repeat case_match. Qed.

Lemma pretty_N_go_occurrences ch (x : N) (s : string) :
  is_digit_or_minus ch = false ->
  occurrences ch (pretty_N_go x s) = occurrences ch s.
Proof.
  intros Hch. revert s. induction (N.lt_wf_0 x) as [x _ IH]; intros s.
  assert (x = 0 \/ 0 < x)%N as [->|Hpos] by lia.
  - by rewrite pretty_N_go_0.
  - rewrite pretty_N_go_step by done. rewrite IH by (by apply N.div_lt).
    simpl. by rewrite (digit_eqb_other _ ch (pretty_N_char_digit _) Hch).
Qed.

Lemma Number_toString_occurrences ch (n : Z) :
  is_digit_or_minus ch = false -> occurrences ch (Number_toString n) = 0%nat.
Proof.
  intros Hch.
  assert (HN : forall x : N, occurrences ch (pretty x) = 0%nat).
  { intros x. unfold pretty, pretty_N. case_decide.
    - by rewrite occurrences_cons, (digit_eqb_other "0" ch).
    - by rewrite pretty_N_go_occurrences. }
  destruct n as [|p|p].
  - apply (HN 0%N).
  - apply (HN (Npos p)).
  - change (occurrences ch ("-" ++ pretty (Npos p)) = 0%nat).
    rewrite occurrences_app, (HN (Npos p)).
    by rewrite occurrences_cons, (digit_eqb_other "-" ch).
Qed.

Lemma JsValue_induction (P : JsValue -> Prop) :
  P JUndefined ->
  P JNull ->
  (forall b, P (JBool b)) ->
  (forall n, P (JNumber n)) ->
  (forall n, P (JBigInt n)) ->
  (forall s, P (JString s)) ->
  (forall d, P (JSymbol d)) ->
  (forall f, P (JFunction f)) ->
  (forall xs, Forall P xs -> P (JArray xs)) ->
  (forall fields, Forall (fun kv => P (snd kv)) fields -> P (JObject fields)) ->
  P JCircular ->
  forall v, P v.
Proof.
  intros Hundef Hnull Hbool Hnum Hbig Hstr Hsym Hfun Harr Hobj Hcirc.
  fix IH 1. intros [| |b|n|n|s|d|f|xs|fields|].
  - exact Hundef.
  - exact Hnull.
  - apply Hbool.
  - apply Hnum.
  - apply Hbig.
  - apply Hstr.
  - apply Hsym.
  - apply Hfun.
  - apply Harr. induction xs as [|x xs IHxs]; constructor; [apply IH | exact IHxs].
  - apply Hobj. induction fields as [|[k x] fields IHf]; constructor; [apply IH | exact IHf].
  - exact Hcirc.
Qed.

Lemma escape_char_no_newline (c : ascii) : occurrences nl_char (escape_char c) = 0%nat.
Proof. destruct c as [[] [] [] [] [] [] [] []]; reflexivity. Qed.

Lemma quoteJSONString_no_newline (s : string) :
  occurrences nl_char (quoteJSONString s) = 0%nat.
Proof.
  unfold quoteJSONString. rewrite !occurrences_app.
  assert (occurrences nl_char (escape_string s) = 0%nat) as ->; [|done].
  induction s as [|c s IH]; [done|].
  simpl. by rewrite occurrences_app, escape_char_no_newline, IH.
Qed.

(** What holds of every result holds of the values of a [sequence]. *)
Lemma sequence_Forall {A} (Q : A -> Prop) (rs : list (Completion A)) :
  Forall (fun r => forall a, r = Normal a -> Q a) rs ->
  forall items, sequence rs = Normal items -> Forall Q items.
Proof.
  induction 1 as [|r rs Hr Hrs IH]; intros items E; simpl in E.
  - injection E as <-. constructor.
  - destruct r as [a|e]; [|done].
    destruct (sequence rs) as [rest|e]; [|done].
    injection E as <-. constructor; [by apply Hr | by apply IH].
Qed.

Lemma members_no_newline (items : list (option string)) :
  Forall (fun o => forall text, o = Some text -> occurrences nl_char text = 0%nat) items ->
  forall keys : list string,
    Forall (fun s => occurrences nl_char s = 0%nat) (members (zip keys items)).
Proof.
  unfold members.
  induction 1 as [|o items Ho Hitems IH]; intros [|k keys]; try constructor.
  cbn [zip zip_with omap list_omap]. destruct o as [text|]; cbn [fmap option_fmap option_map snd fst].
  - constructor; [|apply IH].
    by rewrite !occurrences_app, quoteJSONString_no_newline, (Ho text).
  - apply IH.
Qed.

(** The JSON text of a value never contains a raw newline. *)
Lemma JSON_stringify_no_newline (v : JsValue) :
  forall text, JSON_stringify v = Normal (Some text) -> occurrences nl_char text = 0%nat.
Proof.
  induction v as [| |[]|n|n|s|d|f|xs IH|fields IH|] using JsValue_induction;
    intros text E; try done; try (by injection E as <-).
  - injection E as <-. by apply Number_toString_occurrences.
  - injection E as <-. apply quoteJSONString_no_newline.
  - change (JSON_stringify (JArray xs))
      with (match sequence (List.map JSON_stringify xs) with
            | Normal items =>
                Normal (Some ("[" ++ String.concat "," (List.map (default "null") items)
                                  ++ "]"))
            | Throw e => Throw e
            end) in E.
    destruct (sequence (List.map JSON_stringify xs)) as [items|e] eqn:Es; [|done].
    injection E as <-.
    rewrite !occurrences_app, occurrences_concat; [done..|].
    apply List.Forall_map.
    apply (sequence_Forall (fun o => occurrences nl_char (default "null" o) = 0%nat)
             (List.map JSON_stringify xs)); [|done].
    apply List.Forall_map. eapply List.Forall_impl; [|exact IH].
    intros x Hx [text|] Ex; [by apply Hx | done].
  - change (JSON_stringify (JObject fields))
      with (match sequence (List.map (fun kv => JSON_stringify (snd kv)) fields) with
            | Normal items =>
                Normal (Some ("{" ++ String.concat ","
                                       (members (zip (List.map fst fields) items))
                                  ++ "}"))
            | Throw e => Throw e
            end) in E.
    destruct (sequence (List.map (fun kv => JSON_stringify (snd kv)) fields))
      as [items|e] eqn:Es; [|done].
    injection E as <-.
    rewrite !occurrences_app, occurrences_concat; [done..|].
    apply members_no_newline.
    apply (sequence_Forall
             (fun o => forall text, o = Some text -> occurrences nl_char text = 0%nat)
             (List.map (fun kv => JSON_stringify (snd kv)) fields)); [|done].
    apply List.Forall_map. eapply List.Forall_impl; [|exact IH].
    intros kv Hkv o Eo text ->. by apply Hkv.
Qed.

Lemma frame_truthy_header (e : SSEEvent) (text : string) :
  frame_truthy e text = header_lines e ++ data_lines (split_nl text) ++ nl.
Proof.
  destruct e as [label data i r].
  unfold frame_truthy, header_lines, truthy_string, truthy_number.
  cbn [ev_id ev_event ev_retry ev_data].
  generalize (data_lines (split_nl text)). intros lines.
  destruct i as [i|], r as [r|]; cbn [from_option negb]; unfold Datatypes.id;
    repeat match goal with
           | |- context [String.eqb ?a ""] => destruct (String.eqb a ""); cbn [negb]
           | |- context [?a =? 0] => destruct (a =? 0); cbn [negb]
           end;
    by rewrite ?string_app_assoc, ?string_app_nil_l.
Qed.

(** A payload that is not a string and has a JSON text goes out on one
    [data:] line, however it is nested and whatever its strings contain:
    the JSON text has no raw newline, so the frame is the field lines, that
    single line and the blank line. *)
Theorem structured_payload_is_one_data_line (e : SSEEvent) (text : string) :
  (forall s, ev_data e <> JString s) ->
  JSON_stringify (ev_data e) = Normal (Some text) ->
  occurrences nl_char text = 0%nat
  /\ formatEvent e = Normal (header_lines e ++ ("data: " ++ text ++ nl) ++ nl).
Proof.
  intros Hdata Htext.
  pose proof (JSON_stringify_no_newline _ _ Htext) as Hnl. split; [done|].
  assert (has_text (ev_data e) text) as H.
  { unfold has_text. rewrite <- Htext. destruct (ev_data e); try done. by destruct (Hdata s). }
  rewrite (formatEvent_frame_truthy e text H), frame_truthy_header.
  rewrite split_nl_single by done.
  simpl. by rewrite string_app_nil_r.
Qed.

Lemma structured_payload_is_one_data_line_witness :
  (forall s, ev_data (heartbeat 46000) <> JString s)
  /\ JSON_stringify (ev_data (heartbeat 46000))
     = Normal (Some ("{" ++ dquote ++ "timestamp" ++ dquote ++ ":46000}"))
  /\ formatEvent (heartbeat 46000)
     = Normal (header_lines (heartbeat 46000)
               ++ ("data: " ++ ("{" ++ dquote ++ "timestamp" ++ dquote ++ ":46000}") ++ nl)
               ++ nl).
Proof.
  assert (H : forall s, ev_data (heartbeat 46000) <> JString s) by (intros s; discriminate).
  assert (H' : JSON_stringify (ev_data (heartbeat 46000))
               = Normal (Some ("{" ++ dquote ++ "timestamp" ++ dquote ++ ":46000}")))
    by (vm_compute; reflexivity).
  split; [exact H|]. split; [exact H'|].
  exact (proj2 (structured_payload_is_one_data_line (heartbeat 46000) _ H H')).
Defined.

(** A string payload goes out on as many [data:] lines as it has newlines,
    plus one. *)
Lemma split_nl_length (s : string) : length (split_nl s) = S (occurrences nl_char s).
Proof.
  induction s as [|c s IH]; simpl; [done|].
  destruct (Ascii.eqb c nl_char); simpl; [by rewrite IH|].
  pose proof (split_nl_nonempty s) as Hne.
  destruct (split_nl s) as [|seg segs]; [done|]. simpl in *. lia.
Qed.

(** ** Client ids *)

Lemma app_separator_inj (sep : ascii) (a a' b b' : string) :
  occurrences sep a = 0%nat -> occurrences sep a' = 0%nat ->
  a ++ String sep b = a' ++ String sep b' -> a = a' /\ b = b'.
Proof.
  revert a'. induction a as [|c a IH]; intros [|c' a'] Ha Ha' E.
  - by injection E.
  - rewrite string_app_cons in E. injection E as <- _.
    rewrite occurrences_cons, Ascii.eqb_refl in Ha'. done.
  - rewrite string_app_cons in E. injection E as -> _.
    rewrite occurrences_cons, Ascii.eqb_refl in Ha. done.
  - rewrite !string_app_cons in E. injection E as -> E.
    rewrite occurrences_cons in Ha, Ha'.
    destruct (IH a') as (-> & ->); [lia | lia | done | done].
Qed.

(** Two registrations get the same id only if they read the same clock
    value and draw the same random suffix. *)
Lemma generateClientId_inj (now now' : Z) (rnd rnd' : string) :
  generateClientId now rnd = generateClientId now' rnd' ->
  now = now' /\ rnd = rnd'.
Proof.
  unfold generateClientId. intros E.
  change ("rt_" ++ Number_toString now ++ "_" ++ rnd)
    with (String "r" (String "t" (String "_" (Number_toString now ++ String "_" rnd)))) in E.
  change ("rt_" ++ Number_toString now' ++ "_" ++ rnd')
    with (String "r" (String "t" (String "_" (Number_toString now' ++ String "_" rnd')))) in E.
  injection E as E.
  apply app_separator_inj in E as (E & ->); [|by apply Number_toString_occurrences..].
  split; [|done]. by apply (inj pretty).
Qed.

(** Ids are told apart by the clock value or by the random suffix. *)
Theorem distinct_registrations_get_distinct_ids (now now' : Z) (rnd rnd' : string) :
  now <> now' \/ rnd <> rnd' ->
  generateClientId now rnd <> generateClientId now' rnd'.
Proof. intros H E. apply generateClientId_inj in E as (-> & ->). by destruct H. Qed.

Lemma distinct_registrations_get_distinct_ids_witness :
  (1000 <> 2000 \/ "a1" <> "a1")
  /\ generateClientId 1000 "a1" <> generateClientId 2000 "a1".
Proof.
  assert (H : 1000 <> 2000 \/ "a1" <> "a1") by (left; discriminate).
  split; [exact H|].
  exact (distinct_registrations_get_distinct_ids 1000 2000 "a1" "a1" H).
Defined.

(** * The module-level engine *)

Lemma attach_detach w p : attach (engine_of w) (detach w p) = w.
Proof. by destruct w. Qed.

Lemma detach_attach e p : eventService p = Some e -> detach (attach e p) p = p.
Proof. destruct p, e. simpl. by intros ->. Qed.

Lemma call_Some {A} (method : M A) e p :
  eventService p = Some e ->
  Notifications.call method p
  = (fst (method (attach e p)), detach (snd (method (attach e p))) p).
Proof.
  intros H. unfold Notifications.call, Notifications.getEventService. rewrite H.
  by destruct (method (attach e p)).
Qed.

Lemma writable_same_streams w1 w2 r :
  streams w1 = streams w2 -> writable w1 r = writable w2 r.
Proof. unfold writable. by intros ->. Qed.

Lemma destroy_pingInterval_timers w :
  pingInterval (exec destroy w) = pingInterval w
  /\ timers (exec destroy w)
     = match pingInterval w with
       | Some h => List.filter (fun h' => negb (h' =? h)%nat) (timers w)
       | None => timers w
       end.
Proof.
  unfold exec. rewrite destroy_steps. cbn [snd].
  match goal with
  | |- context [fold_left destroy_step ?ks ?w1] =>
      destruct (destroy_fold_frame ks w1) as (Hp & Ht & _)
  end.
  change (pingInterval (with_clients JsMap.clear ?x)) with (pingInterval x).
  change (timers (with_clients JsMap.clear ?x)) with (timers x).
  rewrite Hp, Ht. clear Hp Ht.
  destruct (pingInterval w) as [h|] eqn:E; simpl; by rewrite ?E.
Qed.

Lemma existsb_snoc {A} (f : A -> bool) (l : list A) (x : A) :
  existsb f (l ++ [x]) = existsb f l || f x.
Proof. rewrite existsb_app. simpl. by rewrite orb_false_r. Qed.

(** [initializeSSE] replaces the engine.  The new one has the given
    configuration, no clients, zeroed counters and its own armed interval.
    If there was an engine before, it has been torn down: its interval is
    disarmed and the stream of every client it had is closed; none of its
    clients is carried over. *)
Theorem initializeSSE_replaces_engine (c : SSEConfig) (p : Program) :
  timer_known p ->
  let e' := fst (Notifications.initializeSSE c p) in
  let p' := snd (Notifications.initializeSSE c p) in
  eventService p' = Some e'
  /\ e_clients e' = []
  /\ e_totalEventsSent e' = 0%nat
  /\ e_lastEventTime e' = None
  /\ e_config e' = config (EventService_new c)
  /\ heartbeatArmed (attach e' p') = true
  /\ timer_known p'
  /\ (forall e,
         eventService p = Some e ->
         heartbeatArmed (attach e p') = false
         /\ forall k cl, JsMap.get k (e_clients e) = Some cl ->
                         writable (attach e' p') (controller cl) = false).
Proof.
  intros Hknown e' p'. subst e' p'. unfold Notifications.initializeSSE, newEventService.
  cbn [fst snd eventService e_clients e_totalEventsSent e_lastEventTime e_config].
  split; [done|]. split; [done|]. split; [done|]. split; [done|]. split; [done|].
  split.
  { unfold heartbeatArmed, attach. simpl. rewrite existsb_snoc, Nat.eqb_refl.
    apply orb_true_r. }
  split; [unfold timer_known; simpl; lia|].
  intros e He. rewrite He. unfold timer_known in Hknown. rewrite He in Hknown.
  destruct (destroy_pingInterval_timers (attach e p)) as (Hp & Ht).
  split.
  - unfold heartbeatArmed, attach, detach. simpl. fold (attach e p).
    rewrite Ht. simpl.
    destruct (e_pingInterval e) as [h|]; [|done].
    rewrite existsb_snoc, cleared_not_armed. simpl.
    apply Nat.eqb_neq. lia.
  - intros k cl Hget.
    rewrite <- (destroy_releases (attach e p) k cl Hget).
    by apply writable_same_streams.
Qed.

Lemma initializeSSE_replaces_engine_witness :
  timer_known (snd (Notifications.call (createConnection alice "a1" 1000) initialProgram))
  /\ e_clients (fst (Notifications.initializeSSE defaultConfig
                      (snd (Notifications.call (createConnection alice "a1" 1000)
                                               initialProgram)))) = [].
Proof.
  assert (H : timer_known
                (snd (Notifications.call (createConnection alice "a1" 1000) initialProgram)))
    by (vm_compute; lia).
  split; [exact H|].
  exact (proj1 (proj2 (initializeSSE_replaces_engine defaultConfig _ H))).
Defined.

(** After [cleanupSSE] there is no engine and every stream of the old one
    is closed.  A notification sent then makes a new engine with the
    default configuration, finds nobody registered and reports 0: the
    clients that were connected before the cleanup are not reached. *)
Theorem notifyUser_after_cleanupSSE (u : string) (event : SSEEvent) (now : Z) (p : Program) :
  let p0 := Notifications.cleanupSSE p in
  let r := Notifications.notifyUser u event now p0 in
  eventService p0 = None
  /\ (forall e k cl st,
         eventService p = Some e -> JsMap.get k (e_clients e) = Some cl ->
         heap p0 !! controller cl = Some st -> canCloseOrEnqueue st = false)
  /\ fst r = Normal 0%nat
  /\ exists e', eventService (snd r) = Some e'
                /\ e_clients e' = []
                /\ e_config e' = config (EventService_new defaultConfig)
                /\ heartbeatArmed (attach e' (snd r)) = true.
Proof.
  intros p0 r.
  assert (Hnone : eventService p0 = None).
  { unfold p0, Notifications.cleanupSSE. by destruct (eventService p) eqn:E. }
  split; [done|]. split.
  { intros e k cl st He Hget Hst. unfold p0, Notifications.cleanupSSE in Hst.
    rewrite He in Hst. simpl in Hst.
    pose proof (destroy_releases (attach e p) k cl Hget) as Hw.
    unfold writable in Hw. by rewrite Hst in Hw. }
  unfold r, Notifications.notifyUser, Notifications.call, Notifications.getEventService.
  rewrite Hnone. unfold newEventService. cbn [fst snd].
  set (e := mkEngine [] (Some (timersCreated p0)) 0 None (config (EventService_new defaultConfig))).
  set (p1 := mkProgram (Some e) (heap p0) (armed p0 ++ [timersCreated p0]) (S (timersCreated p0))).
  assert (Hsend : sendToUser u event now (attach e p1) = (Normal 0%nat, attach e p1)) by done.
  rewrite Hsend. cbn [fst snd]. split; [done|].
  exists e. split; [done|]. split; [done|]. split; [done|].
  unfold heartbeatArmed, attach. simpl. rewrite existsb_snoc, Nat.eqb_refl.
  apply orb_true_r.
Qed.

(** * The route handlers *)

Lemma params_get_app name (l1 l2 : list (string * string)) :
  Routes.params_get name (l1 ++ l2)
  = match Routes.params_get name l1 with
    | Some v => Some v
    | None => Routes.params_get name l2
    end.
Proof.
  induction l1 as [|[k v] l1 IH]; simpl; [done|].
  by destruct (String.eqb k name).
Qed.

Lemma params_last_cons name k v (ps : list (string * string)) :
  params_last name ((k, v) :: ps)
  = match params_last name ps with
    | Some v' => Some v'
    | None => if String.eqb k name then Some v else None
    end.
Proof. unfold params_last. simpl. by rewrite params_get_app. Qed.

Lemma fromEntries_fold (entries : list (string * string)) :
  forall (m : gmap string string) name,
    fold_left (fun m kv => <[fst kv := snd kv]> m) entries m !! name
    = match params_last name entries with
      | Some v => Some v
      | None => m !! name
      end.
Proof.
  induction entries as [|[k v] entries IH]; intros m name; [done|].
  simpl. rewrite IH, params_last_cons.
  destruct (params_last name entries); [done|].
  destruct (String.eqb_spec k name) as [->|Hne]; simpl.
  - by rewrite lookup_insert_eq.
  - by rewrite lookup_insert_ne.
Qed.

(** [fromEntries] keeps, for each key, the last value given. *)
Lemma fromEntries_lookup (entries : list (string * string)) name :
  Routes.fromEntries entries !! name = params_last name entries.
Proof.
  unfold Routes.fromEntries. rewrite fromEntries_fold, lookup_empty.
  by destruct (params_last name entries).
Qed.

Lemma params_last_other_params reserved name (ps : list (string * string)) :
  params_last name (Routes.other_params reserved ps)
  = if existsb (String.eqb name) reserved then None else params_last name ps.
Proof.
  induction ps as [|[k v] ps IH]; simpl.
  - by destruct (existsb _ reserved).
  - rewrite params_last_cons.
    destruct (existsb (String.eqb k) reserved) eqn:Ek; simpl.
    + rewrite IH. destruct (existsb (String.eqb name) reserved) eqn:En; [done|].
      destruct (params_last name ps); [done|].
      destruct (String.eqb_spec k name) as [->|Hne]; [congruence | done].
    + rewrite params_last_cons, IH.
      destruct (existsb (String.eqb name) reserved) eqn:En; [|done].
      destruct (String.eqb_spec k name) as [->|Hne]; [congruence | done].
Qed.

Lemma or_undefined_cases (o : option string) (P : string -> Prop) :
  match Routes.or_undefined o with
  | None => True
  | Some u => u = "" \/ P u
  end
  <-> forall u, o = Some u -> u = "" \/ P u.
Proof.
  unfold Routes.or_undefined. destruct o as [u|]; simpl; [|done].
  destruct (String.eqb_spec u "") as [->|Hne]; simpl.
  - split; [|done]. intros _ u [= <-]. by left.
  - split; [by intros H u' [= <-] | by intros H; apply H].
Qed.

(** [GET /api/sse/clients] answers with the summaries of the registered
    clients, in registry order, that pass every condition the query
    states: their id is in the comma-separated [clientIds], if that is
    given; their [userId] and [sessionId] are the ones given, if given and
    not empty; and for every other name in the query their metadata has the
    last value given for it. *)
Theorem listClients_answers (ps : list (string * string)) (p : Program) (c : SSEClient) :
  let e := fst (Notifications.getEventService p) in
  let p1 := snd (Notifications.getEventService p) in
  Routes.listClients ps p
  = (Routes.ClientList
       (List.map Routes.summary
          (List.filter (selects (Routes.clientsFilter ps)) (JsMap.values (e_clients e)))),
     p1)
  /\ (selects (Routes.clientsFilter ps) c = true
      <-> (forall ids, Routes.params_get "clientIds" ps = Some ids ->
                       In (id c) (Routes.split_comma ids))
          /\ (forall u, Routes.params_get "userId" ps = Some u ->
                        u = "" \/ userId c = Some u)
          /\ (forall s, Routes.params_get "sessionId" ps = Some s ->
                        s = "" \/ sessionId c = Some s)
          /\ (forall name v,
                 name <> "userId" -> name <> "sessionId" -> name <> "clientIds" ->
                 params_last name ps = Some v -> metadata_get c name = Some v)).
Proof.
  intros e p1. subst e p1. split.
  - unfold Routes.listClients, Notifications.getActiveClients.
    by destruct (Notifications.getEventService p) as [e p1].
  - rewrite selects_matches_truthy. unfold matches_truthy, Routes.clientsFilter.
    cbn [f_clientIds f_userId f_sessionId f_metadata].
    rewrite (or_undefined_cases _ (fun u => userId c = Some u)).
    rewrite (or_undefined_cases _ (fun s => sessionId c = Some s)).
    assert (Hids : match Routes.split_comma <$> Routes.params_get "clientIds" ps with
                   | Some ids => In (id c) ids
                   | None => True
                   end
                   <-> forall ids, Routes.params_get "clientIds" ps = Some ids ->
                                   In (id c) (Routes.split_comma ids)).
    { destruct (Routes.params_get "clientIds" ps) as [ids|]; simpl; [|done].
      split; [by intros H ids' [= <-] | by intros H; apply H]. }
    rewrite Hids.
    assert (Hmeta : (forall k v,
                        Routes.fromEntries
                          (Routes.other_params ["userId"; "sessionId"; "clientIds"] ps) !! k
                        = Some v -> metadata_get c k = Some v)
                    <-> forall name v,
                        name <> "userId" -> name <> "sessionId" -> name <> "clientIds" ->
                        params_last name ps = Some v -> metadata_get c name = Some v).
    { split.
      - intros H name v H1 H2 H3 Hlast. apply H.
        rewrite fromEntries_lookup, params_last_other_params. simpl.
        apply String.eqb_neq in H1, H2, H3. by rewrite H1, H2, H3.
      - intros H name v Hl. rewrite fromEntries_lookup, params_last_other_params in Hl.
        simpl in Hl.
        destruct (String.eqb_spec name "userId"); [done|].
        destruct (String.eqb_spec name "sessionId"); [done|].
        destruct (String.eqb_spec name "clientIds"); [done|].
        by apply H. }
    rewrite Hmeta. done.
Qed.

Lemma other_params_no_clientIds (ps : list (string * string)) :
  Routes.params_get "clientIds" ps = None ->
  Routes.other_params ["userId"; "sessionId"; "clientIds"] ps
  = Routes.other_params ["userId"; "sessionId"] ps.
Proof.
  induction ps as [|[k v] ps IH]; simpl; [done|].
  destruct (String.eqb k "clientIds") eqn:E; [done|]. intros H.
  rewrite !orb_false_r, IH by done. done.
Qed.

Lemma getEventService_spec (p : Program) :
  let e := fst (Notifications.getEventService p) in
  let p0 := snd (Notifications.getEventService p) in
  eventService p0 = Some e
  /\ (has_room p -> (JsMap.size (e_clients e) < maxClients (e_config e))%nat).
Proof.
  unfold Notifications.getEventService, has_room.
  destruct (eventService p) as [e|] eqn:E; simpl; [done|].
  split; [done|]. intros _. lia.
Qed.

(** The loop [metadata[key] = value] keeps every pair but those named
    [__proto__]. *)
Lemma assignEntries_fold (es : list (string * string)) :
  forall m : gmap string string,
    fold_left (fun m kv => assign (fst kv) (snd kv) m) es (delete "__proto__" m)
    = delete "__proto__" (fold_left (fun m kv => <[fst kv := snd kv]> m) es m).
Proof.
  induction es as [|[k v] es IH]; intros m; [done|].
  cbn [fold_left fst snd]. unfold assign at 2.
  destruct (String.eqb_spec k "__proto__") as [->|Hne].
  - rewrite <- IH. by rewrite delete_insert_eq.
  - rewrite <- IH. by rewrite delete_insert_ne.
Qed.

Lemma assignEntries_delete (es : list (string * string)) :
  Routes.assignEntries es = delete "__proto__" (Routes.fromEntries es).
Proof.
  unfold Routes.assignEntries, Routes.fromEntries.
  rewrite <- assignEntries_fold. by rewrite delete_empty.
Qed.

Lemma fromEntries_no_key (name : string) (reserved : list string)
    (ps : list (string * string)) :
  Routes.params_get name ps = None ->
  Routes.fromEntries (Routes.other_params reserved ps) !! name = None.
Proof.
  intros H. rewrite fromEntries_lookup, params_last_other_params.
  destruct (existsb (String.eqb name) reserved); [done|].
  unfold params_last. clear reserved.
  assert (Hall : forall qs, Forall (fun kv => fst kv <> name) qs ->
                            Routes.params_get name qs = None).
  { induction 1 as [|[k v] qs Hk Hqs IHq]; [done|]. simpl in *.
    by destruct (String.eqb_spec k name). }
  apply Hall, Forall_rev. clear Hall.
  induction ps as [|[k v] ps IH]; [constructor|]. simpl in H.
  destruct (String.eqb_spec k name); [done|]. constructor; [done | by apply IH].
Qed.

(** A client that connects through [GET /api/sse] with a query that has
    no [clientIds] and no pair named [__proto__] is listed by
    [GET /api/sse/clients] under the same query: its summary carries the
    new id, the [userId] and [sessionId] of the query and, as metadata, all
    the other pairs. *)
Theorem connect_then_listClients (ps : list (string * string)) (rnd : string) (now : Z)
    (p : Program) :
  has_room p ->
  Routes.params_get "clientIds" ps = None ->
  Routes.params_get "__proto__" ps = None ->
  exists response p1 listed s,
    Routes.connect ps rnd now p = (Routes.EventStream response, p1)
    /\ Routes.listClients ps p1 = (Routes.ClientList listed, p1)
    /\ In s listed
    /\ Routes.s_id s = generateClientId now rnd
    /\ Routes.s_userId s = Routes.or_undefined (Routes.params_get "userId" ps)
    /\ Routes.s_sessionId s = Routes.or_undefined (Routes.params_get "sessionId" ps)
    /\ Routes.s_metadata s
       = Some (Routes.fromEntries (Routes.other_params ["userId"; "sessionId"] ps)).
Proof.
  intros Hroom Hnoids Hnoproto.
  assert (Hmd : Routes.assignEntries (Routes.other_params ["userId"; "sessionId"] ps)
                = Routes.fromEntries (Routes.other_params ["userId"; "sessionId"] ps)).
  { rewrite assignEntries_delete. apply delete_id. by apply fromEntries_no_key. }
  destruct (getEventService_spec p) as (He & Hsize). specialize (Hsize Hroom).
  unfold Routes.connect, Notifications.call.
  destruct (Notifications.getEventService p) as [e p0]. cbn [fst snd] in He, Hsize.
  rewrite (createConnection_ok _ rnd now (attach e p0)) by done.
  set (w1 := registered (Routes.connectOptions ps) rnd now (attach e p0)).
  set (c := newClient (Routes.connectOptions ps) rnd now (attach e p0)).
  exists (mkResponse (length (streams (attach e p0))) sseHeaders), (detach w1 p0).
  exists (List.map Routes.summary
            (List.filter (selects (Routes.clientsFilter ps)) (JsMap.values (clients w1)))).
  exists (Routes.summary c).
  split; [done|]. split.
  { unfold Routes.listClients, Notifications.getActiveClients, Notifications.getEventService.
    cbn [detach eventService]. unfold getClientsByFilter.
    change (mkProgram (Some (engine_of w1)) (streams w1) (timers w1) (timersCreated p0))
      with (detach w1 p0).
    by rewrite attach_detach. }
  split; [|cbn; by rewrite Hmd].
  apply in_map, filter_In. split.
  - apply (get_Some_value (id c)). unfold w1, registered.
    rewrite clients_delivered, clients_with_clients. apply get_set_eq.
  - apply selects_matches_truthy. unfold matches_truthy, Routes.clientsFilter.
    cbn [f_clientIds f_userId f_sessionId f_metadata]. rewrite Hnoids. simpl.
    split; [done|]. split; [|split].
    + destruct (Routes.or_undefined (Routes.params_get "userId" ps)); [by right | done].
    + destruct (Routes.or_undefined (Routes.params_get "sessionId" ps)); [by right | done].
    + intros k v Hk. unfold metadata_get. simpl. rewrite Hmd.
      by rewrite other_params_no_clientIds in Hk.
Qed.

(** With a pair named [__proto__] in the query the client is registered
    without it, and the list route, which keeps the pair in its filter, does
    not find the client under the same query. *)
Example connect_with_proto_pair_is_not_listed :
  let ps := [("__proto__", "x")] in
  let p1 := snd (Routes.connect ps "a1" 1000 initialProgram) in
  fst (Routes.listClients ps p1) = Routes.ClientList []
  /\ (exists s, fst (Routes.listClients [] p1) = Routes.ClientList [s]
                /\ Routes.s_metadata s = Some ∅).
Proof.
  split; [vm_compute; reflexivity|].
  eexists. split; vm_compute; reflexivity.
Qed.

Lemma connect_then_listClients_witness :
  has_room initialProgram
  /\ Routes.params_get "clientIds" [("userId", "alice"); ("role", "admin")] = None
  /\ Routes.params_get "__proto__" [("userId", "alice"); ("role", "admin")] = None
  /\ exists response p1 listed s,
      Routes.connect [("userId", "alice"); ("role", "admin")] "a1" 1000 initialProgram
      = (Routes.EventStream response, p1)
      /\ Routes.listClients [("userId", "alice"); ("role", "admin")] p1
         = (Routes.ClientList listed, p1)
      /\ In s listed
      /\ Routes.s_id s = generateClientId 1000 "a1".
Proof.
  assert (H1 : has_room initialProgram) by exact I.
  assert (H2 : Routes.params_get "clientIds" [("userId", "alice"); ("role", "admin")] = None)
    by reflexivity.
  assert (H3 : Routes.params_get "__proto__" [("userId", "alice"); ("role", "admin")] = None)
    by reflexivity.
  split; [exact H1|]. split; [exact H2|]. split; [exact H3|].
  destruct (connect_then_listClients [("userId", "alice"); ("role", "admin")] "a1" 1000
              initialProgram H1 H2 H3) as (response & p1 & listed & s & R1 & R2 & R3 & R4 & _).
  exists response, p1, listed, s. split; [exact R1|]. split; [exact R2|].
  split; [exact R3 | exact R4].
Defined.

(** When the registry is full, [GET /api/sse] answers 500 with the text
    "Internal Server Error" and changes nothing: no stream is opened and
    nobody is registered. *)
Theorem connect_at_capacity (ps : list (string * string)) (rnd : string) (now : Z)
    (p : Program) (e : Engine) :
  eventService p = Some e ->
  (maxClients (e_config e) <= JsMap.size (e_clients e))%nat ->
  Routes.connect ps rnd now p = (Routes.Failure 500 "Internal Server Error", p).
Proof.
  intros He Hfull. unfold Routes.connect.
  rewrite (call_Some _ e p He).
  rewrite (createConnection_full _ rnd now (attach e p)) by done.
  cbn [fst snd]. by rewrite detach_attach.
Qed.

Lemma connect_at_capacity_witness :
  let p := snd (Notifications.initializeSSE (mkSSEConfig None None (Some 0%nat) None)
                                            initialProgram) in
  Routes.connect [("userId", "alice")] "a1" 1000 p
  = (Routes.Failure 500 "Internal Server Error", p).
Proof.
  apply (connect_at_capacity [("userId", "alice")] "a1" 1000 _
           (fst (Notifications.initializeSSE (mkSSEConfig None None (Some 0%nat) None)
                                             initialProgram))).
  - reflexivity.
  - vm_compute. lia.
Defined.

(** * The hook's query *)

Lemma params_get_get name (ps : list (string * string)) :
  Routes.params_get name ps = JsMap.get name ps.
Proof.
  induction ps as [|[k v] ps IH]; simpl; [done|].
  by rewrite (String.eqb_sym k name), IH.
Qed.

Lemma get_fold_set (entries : list (string * string)) :
  forall (base : list (string * string)) name,
    JsMap.get name (fold_left (fun ps kv => JsMap.set (fst kv) (snd kv) ps) entries base)
    = match params_last name entries with
      | Some v => Some v
      | None => JsMap.get name base
      end.
Proof.
  induction entries as [|[k v] entries IH]; intros base name; [done|].
  simpl. rewrite IH, params_last_cons.
  destruct (params_last name entries); [done|].
  destruct (String.eqb_spec k name) as [->|Hne].
  - apply get_set_eq.
  - by apply get_set_ne.
Qed.

Lemma NoDup_keys_fold_set (entries base : list (string * string)) :
  NoDup (JsMap.keys base) ->
  NoDup (JsMap.keys (fold_left (fun ps kv => JsMap.set (fst kv) (snd kv) ps) entries base)).
Proof.
  revert base. induction entries as [|[k v] entries IH]; intros base H; [done|].
  simpl. apply IH. by apply NoDup_keys_set.
Qed.

Lemma params_last_NoDup name (ps : list (string * string)) :
  NoDup (JsMap.keys ps) -> params_last name ps = JsMap.get name ps.
Proof.
  unfold JsMap.keys. induction ps as [|[k v] ps IH]; [done|].
  simpl. intros Hnd. apply NoDup_cons in Hnd as (Hnotin & Hnd).
  rewrite list_elem_of_In in Hnotin.
  rewrite params_last_cons, IH by done.
  destruct (String.eqb_spec name k) as [->|Hne].
  - rewrite String.eqb_refl.
    destruct (JsMap.get k ps) as [v'|] eqn:E; [|done].
    exfalso. apply Hnotin. by eapply get_Some_key.
  - apply not_eq_sym in Hne. apply String.eqb_neq in Hne. rewrite Hne.
    by destruct (JsMap.get name ps).
Qed.

Lemma NoDup_keys_map_to_list (m : gmap string string) :
  NoDup (JsMap.keys (map_to_list m)).
Proof.
  unfold JsMap.keys.
  assert (E : forall l : list (string * string), List.map fst l = l.*1).
  { induction l as [|x l IH]; simpl; [done | by f_equal]. }
  rewrite E. apply NoDup_fst_map_to_list.
Qed.

Lemma get_map_to_list (m : gmap string string) name :
  JsMap.get name (map_to_list m) = m !! name.
Proof.
  pose proof (NoDup_keys_map_to_list m) as Hnd.
  destruct (m !! name) as [v|] eqn:E.
  - apply In_get_Some; [done|]. apply list_elem_of_In. by apply elem_of_map_to_list.
  - destruct (JsMap.get name (map_to_list m)) as [v|] eqn:G; [|done].
    apply get_Some_In, list_elem_of_In, elem_of_map_to_list in G. congruence.
Qed.

(** What the hook puts in the query is what the route registers, but for
    one name: if the hook's metadata uses neither of the names [userId] and
    [sessionId], the registration options that [GET /api/sse] reads off the
    hook's pairs are the hook's non-empty [userId] and [sessionId] and its
    metadata without the pair named [__proto__], if it has one. *)
Theorem hook_query_registers_hook_options (options : Hook.SSEHookOptions) :
  default ∅ (Hook.h_metadata options) !! "userId" = None ->
  default ∅ (Hook.h_metadata options) !! "sessionId" = None ->
  Routes.connectOptions (Hook.buildParams options)
  = {| o_userId := Routes.or_undefined (Hook.h_userId options);
       o_sessionId := Routes.or_undefined (Hook.h_sessionId options);
       o_metadata := Some (delete "__proto__" (default ∅ (Hook.h_metadata options))) |}.
Proof.
  intros Hu Hs. unfold Hook.buildParams.
  set (md := default ∅ (Hook.h_metadata options)) in *.
  set (base := if truthy_string (Hook.h_sessionId options) then _ else _).
  assert (Hbase : NoDup (JsMap.keys base)).
  { unfold base. destruct (truthy_string (Hook.h_sessionId options)),
      (truthy_string (Hook.h_userId options)); repeat apply NoDup_keys_set; apply NoDup_nil_2. }
  assert (Hget : forall name,
             JsMap.get name (fold_left (fun ps kv => JsMap.set (fst kv) (snd kv) ps)
                                       (map_to_list md) base)
             = match md !! name with Some v => Some v | None => JsMap.get name base end).
  { intros name. rewrite get_fold_set, params_last_NoDup, get_map_to_list; [done|].
    apply NoDup_keys_map_to_list. }
  assert (HbaseU : Routes.or_undefined (JsMap.get "userId" base)
                   = Routes.or_undefined (Hook.h_userId options)).
  { unfold base, Routes.or_undefined, truthy_string.
    destruct (Hook.h_userId options) as [u|], (Hook.h_sessionId options) as [s|]; cbn;
      repeat (match goal with
              | |- context [String.eqb ?a ""] => destruct (String.eqb a "") eqn:?; cbn
              end);
      congruence. }
  assert (HbaseS : Routes.or_undefined (JsMap.get "sessionId" base)
                   = Routes.or_undefined (Hook.h_sessionId options)).
  { unfold base, Routes.or_undefined, truthy_string.
    destruct (Hook.h_userId options) as [u|], (Hook.h_sessionId options) as [s|]; cbn;
      repeat (match goal with
              | |- context [String.eqb ?a ""] => destruct (String.eqb a "") eqn:?; cbn
              end);
      congruence. }
  assert (HbaseO : forall name, name <> "userId" -> name <> "sessionId" ->
                                JsMap.get name base = None).
  { intros name H1 H2. apply String.eqb_neq in H1, H2. unfold base.
    destruct (truthy_string (Hook.h_sessionId options)),
      (truthy_string (Hook.h_userId options)); simpl; by rewrite ?H1, ?H2. }
  unfold Routes.connectOptions. f_equal.
  - by rewrite params_get_get, Hget, Hu.
  - by rewrite params_get_get, Hget, Hs.
  - f_equal. rewrite assignEntries_delete. apply map_eq. intros name.
    destruct (decide (name = "__proto__")) as [->|Hp];
      [by rewrite !lookup_delete_eq|].
    rewrite !lookup_delete_ne by done.
    rewrite fromEntries_lookup, params_last_other_params. simpl.
    destruct (String.eqb_spec name "userId") as [->|H1]; [done|].
    destruct (String.eqb_spec name "sessionId") as [->|H2]; [done|]. simpl.
    rewrite params_last_NoDup by (by apply NoDup_keys_fold_set).
    rewrite Hget, HbaseO by done. by destruct (md !! name).
Qed.

Lemma hook_query_registers_hook_options_witness :
  default ∅ (Some (<["__proto__" := "x"]> {["role" := "admin"]} : gmap string string))
    !! "userId" = None
  /\ Routes.connectOptions
       (Hook.buildParams
          (Hook.mkHookOptions (Some "alice") None
                              (Some (<["__proto__" := "x"]> {["role" := "admin"]}))
                              None None None))
     = {| o_userId := Some "alice"; o_sessionId := None;
          o_metadata := Some {["role" := "admin"]} |}.
Proof.
  assert (H1 : default ∅ (Some (<["__proto__" := "x"]> {["role" := "admin"]}
                                : gmap string string)) !! "userId" = None)
    by (vm_compute; reflexivity).
  assert (H2 : default ∅ (Some (<["__proto__" := "x"]> {["role" := "admin"]}
                                : gmap string string)) !! "sessionId" = None)
    by (vm_compute; reflexivity).
  split; [exact H1|].
  etrans;
    [exact (hook_query_registers_hook_options
              (Hook.mkHookOptions (Some "alice") None
                                  (Some (<["__proto__" := "x"]> {["role" := "admin"]}))
                                  None None None) H1 H2)
    |vm_compute; reflexivity].
Defined.

(** * Witnesses and the registry invariant *)

Lemma streams_only_grow_witness :
  streams world_a !! 0%nat
  = Some (mkStream true [frameOf (connectedEvent "rt_1000_a1" 1000)] "rt_1000_a1")
  /\ exists st',
      streams (run [SendToClient "rt_1000_a1" (note "hello") 1500; CancelStream 0%nat] world_a)
        !! 0%nat = Some st'
      /\ [frameOf (connectedEvent "rt_1000_a1" 1000)] `prefix_of` chunks st'
      /\ cancelFor st' = "rt_1000_a1"
      /\ (canCloseOrEnqueue st' = true -> true = true).
Proof.
  assert (H : streams world_a !! 0%nat
              = Some (mkStream true [frameOf (connectedEvent "rt_1000_a1" 1000)]
                               "rt_1000_a1")) by (vm_compute; reflexivity).
  split; [exact H|].
  exact (streams_only_grow world_a 0 _
           [SendToClient "rt_1000_a1" (note "hello") 1500; CancelStream 0%nat] H).
Defined.

Lemma closed_stream_is_final_witness :
  streams world_gone !! 0%nat
  = Some (mkStream false [frameOf (connectedEvent "rt_1000_a1" 1000)] "rt_1000_a1")
  /\ streams (run [SendToClient "rt_1000_a1" (note "hello") 1500; TimerFires 46000 46000;
                   DisconnectClient "rt_1000_a1"] world_gone) !! 0%nat
     = Some (mkStream false [frameOf (connectedEvent "rt_1000_a1" 1000)] "rt_1000_a1").
Proof.
  assert (H : streams world_gone !! 0%nat
              = Some (mkStream false [frameOf (connectedEvent "rt_1000_a1" 1000)]
                               "rt_1000_a1")) by (vm_compute; reflexivity).
  split; [exact H|].
  exact (closed_stream_is_final world_gone 0 _
           [SendToClient "rt_1000_a1" (note "hello") 1500; TimerFires 46000 46000;
            DisconnectClient "rt_1000_a1"] H eq_refl).
Defined.

Lemma stream_begins_with_connected_frame_witness :
  reachable world_ab
  /\ JsMap.get "rt_2000_b1" (clients world_ab) = Some (newClient bob "b1" 2000 world_a)
  /\ exists st,
      streams world_ab !! controller (newClient bob "b1" 2000 world_a) = Some st
      /\ head (chunks st)
         = Some ("event: connected" ++ nl
                 ++ "data: {" ++ dquote ++ "clientId" ++ dquote ++ ":" ++ dquote
                 ++ "rt_2000_b1" ++ dquote ++ "," ++ dquote ++ "connectedAt" ++ dquote
                 ++ ":2000}" ++ nl ++ nl).
Proof.
  assert (H0 : reachable world_ab)
    by (by exists defaultConfig,
             [CreateConnection alice "a1" 1000; CreateConnection bob "b1" 2000]).
  assert (H1 : JsMap.get "rt_2000_b1" (clients world_ab)
               = Some (newClient bob "b1" 2000 world_a)) by (vm_compute; reflexivity).
  split; [exact H0|]. split; [exact H1|].
  destruct (proj2 (stream_begins_with_connected_frame world_ab "rt_2000_b1" _ H0 H1))
    as (st & R1 & R2).
  exists st. split; [exact R1|].
  etrans; [exact R2 | vm_compute; reflexivity].
Defined.

Lemma sendToClients_counts_deliveries_witness :
  reachable world_bob_gone
  /\ formatEvent (note "hello")
     = Normal ("event: notification" ++ nl ++ "data: hello" ++ nl ++ nl)
  /\ JsMap.size (clients world_bob_gone) = 2%nat
  /\ eval (sendToClients emptyFilter (note "hello") 2500) world_bob_gone = Normal 1%nat.
Proof.
  assert (H0 : reachable world_bob_gone)
    by (by exists defaultConfig,
             [CreateConnection alice "a1" 1000; CreateConnection bob "b1" 2000;
              CancelStream 1%nat]).
  assert (H1 : formatEvent (note "hello")
               = Normal ("event: notification" ++ nl ++ "data: hello" ++ nl ++ nl))
    by (vm_compute; reflexivity).
  split; [exact H0|]. split; [exact H1|]. split; [vm_compute; reflexivity|].
  etrans;
    [exact (proj1 (sendToClients_counts_deliveries world_bob_gone emptyFilter
                     (note "hello") _ 2500 H0 H1))
    |vm_compute; reflexivity].
Defined.

Lemma heartbeat_tick_witness :
  reachable world_ab
  /\ 46000 - 46000 <= cfg_clientTimeout (config world_ab)
  /\ JsMap.keys (clients (exec (pingTick 46000 46000) world_ab))
     = JsMap.keys (clients world_ab).
Proof.
  assert (H0 : reachable world_ab)
    by (by exists defaultConfig,
             [CreateConnection alice "a1" 1000; CreateConnection bob "b1" 2000]).
  assert (H1 : 46000 - 46000 <= cfg_clientTimeout (config world_ab))
    by (vm_compute; discriminate).
  split; [exact H0|]. split; [exact H1|].
  exact (proj1 (heartbeat_tick world_ab 46000 46000 H0 H1)).
Defined.

(** In every world an engine reaches the registry is consistent: a client
    is stored under its own id, its controller is one of the streams that
    were opened, and no two registered clients share a stream. *)
Theorem registered_clients_own_their_streams (w : World) (k k' : string) (c c' : SSEClient) :
  reachable w ->
  JsMap.get k (clients w) = Some c ->
  JsMap.get k' (clients w) = Some c' ->
  id c = k
  /\ is_Some (streams w !! controller c)
  /\ (controller c = controller c' -> k = k').
Proof.
  intros Hr Hget Hget'. pose proof (reachable_wf w Hr) as Hwf.
  split; [by eapply wf_get_id|]. split.
  - destruct Hwf as (_ & _ & _ & Hvalid).
    rewrite List.Forall_forall in Hvalid.
    apply lookup_lt_is_Some. by apply (Hvalid (k, c)), get_Some_In.
  - intros Heq. destruct (decide (k = k')) as [|Hne]; [done|].
    by destruct (wf_distinct_controllers w k c k' c' Hwf Hget Hget' Hne).
Qed.

Lemma registered_clients_own_their_streams_witness :
  reachable world_ab
  /\ JsMap.get "rt_1000_a1" (clients world_ab) = Some (newClient alice "a1" 1000 world0)
  /\ JsMap.get "rt_2000_b1" (clients world_ab) = Some (newClient bob "b1" 2000 world_a)
  /\ id (newClient alice "a1" 1000 world0) = "rt_1000_a1"
  /\ is_Some (streams world_ab !! controller (newClient alice "a1" 1000 world0))
  /\ (controller (newClient alice "a1" 1000 world0)
      = controller (newClient bob "b1" 2000 world_a) -> "rt_1000_a1" = "rt_2000_b1").
Proof.
  assert (H0 : reachable world_ab)
    by (by exists defaultConfig,
             [CreateConnection alice "a1" 1000; CreateConnection bob "b1" 2000]).
  assert (H1 : JsMap.get "rt_1000_a1" (clients world_ab)
               = Some (newClient alice "a1" 1000 world0)) by (vm_compute; reflexivity).
  assert (H2 : JsMap.get "rt_2000_b1" (clients world_ab)
               = Some (newClient bob "b1" 2000 world_a)) by (vm_compute; reflexivity).
  split; [exact H0|]. split; [exact H1|]. split; [exact H2|].
  exact (registered_clients_own_their_streams world_ab "rt_1000_a1" "rt_2000_b1" _ _ H0 H1 H2).
Defined.

(** ** An event that cannot be framed *)

(** The payloads without a text: [undefined], a symbol and a function have
    no JSON text, a BigInt and a circular structure make [JSON.stringify]
    throw; and a BigInt or a cycle inside an array or an object does the
    same. *)
Example payloads_without_text :
  Forall (fun v => forall text, ~ has_text v text)
         [JUndefined; JSymbol "s"; JFunction "f"; JBigInt 1; JCircular;
          JArray [JNumber 1; JBigInt 2]; JObject [("self", JCircular)]].
Proof. repeat constructor; intros text H; vm_compute in H; discriminate. Qed.

(** When the payload of an event has no text, [formatEvent] throws inside
    the [try] of [sendToClient], and the handler treats that as a failed
    write: the client, whose stream was in order, has its stream closed and
    is unregistered.  Nothing was written and nothing is counted;
    [sendToClient] returns false. *)
Theorem sendToClient_unframed_event_disconnects w k c event now :
  JsMap.get k (clients w) = Some c ->
  writable w (controller c) = true ->
  (forall text, ~ has_text (ev_data event) text) ->
  let w' := exec (sendToClient k event now) w in
  (exists e, formatEvent event = Throw e)
  /\ eval (sendToClient k event now) w = Normal false
  /\ JsMap.get k (clients w') = None
  /\ streams w' !! controller c = request_close <$> streams w !! controller c
  /\ (forall r, r <> controller c -> streams w' !! r = streams w !! r)
  /\ totalEventsSent w' = totalEventsSent w
  /\ lastEventTime w' = lastEventTime w.
Proof.
  intros Hget Hw Hnone w'. subst w'.
  assert (exists e, formatEvent event = Throw e) as (e & Hthrow).
  { rewrite formatEvent_payload.
    destruct (payload_text (ev_data event)) as [[text|]|x] eqn:E; [|by eexists..].
    by destruct (Hnone text). }
  unfold exec, eval. rewrite (sendToClient_unframed w k c event e) by done.
  cbn [fst snd].
  split; [by exists e|]. split; [done|].
  split; [rewrite clients_removed; apply get_delete_eq|].
  split; [apply streams_removed_same|].
  split; [intros r Hr; by apply streams_removed_other|]. done.
Qed.

(** A broadcast of such an event reaches nobody and empties the registry. *)
Example broadcast_unframed_event_drops_everyone :
  eval (broadcast (mkEvent "update" JUndefined None None) 3000) world_ab = Normal 0%nat
  /\ all_writable world_ab
  /\ clients (exec (broadcast (mkEvent "update" JUndefined None None) 3000) world_ab) = [].
Proof.
  split; [vm_compute; reflexivity|].
  split; [apply (bool_decide_unpack _); vm_compute; reflexivity | vm_compute; reflexivity].
Qed.

Lemma sendToClient_unframed_event_disconnects_witness :
  JsMap.get "rt_1000_a1" (clients world_a) = Some (newClient alice "a1" 1000 world0)
  /\ writable world_a 0 = true
  /\ (forall text, ~ has_text (ev_data (mkEvent "update" JUndefined None None)) text)
  /\ eval (sendToClient "rt_1000_a1" (mkEvent "update" JUndefined None None) 5000) world_a
     = Normal false
  /\ JsMap.get "rt_1000_a1"
       (clients (exec (sendToClient "rt_1000_a1" (mkEvent "update" JUndefined None None) 5000)
                      world_a)) = None.
Proof.
  assert (H1 : JsMap.get "rt_1000_a1" (clients world_a)
               = Some (newClient alice "a1" 1000 world0)) by (vm_compute; reflexivity).
  assert (H2 : writable world_a (controller (newClient alice "a1" 1000 world0)) = true)
    by (vm_compute; reflexivity).
  assert (H3 : forall text, ~ has_text (ev_data (mkEvent "update" JUndefined None None)) text)
    by (intros text H; vm_compute in H; discriminate).
  destruct (sendToClient_unframed_event_disconnects
              world_a "rt_1000_a1" _ (mkEvent "update" JUndefined None None) 5000 H1 H2 H3)
    as (_ & R2 & R3 & _).
  split; [exact H1|]. split; [exact H2|]. split; [exact H3|].
  split; [exact R2 | exact R3].
Defined.
